(** * request-middleware: retry decorator, error taxonomy and streaming bridge

    A shallow embedding of the request-execution core of the library:

    - [src/engine/errors.ts]: the error taxonomy and [normalizeError];
    - [src/middlewares/retry.ts]: [calculateDelay], [checkShouldRetry],
      [createRetryAdapter] and the metadata-recording [createRetryMiddleware];
    - [src/middlewares/retryMiddleware.ts]: the looping [createRetryMiddleware];
    - [src/adapters/eventSource.ts] (both revisions): [createAsyncQueue] and
      the [request] wiring of [createEventSourceAdapter];
    - [src/client/httpClient.ts]: the [finalHandler] that normalises adapter
      failures.

    Conventions.  JavaScript numbers that the code uses as counters or status
    codes are integers ([Z]); delays are exact rationals ([Q]), so rounding of
    IEEE doubles is not modelled.  Strings are [string] and [toLowerCase] is
    the ASCII one.  Asynchronous code is written in explicit state-passing
    style: a promise that settles is a value of a result type, the effects
    (transport calls, sleeps, observer callbacks, the random source) are
    recorded in a world that is threaded through the computation. *)

From Stdlib Require Import ZArith QArith Qminmax Qpower Lia Lqa Bool List Ascii String.
From Stdlib Require Import DecimalString.
From stdpp Require Import gmap strings.
Import ListNotations.

Local Open Scope string_scope.
Local Open Scope list_scope.
Local Open Scope Z_scope.

(** ** JavaScript strings *)

Module Js.

(** [c.toLowerCase()] on one ASCII character. *)
Definition lower_ascii (c : ascii) : ascii :=
  let n := N_of_ascii c in
  if ((65 <=? n) && (n <=? 90))%N then ascii_of_N (n + 32) else c.

(** [s.toLowerCase()]. *)
Fixpoint toLowerCase (s : string) : string :=
  match s with
  | EmptyString => EmptyString
  | String c rest => String (lower_ascii c) (toLowerCase rest)
  end.

(** [s.includes(sub)]: [sub] occurs in [s] as a contiguous substring. *)
Fixpoint includes (s sub : string) : bool :=
  if String.prefix sub s then true
  else match s with
       | EmptyString => false
       | String _ rest => includes rest sub
       end.

(** [codes.includes(n)] on an array of numbers. *)
Definition array_includes (codes : list Z) (n : Z) : bool :=
  existsb (Z.eqb n) codes.

End Js.

(** ** Request and response descriptions ([middlewareTypes.ts]) *)

Inductive HttpMethod := GET | POST | PUT | DELETE | PATCH | HEAD | OPTIONS.

Definition HttpMethod_eqb (a b : HttpMethod) : bool :=
  match a, b with
  | GET, GET | POST, POST | PUT, PUT | DELETE, DELETE
  | PATCH, PATCH | HEAD, HEAD | OPTIONS, OPTIONS => true
  | _, _ => false
  end.

Record RequestConfig := mkRequestConfig {
  url : string;
  method : HttpMethod;
  data : option string;
  timeout : option Z
}.

(** The [data] of a response: a decoded body, or the [EventSourceSession]
    that the event-source adapter hands out. *)
Inductive Payload := Body (s : string) | SessionPayload.

Record ResponseData := mkResponseData {
  res_data : Payload;
  res_status : Z;
  res_statusText : string;
  res_config : RequestConfig
}.

(** ** Error taxonomy ([errors.ts]) *)

Inductive RequestErrorType := NETWORK | TIMEOUT | HTTP | ABORTED | PARSE | UNKNOWN.

Definition RequestErrorType_eqb (a b : RequestErrorType) : bool :=
  match a, b with
  | NETWORK, NETWORK | TIMEOUT, TIMEOUT | HTTP, HTTP
  | ABORTED, ABORTED | PARSE, PARSE | UNKNOWN, UNKNOWN => true
  | _, _ => false
  end.

(** The built-in class an error object was constructed from.  [DOMException]
    and [TypeError] instances are also [instanceof Error]. *)
Inductive ErrorClass := ClsError | ClsTypeError | ClsDOMException.

(** An error object that is not a [RequestError]: its class, [name],
    [message], and the [status] / [body] properties that the event-source
    adapter attaches to the error it builds in [onopen]. *)
Record RawError := mkRawError {
  raw_cls : ErrorClass;
  raw_name : string;
  raw_message : string;
  raw_status : option Z;
  raw_body : option string
}.

(** [new Error(msg)], [new TypeError(msg)], [new DOMException(msg, name)]. *)
Definition new_Error (msg : string) : RawError :=
  mkRawError ClsError "Error" msg None None.
Definition new_TypeError (msg : string) : RawError :=
  mkRawError ClsTypeError "TypeError" msg None None.
Definition new_DOMException (msg name : string) : RawError :=
  mkRawError ClsDOMException name msg None None.

(** [class RequestError extends Error]; [timestamp] ([Date.now()]) is left
    out.  [re_timeout] is the extra field of [TimeoutError]. *)
Record RequestError := mkRequestError {
  name : string;
  message : string;
  type : RequestErrorType;
  status : option Z;
  statusText : option string;
  config : option RequestConfig;
  response : option ResponseData;
  cause : option RawError;
  re_timeout : option Z
}.

(** The constructor of the base class. *)
Definition new_RequestError (msg : string) (ty : RequestErrorType)
    (st : option Z) (stText : option string) (cfg : option RequestConfig)
    (resp : option ResponseData) (cs : option RawError) : RequestError :=
  mkRequestError "RequestError" msg ty st stText cfg resp cs None.

Definition NetworkError (msg : string) (cfg : option RequestConfig)
    (cs : option RawError) : RequestError :=
  mkRequestError "NetworkError" msg NETWORK None None cfg None cs None.

Definition TimeoutError (msg : string) (tmo : Z) (cfg : option RequestConfig)
    : RequestError :=
  mkRequestError "TimeoutError" msg TIMEOUT None None cfg None None (Some tmo).

Definition HttpError (msg : string) (st : Z) (stText : string)
    (cfg : option RequestConfig) (resp : option ResponseData) : RequestError :=
  mkRequestError "HttpError" msg HTTP (Some st) (Some stText) cfg resp None None.

Definition AbortError (msg : string) (cfg : option RequestConfig) : RequestError :=
  mkRequestError "AbortError" msg ABORTED None None cfg None None None.

Definition ParseError (msg : string) (cfg : option RequestConfig)
    (cs : option RawError) : RequestError :=
  mkRequestError "ParseError" msg PARSE None None cfg None cs None.

Definition isNetworkError (e : RequestError) : bool := RequestErrorType_eqb (type e) NETWORK.
Definition isTimeoutError (e : RequestError) : bool := RequestErrorType_eqb (type e) TIMEOUT.
Definition isHttpError (e : RequestError) : bool := RequestErrorType_eqb (type e) HTTP.
Definition isAbortedError (e : RequestError) : bool := RequestErrorType_eqb (type e) ABORTED.

(** Truthiness of an optional number: [undefined] and [0] are falsy. *)
Definition truthy_number (n : option Z) : bool :=
  match n with
  | Some v => negb (v =? 0)
  | None => false
  end.

(** [RequestError.prototype.isRetryable]. *)
Definition isRetryable (e : RequestError) : bool :=
  if RequestErrorType_eqb (type e) NETWORK then true
  else if RequestErrorType_eqb (type e) TIMEOUT then true
  else if RequestErrorType_eqb (type e) HTTP
          && truthy_number (status e)
          && match status e with Some s => 500 <=? s | None => false end
       then true
  else false.

(** A value that can be thrown or used as a rejection reason ([unknown]). *)
Inductive Thrown :=
| ThrownRequestError (e : RequestError)
| ThrownError (e : RawError)
| ThrownString (s : string)
| ThrownUndefined
| ThrownObject.

(** JavaScript truthiness of a thrown value: objects are truthy, [undefined]
    and the empty string are falsy. *)
Definition truthy (t : Thrown) : bool :=
  match t with
  | ThrownRequestError _ | ThrownError _ | ThrownObject => true
  | ThrownString s => negb (String.eqb s "")
  | ThrownUndefined => false
  end.

(** [config?.timeout || 0]. *)
Definition timeout_or_0 (cfg : option RequestConfig) : Z :=
  match cfg with
  | Some c => if truthy_number (timeout c)
              then match timeout c with Some t => t | None => 0 end
              else 0
  | None => 0
  end.

(** [normalizeError(error, config)]. *)
Definition normalizeError (error : Thrown) (cfg : option RequestConfig) : RequestError :=
  match error with
  | ThrownRequestError e => e
  | ThrownError e =>
      let msg := raw_message e in
      let lower := Js.toLowerCase msg in
      if match raw_cls e with ClsDOMException => String.eqb (raw_name e) "AbortError" | _ => false end
      then AbortError "Request aborted" cfg
      else if match raw_cls e with ClsTypeError => true | _ => false end
              && (Js.includes msg "fetch" || Js.includes msg "network")
      then NetworkError msg cfg (Some e)
      else if Js.includes lower "timeout"
      then TimeoutError msg (timeout_or_0 cfg) cfg
      else if String.eqb (raw_name e) "AbortError" || Js.includes lower "abort"
      then AbortError msg cfg
      else if Js.includes lower "network"
              || Js.includes lower "failed to fetch"
              || Js.includes lower "econnrefused"
      then NetworkError msg cfg (Some e)
      else new_RequestError msg UNKNOWN None None cfg None (Some e)
  | ThrownString s => new_RequestError s UNKNOWN None None cfg None None
  | ThrownUndefined | ThrownObject =>
      new_RequestError "Unknown error" UNKNOWN None None cfg None None
  end.

(** [createHttpError(status, statusText, config, response)]; the message is
    the template string [`HTTP Error: ${status} ${statusText}`]. *)
Definition show_Z (n : Z) : string :=
  NilZero.string_of_int (Z.to_int n).

Definition createHttpError (st : Z) (stText : string)
    (cfg : option RequestConfig) (resp : option ResponseData) : RequestError :=
  HttpError ("HTTP Error: " ++ show_Z st ++ " " ++ stText)%string st stText cfg resp.

(** [isRequestError(error)] and [isRetryableError(error)]. *)
Definition isRequestError (error : Thrown) : bool :=
  match error with ThrownRequestError _ => true | _ => false end.

Definition isRetryableError (error : Thrown) : bool :=
  match error with ThrownRequestError e => isRetryable e | _ => false end.

(** ** Effects: settled promises and the world they run in *)

(** The outcome of an awaited promise. *)
Inductive Settled (A : Type) :=
| Resolved (a : A)
| Rejected (reason : Thrown).
Arguments Resolved {A} a.
Arguments Rejected {A} reason.

Inductive Backoff := linear | exponential.

(** What a computation does to the outside, in order. *)
Inductive Event :=
| EvCall (cfg : RequestConfig)             (* adapter.request(config) *)
| EvNext                                   (* next() *)
| EvOnRetry (error : Thrown) (attempt : Z) (* onRetry(error, attempt) *)
| EvSleep (ms : Q).                        (* await sleep(ms) *)

Definition is_call (ev : Event) : bool :=
  match ev with EvCall _ => true | _ => false end.
Definition is_next (ev : Event) : bool :=
  match ev with EvNext => true | _ => false end.

Module Eff.
Section WithEnv.

(** [S] is the state of the collaborators the code calls into (the wrapped
    transport, or the context together with the rest of the chain). *)
Context {S : Type}.

Record World := mkWorld {
  w_env : S;             (* collaborators *)
  w_draws : nat;         (* how many times Math.random() was called *)
  w_trace : list Event   (* effects so far, oldest first *)
}.

Definition M (A : Type) : Type := World -> Settled A * World.

Definition ret {A} (a : A) : M A := fun w => (Resolved a, w).
Definition throw {A} (e : Thrown) : M A := fun w => (Rejected e, w).

Definition bind {A B} (m : M A) (k : A -> M B) : M B :=
  fun w => match m w with
           | (Resolved a, w') => k a w'
           | (Rejected e, w') => (Rejected e, w')
           end.

(** [try { m } catch (error) { handler }]. *)
Definition try_catch {A} (m : M A) (handler : Thrown -> M A) : M A :=
  fun w => match m w with
           | (Resolved a, w') => (Resolved a, w')
           | (Rejected e, w') => handler e w'
           end.

Definition emit (ev : Event) : M unit :=
  fun w => (Resolved tt, mkWorld (w_env w) (w_draws w) (w_trace w ++ [ev])).

(** Run a collaborator on the environment. *)
Definition lift {A} (f : S -> Settled A * S) : M A :=
  fun w => let (r, s') := f (w_env w) in
           (r, mkWorld s' (w_draws w) (w_trace w)).

Definition get : M S := fun w => (Resolved (w_env w), w).

Definition modify (f : S -> S) : M unit :=
  fun w => (Resolved tt, mkWorld (f (w_env w)) (w_draws w) (w_trace w)).

(** [Math.random()]: the next value of the random source. *)
Definition random (Math_random : nat -> Q) : M Q :=
  fun w => (Resolved (Math_random (w_draws w)),
            mkWorld (w_env w) (Datatypes.S (w_draws w)) (w_trace w)).

Definition when (b : bool) (m : M unit) : M unit :=
  if b then m else ret tt.

End WithEnv.
Arguments World : clear implicits.
Arguments M : clear implicits.
End Eff.

Notation "x <- m ;; k" := (Eff.bind m (fun x => k))
  (at level 100, m at next level, right associativity).
Notation "m ;;; k" := (Eff.bind m (fun _ => k))
  (at level 100, right associativity).

(** ** The retry decorator ([retry.ts]) *)

Module Retry.

(** [RetryMiddlewareOptions] after the defaults of the destructuring
    pattern have been applied.  The observer [onRetry] is recorded in the
    trace when present; [shouldRetry] is a pure predicate. *)
Record Options := mkOptions {
  maxRetries : Z;
  backoff : Backoff;
  baseDelay : Q;
  maxDelay : Q;
  retryableStatusCodes : list Z;
  shouldRetry : option (Thrown -> Z -> bool);
  onRetry : bool
}.

Definition DEFAULT_RETRYABLE_STATUS_CODES : list Z :=
  [408; 429; 500; 502; 503; 504].

(** [options = {}] with every default. *)
Definition default_options : Options :=
  mkOptions 3 exponential 1000 30000 DEFAULT_RETRYABLE_STATUS_CODES None false.

(** [{ maxRetries: n }]. *)
Definition with_maxRetries (n : Z) : Options :=
  mkOptions n exponential 1000 30000 DEFAULT_RETRYABLE_STATUS_CODES None false.

(** [checkShouldRetry(error, attempt, retryableStatusCodes, customShouldRetry)]. *)
Definition checkShouldRetry (error : Thrown) (attempt : Z)
    (codes : list Z) (customShouldRetry : option (Thrown -> Z -> bool)) : bool :=
  match customShouldRetry with
  | Some f => f error attempt
  | None =>
      match error with
      | ThrownRequestError e =>
          if isAbortedError e then false
          else if isHttpError e && truthy_number (status e)
          then match status e with
               | Some s => Js.array_includes codes s
               | None => false
               end
          else isRetryable e
      | _ => isRetryableError error
      end
  end.

Section WithWorld.
Context {S : Type}.
(** The random source behind [Math.random()]. *)
Variable Math_random : nat -> Q.

(** [calculateDelay(attempt, backoff, baseDelay, maxDelay)]. *)
Definition calculateDelay (attempt : Z) (bo : Backoff) (base max : Q)
    : Eff.M S Q :=
  match bo with
  | exponential =>
      r <- Eff.random Math_random ;;
      let delay := (base * (2 # 1) ^ attempt)%Q in
      let delay := (delay + delay * r * (25 # 100))%Q in
      Eff.ret (Qmin delay max)
  | linear =>
      let delay := (base * inject_Z (attempt + 1))%Q in
      Eff.ret (Qmin delay max)
  end.

(** [sleep(ms)]. *)
Definition sleep (ms : Q) : Eff.M S unit := Eff.emit (EvSleep ms).

(** *** [createRetryAdapter(adapter, options).request] *)
Section Adapter.
(** The wrapped transport: one call consumes and produces its state. *)
Variable adapter_request : RequestConfig -> S -> Settled ResponseData * S.
Variable options : Options.

Definition call_adapter (cfg : RequestConfig) : Eff.M S ResponseData :=
  Eff.emit (EvCall cfg) ;;; Eff.lift (adapter_request cfg).

(** [for (let attempt = 0; attempt <= maxRetries; attempt++) { ... }]
    followed by [throw lastError].  [fuel] bounds the number of passes;
    [request] supplies [maxRetries + 1], which the loop never uses up. *)
Fixpoint attempts (fuel : nat) (attempt : Z) (lastError : Thrown)
    (cfg : RequestConfig) : Eff.M S ResponseData :=
  match fuel with
  | O => Eff.throw lastError
  | Datatypes.S fuel' =>
      if attempt <=? maxRetries options then
        Eff.try_catch (call_adapter cfg) (fun error =>
          if attempt =? maxRetries options then Eff.throw error
          else if negb (checkShouldRetry error attempt
                          (retryableStatusCodes options) (shouldRetry options))
          then Eff.throw error
          else
            delay <- calculateDelay attempt (backoff options)
                       (baseDelay options) (maxDelay options) ;;
            Eff.when (onRetry options) (Eff.emit (EvOnRetry error (attempt + 1))) ;;;
            sleep delay ;;;
            attempts fuel' (attempt + 1) error cfg)
      else Eff.throw lastError
  end.

Definition request (cfg : RequestConfig) : Eff.M S ResponseData :=
  attempts (Z.to_nat (maxRetries options + 1)) 0 ThrownUndefined cfg.

End Adapter.
End WithWorld.

(** How many times the wrapped transport was called. *)
Definition calls {S} (w : Eff.World S) : nat :=
  List.length (List.filter is_call (Eff.w_trace w)).

End Retry.

(** ** The middleware context ([middlewareTypes.ts]) *)

(** The values the retry middleware stores in [ctx.state]. *)
Inductive StateValue :=
| SvRetryConfig (maxRetries : Z) (bo : Backoff) (baseDelay maxDelay : Q) (codes : list Z)
| SvNumber (n : Q)
| SvOther (s : string).

Record HttpContext := mkHttpContext {
  ctx_request : RequestConfig;
  ctx_response : option ResponseData;
  ctx_error : option Thrown;
  ctx_state : gmap string StateValue
}.

(** [createHttpContext(config)] of [httpClient.ts]. *)
Definition createHttpContext (cfg : RequestConfig) : HttpContext :=
  mkHttpContext cfg None None ∅.

(** [ctx.state[key] = v]. *)
Definition set_state (key : string) (v : StateValue) (ctx : HttpContext) : HttpContext :=
  mkHttpContext (ctx_request ctx) (ctx_response ctx) (ctx_error ctx)
                (<[key := v]> (ctx_state ctx)).

(** [ctx.response = undefined; ctx.error = undefined]. *)
Definition reset_outcome (ctx : HttpContext) : HttpContext :=
  mkHttpContext (ctx_request ctx) None None (ctx_state ctx).

(** A middleware runs against the context and the state [D] of the rest of
    the chain; [next] is the continuation it is handed. *)
Definition NextFunction (D : Type) : Type :=
  HttpContext * D -> Settled unit * (HttpContext * D).

Definition on_ctx {D} (f : HttpContext -> HttpContext) (env : HttpContext * D)
    : HttpContext * D :=
  (f (fst env), snd env).

(** Every invocation of the continuation is recorded. *)
Definition call_next {D} (next : NextFunction D) : Eff.M (HttpContext * D) unit :=
  Eff.emit EvNext ;;; Eff.lift next.

(** How many times a middleware invoked its continuation. *)
Definition next_calls {S} (w : Eff.World S) : nat :=
  List.length (List.filter is_next (Eff.w_trace w)).

(** *** [createRetryMiddleware] of [retry.ts] *)

Module RetryTs.
Section Middleware.
Context {D : Type}.
Variable Math_random : nat -> Q.
Variable options : Retry.Options.
Variable next : NextFunction D.

Definition createRetryMiddleware : Eff.M (HttpContext * D) unit :=
  Eff.modify (on_ctx (set_state "retryConfig"
    (SvRetryConfig (Retry.maxRetries options) (Retry.backoff options)
       (Retry.baseDelay options) (Retry.maxDelay options)
       (Retry.retryableStatusCodes options)))) ;;;
  let attempt := 0 in
  (* executeWithRetry() *)
  Eff.try_catch (call_next next) (fun error =>
    if attempt >=? Retry.maxRetries options then Eff.throw error
    else if negb (Retry.checkShouldRetry error attempt
                    (Retry.retryableStatusCodes options) (Retry.shouldRetry options))
    then Eff.throw error
    else
      delay <- Retry.calculateDelay Math_random attempt (Retry.backoff options)
                 (Retry.baseDelay options) (Retry.maxDelay options) ;;
      Eff.when (Retry.onRetry options) (Eff.emit (EvOnRetry error (attempt + 1))) ;;;
      Eff.modify (on_ctx (set_state "retryAttempt" (SvNumber (inject_Z (attempt + 1))))) ;;;
      Eff.modify (on_ctx (set_state "retryDelay" (SvNumber delay))) ;;;
      Eff.modify (on_ctx reset_outcome) ;;;
      let attempt := attempt + 1 in
      Retry.sleep delay ;;;
      Eff.throw error).

End Middleware.
End RetryTs.

(** *** [createRetryMiddleware] of [retryMiddleware.ts] *)

Module RetryMiddlewareTs.

Record RetryOptions := mkRetryOptions {
  retries : Z;
  delay : Q
}.

(** [options = {}]: [retries = 2], [delay = 200]. *)
Definition default_options : RetryOptions := mkRetryOptions 2 200.

(** How one pass through the loop body ends. *)
Inductive Pass :=
| Return                                (* [return] inside [try] *)
| Continue (lastError : option Thrown). (* go on with [i + 1] *)

Definition truthy_error (e : option Thrown) : bool :=
  match e with Some t => truthy t | None => false end.

Section Middleware.
Context {D : Type}.
Variable options : RetryOptions.
Variable next : NextFunction D.

(** [if (lastError) throw lastError;] after the loop. *)
Definition after_loop (lastError : option Thrown) : Eff.M (HttpContext * D) unit :=
  match lastError with
  | Some e => if truthy e then Eff.throw e else Eff.ret tt
  | None => Eff.ret tt
  end.

(** [for (let i = 0; i <= retries; i++) { ... }] and what follows it.
    [fuel] bounds the number of passes; [retries + 1] is enough. *)
Fixpoint loop (fuel : nat) (i : Z) (lastError : option Thrown)
    : Eff.M (HttpContext * D) unit :=
  match fuel with
  | O => after_loop lastError
  | Datatypes.S fuel' =>
      if i <=? retries options then
        pass <- Eff.try_catch
                  (call_next next ;;;
                   env <- Eff.get ;;
                   if negb (truthy_error (ctx_error (fst env)))
                   then Eff.ret Return
                   else Eff.ret (Continue lastError))
                  (fun err =>
                     Eff.when ((i <? retries options) && negb (Qle_bool (delay options) 0))
                       (Retry.sleep (delay options)) ;;;
                     Eff.ret (Continue (Some err))) ;;
        match pass with
        | Return => Eff.ret tt
        | Continue lastError' => loop fuel' (i + 1) lastError'
        end
      else after_loop lastError
  end.

Definition createRetryMiddleware : Eff.M (HttpContext * D) unit :=
  loop (Z.to_nat (retries options + 1)) 0 None.

End Middleware.
End RetryMiddlewareTs.

(** ** The streaming bridge ([eventSource.ts], current revision) *)

(** [IteratorResult<T>]: [{ value, done: false }] or the completion marker
    [{ value: undefined, done: true }]. *)
Inductive IteratorResult (T : Type) :=
| Value (v : T)
| Done.
Arguments Value {T} v.
Arguments Done {T}.

Module AsyncQueue.
Section WithT.
Context {T : Type}.

(** The closure variables of [createAsyncQueue].  Every call of [next()]
    creates a promise; promises are numbered in the order of the calls
    ([issued] is the next number) and [settlements] records, in order,
    which promise was settled and how.  [resolveNext] / [rejectNext] hold
    the number of the promise whose resolvers they are.  [doneResolve]
    tells whether the resolver of [done] is still held, [done] whether the
    promise has resolved. *)
Record Queue := mkQueue {
  isClosed : bool;
  failure : option Thrown;
  values : list T;
  resolveNext : option nat;
  rejectNext : option nat;
  doneResolve : bool;
  done : bool;
  issued : nat;
  settlements : list (nat * Settled (IteratorResult T))
}.

(** The state right after [createAsyncQueue()] returns. *)
Definition createAsyncQueue : Queue :=
  mkQueue false None [] None None true false 0 [].

(** [if (failure)]: the stored value is tested for truthiness. *)
Definition failed (q : Queue) : bool :=
  match failure q with
  | Some e => truthy e
  | None => false
  end.

Definition settleDone (q : Queue) : Queue :=
  if doneResolve q
  then mkQueue (isClosed q) (failure q) (values q) (resolveNext q) (rejectNext q)
               false true (issued q) (settlements q)
  else q.

(** Settle promise [id] and remember it. *)
Definition settle (id : nat) (r : Settled (IteratorResult T)) (q : Queue) : Queue :=
  mkQueue (isClosed q) (failure q) (values q) (resolveNext q) (rejectNext q)
          (doneResolve q) (done q) (issued q) (settlements q ++ [(id, r)]).

(** [resolveNext = undefined; rejectNext = undefined]. *)
Definition clear_pending (q : Queue) : Queue :=
  mkQueue (isClosed q) (failure q) (values q) None None
          (doneResolve q) (done q) (issued q) (settlements q).

(** A new promise is handed out. *)
Definition fresh (q : Queue) : Queue :=
  mkQueue (isClosed q) (failure q) (values q) (resolveNext q) (rejectNext q)
          (doneResolve q) (done q) (Datatypes.S (issued q)) (settlements q).

(** [iterator.next()]. *)
Definition next (q : Queue) : Queue :=
  let id := issued q in
  let q := fresh q in
  if failed q then
    match failure q with
    | Some e => settle id (Rejected e) q
    | None => q
    end
  else
    match values q with
    | value :: rest =>
        settle id (Resolved (Value value))
          (mkQueue (isClosed q) (failure q) rest (resolveNext q) (rejectNext q)
                   (doneResolve q) (done q) (issued q) (settlements q))
    | [] =>
        if isClosed q then settle id (Resolved Done) (settleDone q)
        else mkQueue (isClosed q) (failure q) (values q) (Some id) (Some id)
                     (doneResolve q) (done q) (issued q) (settlements q)
    end.

(** [push(value)]. *)
Definition push (value : T) (q : Queue) : Queue :=
  if isClosed q || failed q then q
  else
    match resolveNext q with
    | Some id => clear_pending (settle id (Resolved (Value value)) q)
    | None =>
        mkQueue (isClosed q) (failure q) (values q ++ [value]) (resolveNext q)
                (rejectNext q) (doneResolve q) (done q) (issued q) (settlements q)
    end.

(** [close()]. *)
Definition close (q : Queue) : Queue :=
  if isClosed q then q
  else
    let q := mkQueue true (failure q) (values q) (resolveNext q) (rejectNext q)
                     (doneResolve q) (done q) (issued q) (settlements q) in
    let q := match resolveNext q with
             | Some id => clear_pending (settle id (Resolved Done) q)
             | None => q
             end in
    settleDone q.

(** [fail(err)]. *)
Definition fail (err : Thrown) (q : Queue) : Queue :=
  if failed q || isClosed q then q
  else
    let q := mkQueue (isClosed q) (Some err) (values q) (resolveNext q) (rejectNext q)
                     (doneResolve q) (done q) (issued q) (settlements q) in
    let q := match rejectNext q with
             | Some id => clear_pending (settle id (Rejected err) q)
             | None => q
             end in
    settleDone q.

(** How promise [id] was settled, if it was. *)
Definition outcome (q : Queue) (id : nat) : option (Settled (IteratorResult T)) :=
  match List.find (fun s => Nat.eqb (fst s) id) (settlements q) with
  | Some s => Some (snd s)
  | None => None
  end.

(** The operations the two sides perform on one queue. *)
Inductive Op :=
| Push (value : T)
| Close
| Fail (err : Thrown)
| Next.

Definition step (q : Queue) (op : Op) : Queue :=
  match op with
  | Push value => push value q
  | Close => close q
  | Fail err => fail err q
  | Next => next q
  end.

Definition run (ops : list Op) (q : Queue) : Queue :=
  List.fold_left step ops q.

Definition is_Next (op : Op) : bool :=
  match op with Next => true | _ => false end.

(** The consumer pulls one at a time ([for await], or awaiting each
    [next()] before the following one): no [next()] is issued while the
    promise of an earlier one is still pending. *)
Fixpoint sequential (ops : list Op) (q : Queue) : bool :=
  match ops with
  | [] => true
  | op :: rest =>
      (if is_Next op
       then match resolveNext q with Some _ => false | None => true end
       else true)
      && sequential rest (step q op)
  end.

(** What the producer did, without the pulls. *)
Definition produced (ops : list Op) : list Op :=
  List.filter (fun op => negb (is_Next op)) ops.

Definition is_Close (op : Op) : bool :=
  match op with Close => true | _ => false end.
Definition is_Fail (op : Op) : bool :=
  match op with Fail _ => true | _ => false end.

(** How many pulls a schedule holds. *)
Definition pulls (ops : list Op) : nat :=
  List.length (List.filter is_Next ops).

(** The values pushed before the first [close()], starting from a queue
    that is closed or not. *)
Fixpoint accepted (closed : bool) (ops : list Op) : list T :=
  match ops with
  | [] => []
  | Push value :: rest =>
      if closed then accepted closed rest else value :: accepted closed rest
  | Close :: rest => accepted true rest
  | _ :: rest => accepted closed rest
  end.

(** What the [i]-th pull of a consumer should see when [items] were
    pushed and the source then closed: the [i]-th item, or the completion
    marker once the items are used up. *)
Definition expected (items : list T) (i : nat) : Settled (IteratorResult T) :=
  Resolved (match List.nth_error items i with
            | Some value => Value value
            | None => Done
            end).

(** The first [m] pulls settled in order with what they should see. *)
Definition delivered (items : list T) (m : nat)
    : list (nat * Settled (IteratorResult T)) :=
  List.map (fun i => (i, expected items i)) (List.seq 0 m).

(** The shape of a queue that has not failed, whose producer has had
    [items] accepted so far and whose consumer pulls one at a time: the
    pulls settled so far saw the items in order, the buffer holds the
    items not yet seen, and a pull is pending only on an empty buffer of
    an open queue. *)
Definition in_order (items : list T) (q : Queue) : Prop :=
  let m := List.length (settlements q) in
  failure q = None
  /\ rejectNext q = resolveNext q
  /\ done q = isClosed q
  /\ doneResolve q = negb (isClosed q)
  /\ settlements q = delivered items m
  /\ values q = List.skipn m items
  /\ (m <= List.length items \/ isClosed q = true)%nat
  /\ ((resolveNext q = None /\ issued q = m)
      \/ (resolveNext q = Some m /\ issued q = Datatypes.S m
          /\ isClosed q = false /\ List.length items <= m)%nat).

End WithT.
Arguments Queue : clear implicits.
Arguments Op : clear implicits.
End AsyncQueue.

(** [EventSourceMessage]. *)
Record EventSourceMessage := mkMessage {
  msg_data : string;
  msg_type : option string;
  msg_id : option string
}.

(** The [Response] the source passes to [onopen]; [resp_text] is what
    [response.text().catch(() => undefined)] yields. *)
Record OpenResponse := mkOpenResponse {
  resp_status : Z;
  resp_statusText : string;
  resp_text : option string
}.

(** [response.ok]. *)
Definition ok (r : OpenResponse) : bool :=
  (200 <=? resp_status r) && (resp_status r <=? 299).

(** What [fetchEventSource] does with the options it was given: it calls one
    of the four callbacks, or its promise settles ([None]: it resolves,
    [Some err]: it rejects), which resumes [run] after its [await]. *)
Inductive SourceEvent :=
| OnOpen (r : OpenResponse)
| OnMessage (data event id : string)
| OnError (error : Thrown)
| OnClose
| Settles (rejection : option Thrown).

Definition is_Settles (ev : SourceEvent) : bool :=
  match ev with Settles _ => true | _ => false end.

Module EventSource.

(** The state of one [request] call: the queue behind [session.stream], the
    [settled] flag, the promise [request] returned ([outer], [None] while
    pending), whether [run]'s own [done] promise has resolved, and the
    calls made to [fetchEventSource] (URL and method).  The abort
    controller and the timeout timer only signal the source and are left
    out, as are the optional user callbacks, which run after the queue
    operations. *)
Record State := mkState {
  queue : AsyncQueue.Queue EventSourceMessage;
  settled : bool;
  outer : option (Settled ResponseData);
  run_done : bool;
  connects : list (string * HttpMethod);
  request_config : RequestConfig
}.

(** [request(requestConfig)] up to and including [void run()]: the session
    is built and [fetchEventSource] is called with the method of the
    request. *)
Definition request (requestConfig : RequestConfig) : State :=
  mkState AsyncQueue.createAsyncQueue false None false
          [(url requestConfig, method requestConfig)] requestConfig.

Definition with_queue (f : AsyncQueue.Queue EventSourceMessage ->
                           AsyncQueue.Queue EventSourceMessage) (st : State) : State :=
  mkState (f (queue st)) (settled st) (outer st) (run_done st) (connects st)
          (request_config st).

(** [if (!settled) { settled = true; resolve(r) / reject(r) }]. *)
Definition settle_outer (r : Settled ResponseData) (st : State) : State :=
  if settled st then st
  else mkState (queue st) true (Some r) (run_done st) (connects st) (request_config st).

(** The error built in [onopen] for a response that is not [ok]. *)
Definition open_error (r : OpenResponse) : RawError :=
  let suffix := match resp_text r with
                | Some text => if String.eqb text "" then "" else (" - " ++ text)%string
                | None => ""
                end in
  mkRawError ClsError "Error"
    ("HTTP Error: " ++ show_Z (resp_status r) ++ " " ++ resp_statusText r ++ suffix)%string
    (Some (resp_status r)) (resp_text r).

(** The callbacks and the tail of [run].  The second component is the
    exception the callback throws back into the source, if any. *)
Definition handle (ev : SourceEvent) (st : State) : State * option Thrown :=
  match ev with
  | OnOpen r =>
      if negb (ok r) then
        let err := ThrownError (open_error r) in
        let st := with_queue (AsyncQueue.fail err) st in
        let st := settle_outer (Rejected err) st in
        (st, Some err)
      else
        (settle_outer
           (Resolved (mkResponseData SessionPayload (resp_status r)
                        (resp_statusText r) (request_config st))) st,
         None)
  | OnMessage data event id =>
      let msg := mkMessage data (Some event) (Some id) in
      (with_queue (AsyncQueue.push msg) st, None)
  | OnError error =>
      (with_queue (AsyncQueue.fail error) st, Some error)
  | OnClose =>
      (with_queue AsyncQueue.close st, None)
  | Settles rejection =>
      (* catch (err) { ... } *)
      let st := match rejection with
                | Some err =>
                    with_queue (AsyncQueue.fail err) (settle_outer (Rejected err) st)
                | None => st
                end in
      (* finally { queue.close(); doneResolve?.(); ... } *)
      let st := with_queue AsyncQueue.close st in
      (mkState (queue st) (settled st) (outer st) true (connects st) (request_config st),
       None)
  end.

Definition feed (evs : list SourceEvent) (st : State) : State :=
  List.fold_left (fun st ev => fst (handle ev st)) evs st.

(** [session.stream[Symbol.asyncIterator]().next()]. *)
Definition pull (st : State) : State := with_queue AsyncQueue.next st.

(** [session.done = Promise.all([done, queue.done])] has resolved. *)
Definition session_done (st : State) : bool :=
  run_done st && AsyncQueue.done (queue st).

(** The two sides of a session: the source drives the callbacks, the
    consumer pulls. *)
Inductive Action :=
| Source (ev : SourceEvent)
| Pull.

Definition act (st : State) (a : Action) : State :=
  match a with
  | Source ev => fst (handle ev st)
  | Pull => pull st
  end.

Definition exec (acts : list Action) (st : State) : State :=
  List.fold_left act acts st.

(** What the source did, without the pulls. *)
Definition source_events (acts : list Action) : list SourceEvent :=
  List.flat_map (fun a => match a with Source ev => [ev] | Pull => [] end) acts.

(** The queue operations behind a source event. *)
Definition source_ops (ev : SourceEvent) : list (AsyncQueue.Op EventSourceMessage) :=
  match ev with
  | OnOpen r =>
      if negb (ok r) then [AsyncQueue.Fail (ThrownError (open_error r))] else []
  | OnMessage data event id =>
      [AsyncQueue.Push (mkMessage data (Some event) (Some id))]
  | OnError error => [AsyncQueue.Fail error]
  | OnClose => [AsyncQueue.Close]
  | Settles (Some err) => [AsyncQueue.Fail err; AsyncQueue.Close]
  | Settles None => [AsyncQueue.Close]
  end.

Definition queue_ops (a : Action) : list (AsyncQueue.Op EventSourceMessage) :=
  match a with
  | Source ev => source_ops ev
  | Pull => [AsyncQueue.Next]
  end.

(** The consumer of the session pulls one at a time. *)
Definition sequential (acts : list Action) (st : State) : bool :=
  AsyncQueue.sequential (List.flat_map queue_ops acts) (queue st).

Definition pulls (acts : list Action) : nat :=
  List.length (List.filter (fun a => match a with Pull => true | _ => false end) acts).

End EventSource.

(** ** The earlier revision of [eventSource.ts] *)

Module EventSourceOld.

(** One [request] call of the GET-only revision: the promise it returned
    and the calls made to [fetchEventSource].  This revision has no queue
    and no session: [data] of the response is an empty object. *)
Record State := mkState {
  resolved : bool;
  outer : option (Settled ResponseData);
  connects : list (string * HttpMethod);
  request_config : RequestConfig
}.

Definition request (requestConfig : RequestConfig) : State :=
  if negb (HttpMethod_eqb (method requestConfig) GET) then
    mkState false
      (Some (Rejected (ThrownRequestError
         (new_RequestError "EventSource adapter only supports GET requests"
            UNKNOWN None None (Some requestConfig) None None))))
      [] requestConfig
  else
    mkState false None [(url requestConfig, GET)] requestConfig.

Definition handle (ev : SourceEvent) (st : State) : State :=
  match ev with
  | OnOpen r =>
      if resolved st then st
      else mkState true
             (Some (Resolved (mkResponseData (Body "") (resp_status r)
                                (resp_statusText r) (request_config st))))
             (connects st) (request_config st)
  | OnError error =>
      let normalizedError := normalizeError error (Some (request_config st)) in
      if resolved st then st
      else mkState true (Some (Rejected (ThrownRequestError normalizedError)))
             (connects st) (request_config st)
  | OnMessage _ _ _ | OnClose | Settles _ => st
  end.

End EventSourceOld.

(** ** The client's terminal handler ([httpClient.ts]) *)

(** [finalHandler]: the settled adapter promise is stored in the context; a
    rejection is normalised, stored and rethrown. *)
Definition finalHandler (adapter_result : Settled ResponseData) (ctx : HttpContext)
    : Settled unit * HttpContext :=
  match adapter_result with
  | Resolved r =>
      (Resolved tt,
       mkHttpContext (ctx_request ctx) (Some r) (ctx_error ctx) (ctx_state ctx))
  | Rejected error =>
      let e := ThrownRequestError (normalizeError error (Some (ctx_request ctx))) in
      (Rejected e,
       mkHttpContext (ctx_request ctx) (ctx_response ctx) (Some e) (ctx_state ctx))
  end.

(** ** The taxonomy as a table of rules *)

(** The normalisation order read as a table: the first rule whose test holds
    decides the kind.  This second definition follows the wording of the
    taxonomy and is compared with [normalizeError] below. *)
Module Taxonomy.

Definition Rule : Type := (RawError -> bool) * RequestErrorType.

(** A [DOMException] named [AbortError]. *)
Definition abort_signal_exception (e : RawError) : bool :=
  match raw_cls e with
  | ClsDOMException => String.eqb (raw_name e) "AbortError"
  | _ => false
  end.

(** A [TypeError] whose message mentions [fetch] or [network], as written. *)
Definition fetch_type_error (e : RawError) : bool :=
  match raw_cls e with
  | ClsTypeError =>
      Js.includes (raw_message e) "fetch" || Js.includes (raw_message e) "network"
  | _ => false
  end.

Definition timeout_keyword (e : RawError) : bool :=
  Js.includes (Js.toLowerCase (raw_message e)) "timeout".

Definition abort_keyword (e : RawError) : bool :=
  String.eqb (raw_name e) "AbortError"
  || Js.includes (Js.toLowerCase (raw_message e)) "abort".

Definition network_keyword (e : RawError) : bool :=
  Js.includes (Js.toLowerCase (raw_message e)) "network"
  || Js.includes (Js.toLowerCase (raw_message e)) "failed to fetch"
  || Js.includes (Js.toLowerCase (raw_message e)) "econnrefused".

(** abort-signal-exception, timeout-keyword, abort-keyword, network-keyword. *)
Definition stated_rules : list Rule :=
  [ (abort_signal_exception, ABORTED);
    (timeout_keyword, TIMEOUT);
    (abort_keyword, ABORTED);
    (network_keyword, NETWORK) ].

(** The same table with the rule for type errors in second place. *)
Definition rules : list Rule :=
  [ (abort_signal_exception, ABORTED);
    (fetch_type_error, NETWORK);
    (timeout_keyword, TIMEOUT);
    (abort_keyword, ABORTED);
    (network_keyword, NETWORK) ].

Definition first_match (rs : list Rule) (e : RawError) : RequestErrorType :=
  match List.find (fun r => fst r e) rs with
  | Some r => snd r
  | None => UNKNOWN
  end.

(** Already-typed errors keep their kind; error objects go through the
    table; anything else is unknown. *)
Definition kind_of (rs : list Rule) (error : Thrown) : RequestErrorType :=
  match error with
  | ThrownRequestError e => type e
  | ThrownError e => first_match rs e
  | ThrownString _ | ThrownUndefined | ThrownObject => UNKNOWN
  end.

End Taxonomy.

(** ** Transports and requests used as concrete inputs *)

Module Fixtures.

Definition get_test : RequestConfig := mkRequestConfig "/test" GET None None.
Definition post_events : RequestConfig :=
  mkRequestConfig "/events" POST (Some "{}") None.

Definition success : ResponseData :=
  mkResponseData (Body "{}") 200 "OK" get_test.

(** A transport that answers from a script, one entry per call; its state
    is the number of calls made so far. *)
Definition scripted (script : list (Settled ResponseData))
    (otherwise : Settled ResponseData)
    : RequestConfig -> nat -> Settled ResponseData * nat :=
  fun _ n => (List.nth n script otherwise, Datatypes.S n).

Definition http_error (st : Z) (stText : string) : Thrown :=
  ThrownRequestError (createHttpError st stText (Some get_test) None).

(** Fails twice with the given status, then succeeds. *)
Definition fails_twice (st : Z) (stText : string) :=
  scripted [Rejected (http_error st stText); Rejected (http_error st stText)]
           (Resolved success).

(** Always fails with 404. *)
Definition always_404 := scripted [] (Rejected (http_error 404 "Not Found")).

Definition start : Eff.World nat := Eff.mkWorld O O [].

(** A continuation that always throws [new Error('boom')]. *)
Definition next_boom : NextFunction unit :=
  fun env => (Rejected (ThrownError (new_Error "boom")), env).

Definition dispatch_start : Eff.World (HttpContext * unit) :=
  Eff.mkWorld (createHttpContext get_test, tt) O [].

Definition opened : OpenResponse := mkOpenResponse 200 "OK" None.
Definition server_error : OpenResponse :=
  mkOpenResponse 500 "Internal Server Error" None.
Definition gateway_timeout : OpenResponse :=
  mkOpenResponse 504 "Gateway Timeout" None.

(** The source opens, the consumer pulls early, [a] and [b] arrive, the
    consumer pulls again, the source closes, and a last pull follows. *)
Definition a_b_close : list EventSource.Action :=
  [ EventSource.Source (OnOpen opened);
    EventSource.Pull;
    EventSource.Source (OnMessage "a" "message" "1");
    EventSource.Source (OnMessage "b" "message" "2");
    EventSource.Pull;
    EventSource.Source OnClose;
    EventSource.Source (Settles None);
    EventSource.Pull ].

(** The source opens, then fails with the rejection value [undefined]
    (what a user callback rejecting without a reason produces); the
    consumer pulls afterwards. *)
Definition fails_with_undefined : list EventSource.Action :=
  [ EventSource.Source (OnOpen opened);
    EventSource.Source (OnError ThrownUndefined);
    EventSource.Source (Settles (Some ThrownUndefined));
    EventSource.Pull ].

End Fixtures.

(** ** Reading a trace *)

Module Trace.

(** The value [calculateDelay] returns when [Math.random()] yields [r]
    (which only the exponential policy asks for). *)
Definition delay_value (attempt : Z) (bo : Backoff) (base max r : Q) : Q :=
  match bo with
  | exponential =>
      Qmin (base * (2 # 1) ^ attempt + base * (2 # 1) ^ attempt * r * (25 # 100)) max
  | linear => Qmin (base * inject_Z (attempt + 1)) max
  end.

(** The delays slept, in order. *)
Definition sleeps (tr : list Event) : list Q :=
  List.flat_map (fun ev => match ev with EvSleep ms => [ms] | _ => [] end) tr.

(** The calls of the [onRetry] observer, in order. *)
Definition observed (tr : list Event) : list (Thrown * Z) :=
  List.flat_map
    (fun ev => match ev with EvOnRetry e n => [(e, n)] | _ => [] end) tr.

(** The world after a failed attempt that is retried: the delay has been
    computed (one draw under the exponential policy), the observer called
    and the delay slept.  [w1] is the world right after the failed call. *)
Definition paused {S : Type} (Math_random : nat -> Q) (options : Retry.Options)
    (attempt : Z) (error : Thrown) (w1 : Eff.World S) : Eff.World S :=
  Eff.mkWorld (Eff.w_env w1)
    (match Retry.backoff options with
     | exponential => Datatypes.S (Eff.w_draws w1)
     | linear => Eff.w_draws w1
     end)
    (Eff.w_trace w1
     ++ (if Retry.onRetry options then [EvOnRetry error (attempt + 1)] else [])
     ++ [EvSleep (delay_value attempt (Retry.backoff options) (Retry.baseDelay options)
                    (Retry.maxDelay options) (Math_random (Eff.w_draws w1)))]).

End Trace.

(** ** More concrete inputs *)

Module Samples.

(** [{ maxRetries: 3, backoff: 'linear', baseDelay: 100, onRetry }]. *)
Definition linear_100 : Retry.Options :=
  Retry.mkOptions 3 linear 100 30000 Retry.DEFAULT_RETRYABLE_STATUS_CODES None true.

(** Always fails with 503. *)
Definition always_503 :=
  Fixtures.scripted [] (Rejected (Fixtures.http_error 503 "Service Unavailable")).

(** Always fails with an aborted-kind error. *)
Definition always_aborted :=
  Fixtures.scripted []
    (Rejected (ThrownRequestError (AbortError "Request aborted by user"
                                     (Some Fixtures.get_test)))).

(** A continuation that resolves but leaves an error in [ctx.error]. *)
Definition next_leaves_error : NextFunction unit :=
  fun env =>
    (Resolved tt,
     (mkHttpContext (ctx_request (fst env)) (ctx_response (fst env))
        (Some (ThrownError (new_Error "stored"))) (ctx_state (fst env)), snd env)).

End Samples.

(** ** The remaining methods of [HttpError] ([errors.ts]) *)

(** [HttpError.prototype.isClientError]. *)
Definition isClientError (e : RequestError) : bool :=
  match status e with
  | Some s => (400 <=? s) && (s <? 500)
  | None => false
  end.

(** [HttpError.prototype.isServerError]. *)
Definition isServerError (e : RequestError) : bool :=
  match status e with
  | Some s => 500 <=? s
  | None => false
  end.

(** ** [buildUrl] ([fetch.ts] and [eventSource.ts] hold the same function) *)

Module Url.

(** [s.replace(/\/$/, '')]: one slash at the very end is removed. *)
Fixpoint strip_trailing_slash (s : string) : string :=
  match s with
  | EmptyString => EmptyString
  | String c EmptyString => if Ascii.eqb c "/" then EmptyString else s
  | String c rest => String c (strip_trailing_slash rest)
  end.

(** The last character of a string, if any. *)
Fixpoint last (s : string) : option ascii :=
  match s with
  | EmptyString => None
  | String c EmptyString => Some c
  | String _ rest => last rest
  end.

(** [s.replace(/^\//, '')]: one slash at the very start is removed. *)
Definition strip_leading_slash (s : string) : string :=
  match s with
  | String c rest => if Ascii.eqb c "/" then rest else s
  | EmptyString => EmptyString
  end.

(** [url.startsWith('http://') || url.startsWith('https://')]. *)
Definition absolute (url : string) : bool :=
  String.prefix "http://" url || String.prefix "https://" url.

(** Truthiness of an optional string: [undefined] and [''] are falsy. *)
Definition truthy_string (s : option string) : bool :=
  match s with
  | Some v => negb (String.eqb v "")
  | None => false
  end.

(** [requestConfig.baseURL || baseURL], the second argument of the callers. *)
Definition effective_base (requestBase adapterBase : option string) : option string :=
  if truthy_string requestBase then requestBase else adapterBase.

(** [config.params]: the entries in insertion order; a value is [None] when
    it is [undefined] or [null], and [String(value)] otherwise. *)
Definition Params : Type := list (string * option string).

(** The entries that [searchParams.append] receives. *)
Definition appended (params : Params) : list (string * string) :=
  List.flat_map (fun kv => match snd kv with
                           | Some v => [(fst kv, v)]
                           | None => []
                           end) params.

Section WithSerializer.
(** [URLSearchParams.prototype.toString] of the platform. *)
Variable serialize : list (string * string) -> string.

(** [buildUrl(config, baseURL)], on the [url] and [params] of [config]. *)
Definition buildUrl (url : string) (params : option Params) (baseURL : option string)
    : string :=
  let url :=
    if truthy_string baseURL && negb (String.prefix "http://" url)
       && negb (String.prefix "https://" url)
    then match baseURL with
         | Some base =>
             (strip_trailing_slash base ++ "/" ++ strip_leading_slash url)%string
         | None => url
         end
    else url in
  match params with
  | Some (entry :: more) =>
      let queryString := serialize (appended (entry :: more)) in
      if negb (String.eqb queryString "")
      then (url ++ (if Js.includes url "?" then "&" else "?") ++ queryString)%string
      else url
  | Some [] | None => url
  end.

End WithSerializer.
End Url.

(** ** Well-formed queues *)

(** What holds of every queue reached from [createAsyncQueue()]: the two
    resolver slots go together; no promise is settled twice and only
    promises that were handed out are settled; a pull is suspended only on
    an open, empty queue that has not failed, and its promise is not settled
    yet; [done] has resolved exactly when a terminal call took effect. *)
Definition queue_wf {T : Type} (q : AsyncQueue.Queue T) : Prop :=
  let ids := List.map fst (AsyncQueue.settlements q) in
  AsyncQueue.resolveNext q = AsyncQueue.rejectNext q
  /\ List.NoDup ids
  /\ (forall id, In id ids -> (id < AsyncQueue.issued q)%nat)
  /\ (forall p, AsyncQueue.resolveNext q = Some p ->
        (p < AsyncQueue.issued q)%nat /\ ~ In p ids
        /\ AsyncQueue.isClosed q = false /\ AsyncQueue.failed q = false
        /\ AsyncQueue.values q = [])
  /\ AsyncQueue.done q
     = AsyncQueue.isClosed q
       || match AsyncQueue.failure q with Some _ => true | None => false end
  /\ AsyncQueue.doneResolve q = negb (AsyncQueue.done q).

(** [close()] or [fail(err)]. *)
Definition is_terminal {T : Type} (op : AsyncQueue.Op T) : bool :=
  AsyncQueue.is_Close op || AsyncQueue.is_Fail op.

(** The part of the state that decides whether promise [p] can still be
    settled: it is not settled, no resolver slot holds it, and it has been
    handed out. *)
Definition orphan {T : Type} (p : nat) (q : AsyncQueue.Queue T) : Prop :=
  ~ In p (List.map fst (AsyncQueue.settlements q))
  /\ AsyncQueue.resolveNext q <> Some p
  /\ AsyncQueue.rejectNext q <> Some p
  /\ (p < AsyncQueue.issued q)%nat.

(** ** What settles the promise of an event-source request *)

(** The settlement an event of the source asks for: [onopen] resolves the
    promise, or rejects it when the response is not [ok]; a rejection of the
    source's own promise rejects it; nothing else touches it. *)
Definition settlement_of (requestConfig : RequestConfig) (ev : SourceEvent)
    : option (Settled ResponseData) :=
  match ev with
  | OnOpen r =>
      Some (if ok r
            then Resolved (mkResponseData SessionPayload (resp_status r)
                             (resp_statusText r) requestConfig)
            else Rejected (ThrownError (EventSource.open_error r)))
  | Settles (Some err) => Some (Rejected err)
  | _ => None
  end.

Fixpoint first_settlement (requestConfig : RequestConfig) (evs : list SourceEvent)
    : option (Settled ResponseData) :=
  match evs with
  | [] => None
  | ev :: rest =>
      match settlement_of requestConfig ev with
      | Some r => Some r
      | None => first_settlement requestConfig rest
      end
  end.

(** [value !== undefined && value !== null] on an entry of [config.params]. *)
Definition has_value (kv : string * option string) : bool :=
  match snd kv with Some _ => true | None => false end.

(** ** The response cache ([cacheMiddleware.ts]) *)

Module CacheMiddleware.
Section Middleware.
Context {D : Type}.

(** [JSON.stringify(params || {})] of the request. *)
Variable stringify_params : RequestConfig -> string.
Variable next : NextFunction D.

(** The module-level [cacheStore] (a [Map] from key to response), and next
    to it what every middleware runs against.  The store is private to the
    module: the rest of the chain cannot reach it. *)
Definition Env : Type := gmap string ResponseData * (HttpContext * D).

Definition cacheStore (env : Env) : gmap string ResponseData := fst env.
Definition ctx (env : Env) : HttpContext := fst (snd env).

(** [url + JSON.stringify(params || {})]. *)
Definition key_of (request : RequestConfig) : string :=
  (url request ++ stringify_params request)%string.

(** [ctx.response = r]. *)
Definition set_response (r : ResponseData) (c : HttpContext) : HttpContext :=
  mkHttpContext (ctx_request c) (Some r) (ctx_error c) (ctx_state c).

(** [cacheStore.set(key, r)]. *)
Definition cache_set (key : string) (r : ResponseData) (env : Env) : Env :=
  (<[key := r]> (fst env), snd env).

(** [await next()], for a continuation that runs on the context and the
    rest of the chain and leaves the store alone; [SharedCache] below has
    the continuation during which the store changes. *)
Definition call_next : Eff.M Env unit :=
  Eff.emit EvNext ;;;
  Eff.lift (fun env : Env => let (r, rest) := next (snd env) in (r, (fst env, rest))).

(** [method], [url] and [params] are read once, on entry. *)
Definition cacheMiddleware : Eff.M Env unit :=
  env <- Eff.get ;;
  let request := ctx_request (ctx env) in
  if HttpMethod_eqb (method request) GET then
    let key := key_of request in
    match cacheStore env !! key with
    | Some cached =>
        Eff.modify (fun env : Env => (fst env, on_ctx (set_response cached) (snd env)))
    | None =>
        call_next ;;;
        env' <- Eff.get ;;
        match ctx_response (ctx env') with
        | Some response => Eff.modify (cache_set key response)
        | None => Eff.ret tt
        end
    end
  else call_next.

End Middleware.
End CacheMiddleware.

(** *** Requests that overlap *)

(** [cacheStore] is one [Map] for the whole module.  While a run of the
    middleware awaits [next()], other requests that go through the same
    middleware read and write the same store, so what the run finds after
    the [await] need not be the store it looked up on entry.  Here the
    continuation runs on the store as well. *)
Module SharedCache.
Section Middleware.
Context {D : Type}.
Variable stringify_params : RequestConfig -> string.
Variable next : @CacheMiddleware.Env D -> Settled unit * @CacheMiddleware.Env D.

(** [await next()]. *)
Definition call_next : Eff.M (@CacheMiddleware.Env D) unit :=
  Eff.emit EvNext ;;; Eff.lift next.

Definition cacheMiddleware : Eff.M (@CacheMiddleware.Env D) unit :=
  env <- Eff.get ;;
  let request := ctx_request (CacheMiddleware.ctx env) in
  if HttpMethod_eqb (method request) GET then
    let key := CacheMiddleware.key_of stringify_params request in
    match CacheMiddleware.cacheStore env !! key with
    | Some cached =>
        Eff.modify (fun env : @CacheMiddleware.Env D =>
                      (fst env, on_ctx (CacheMiddleware.set_response cached) (snd env)))
    | None =>
        call_next ;;;
        env' <- Eff.get ;;
        match ctx_response (CacheMiddleware.ctx env') with
        | Some response => Eff.modify (CacheMiddleware.cache_set key response)
        | None => Eff.ret tt
        end
    end
  else call_next.

End Middleware.

(** A continuation that leaves the store alone. *)
Definition isolated {D : Type} (next : NextFunction D)
    : @CacheMiddleware.Env D -> Settled unit * @CacheMiddleware.Env D :=
  fun env => let (r, rest) := next (snd env) in (r, (fst env, rest)).

End SharedCache.

(** ** The fetch transport ([adapters/fetch.ts]) *)

Module Fetch.

(** What [fetchFn] resolves with, as far as the adapter looks at it;
    [fr_body] is how [parseResponseBody(response, responseType)] settles. *)
Record Response := mkResponse {
  fr_ok : bool;
  fr_status : Z;
  fr_statusText : string;
  fr_body : Settled Payload
}.

(** [signal.aborted] at the two moments the adapter reads it: before the
    call, and in the catch block. *)
Record Signal := mkSignal {
  aborted_on_entry : bool;
  aborted_on_failure : bool
}.

Record Interceptors := mkInterceptors {
  on_request : option (RequestConfig -> Settled RequestConfig);
  on_response : option (ResponseData -> Settled ResponseData)
}.

(** [processedConfig.timeout && processedConfig.timeout > 0]. *)
Definition has_timeout (cfg : RequestConfig) : bool :=
  truthy_number (timeout cfg)
  && match timeout cfg with Some t => 0 <? t | None => false end.

(** [parseErr instanceof Error ? parseErr : undefined], as the [cause] of a
    typed error; a typed error is kept as the error object it is. *)
Definition as_Error (t : Thrown) : option RawError :=
  match t with
  | ThrownError e => Some e
  | ThrownRequestError e => Some (mkRawError ClsError (name e) (message e) (status e) None)
  | _ => None
  end.

Section Adapter.
Variable interceptors : Interceptors.
(** [fetchFn(url, fetchConfig)]; both arguments are built from the processed
    configuration. *)
Variable fetchFn : RequestConfig -> Settled Response.
(** [processedConfig.signal]. *)
Variable userSignal : option Signal.
(** [error instanceof HttpError || error instanceof ParseError]. *)
Variable instanceof_HttpError_or_ParseError : RequestError -> bool.

(** The [try] block. *)
Definition attempt (processedConfig : RequestConfig) : Settled ResponseData :=
  match fetchFn processedConfig with
  | Rejected reason => Rejected reason
  | Resolved response =>
      if negb (fr_ok response) then
        Rejected (ThrownRequestError
          (HttpError ("HTTP Error: " ++ show_Z (fr_status response) ++ " "
                      ++ fr_statusText response)%string
             (fr_status response) (fr_statusText response) (Some processedConfig) None))
      else
        match fr_body response with
        | Rejected parseErr =>
            Rejected (ThrownRequestError
              (ParseError "Failed to parse response body" (Some processedConfig)
                 (as_Error parseErr)))
        | Resolved data =>
            let result := mkResponseData data (fr_status response)
                            (fr_statusText response) processedConfig in
            match on_response interceptors with
            | Some f => f result
            | None => Resolved result
            end
        end
  end.

(** The [catch] block: what is thrown for [error]. *)
Definition classify (processedConfig : RequestConfig) (error : Thrown) : RequestError :=
  match error with
  | ThrownRequestError e =>
      if instanceof_HttpError_or_ParseError e then e
      else normalizeError error (Some processedConfig)
  | ThrownError e =>
      if match raw_cls e with
         | ClsDOMException => String.eqb (raw_name e) "AbortError"
         | _ => false
         end
      then
        if match userSignal with Some s => aborted_on_failure s | None => false end
        then AbortError "Request aborted by user" (Some processedConfig)
        else if has_timeout processedConfig
        then match timeout processedConfig with
             | Some t =>
                 TimeoutError ("Request timeout after " ++ show_Z t ++ "ms")%string t
                   (Some processedConfig)
             | None => AbortError "Request aborted" (Some processedConfig)
             end
        else AbortError "Request aborted" (Some processedConfig)
      else if match raw_cls e with ClsTypeError => true | _ => false end
      then NetworkError (if String.eqb (raw_message e) "" then "Network error"
                         else raw_message e)
             (Some processedConfig) (Some e)
      else normalizeError error (Some processedConfig)
  | _ => normalizeError error (Some processedConfig)
  end.

(** [request(requestConfig)], for a configuration from which the URL, the
    headers and the body are built without an exception; [FetchAdapter]
    below has the general case. *)
Definition request (requestConfig : RequestConfig) : Settled ResponseData :=
  match match on_request interceptors with
        | Some f => f requestConfig
        | None => Resolved requestConfig
        end with
  | Rejected reason => Rejected reason
  | Resolved processedConfig =>
      if match userSignal with Some s => aborted_on_entry s | None => false end
      then Rejected (ThrownRequestError
                       (AbortError "Request aborted by user" (Some processedConfig)))
      else
        match attempt processedConfig with
        | Resolved result => Resolved result
        | Rejected error => Rejected (ThrownRequestError (classify processedConfig error))
        end
  end.

End Adapter.
End Fetch.

(** *** Building the call *)

(** Between the request interceptor and the [try] block, [request] builds
    the URL ([buildUrl]), the headers and the body.  This code is not
    guarded: an exception in it, such as the [TypeError] that
    [JSON.stringify(data)] throws on a cyclic object or a [BigInt], rejects
    [request] as it is. *)
Module FetchAdapter.
Section Adapter.
Variable interceptors : Fetch.Interceptors.
(** What building the call throws, if it throws. *)
Variable prepare : RequestConfig -> option Thrown.
Variable fetchFn : RequestConfig -> Settled Fetch.Response.
Variable userSignal : option Fetch.Signal.
Variable instanceof_HttpError_or_ParseError : RequestError -> bool.

(** [request(requestConfig)]. *)
Definition request (requestConfig : RequestConfig) : Settled ResponseData :=
  match match Fetch.on_request interceptors with
        | Some f => f requestConfig
        | None => Resolved requestConfig
        end with
  | Rejected reason => Rejected reason
  | Resolved processedConfig =>
      match prepare processedConfig with
      | Some thrown => Rejected thrown
      | None =>
          if match userSignal with Some s => Fetch.aborted_on_entry s | None => false end
          then Rejected (ThrownRequestError
                           (AbortError "Request aborted by user" (Some processedConfig)))
          else
            match Fetch.attempt interceptors fetchFn processedConfig with
            | Resolved result => Resolved result
            | Rejected error =>
                Rejected (ThrownRequestError
                            (Fetch.classify userSignal instanceof_HttpError_or_ParseError
                               processedConfig error))
            end
      end
  end.

End Adapter.
End FetchAdapter.

(** ** The order of the events of a retried request *)

(** The rounds after the first call: per retry, the observer (if one is
    set) with the number of the retry, then the sleep, then the next call. *)
Fixpoint retry_rounds (observer : bool) (k : Z) (tr : list Event) : bool :=
  match tr with
  | [] => true
  | EvOnRetry _ n :: EvSleep _ :: EvCall _ :: rest =>
      observer && (n =? k) && retry_rounds observer (k + 1) rest
  | EvSleep _ :: EvCall _ :: rest =>
      negb observer && retry_rounds observer (k + 1) rest
  | _ => false
  end.

(** What one request may add to the trace: nothing, or a call followed by
    rounds numbered from 1. *)
Definition request_shape (observer : bool) (tr : list Event) : bool :=
  match tr with
  | [] => true
  | EvCall _ :: rest => retry_rounds observer 1 rest
  | _ => false
  end.

(** Every pull handed out from number [n0] on is settled, or is the one
    whose resolvers the queue holds. *)
Definition answered_from {T : Type} (n0 : nat) (q : AsyncQueue.Queue T) : Prop :=
  forall id, (n0 <= id < AsyncQueue.issued q)%nat ->
    In id (List.map fst (AsyncQueue.settlements q))
    \/ AsyncQueue.resolveNext q = Some id.

(** * Properties *)

(** ** Substring search *)

Lemma prefix_append (sub s : string) :
  String.prefix sub s = true <-> exists post, s = (sub ++ post)%string.
Proof.
  revert s. induction sub as [| c sub IH]; intros s; cbn.
  - split; [intros _; exists s; reflexivity | intros _; destruct s; reflexivity].
  - destruct s as [| c' s]; cbn.
    + split; [discriminate | intros [post H]; discriminate].
    + destruct (Ascii.ascii_dec c c') as [-> | Hne].
      * rewrite IH. split; intros [post H]; exists post; [now rewrite H | now inversion H].
      * split; [discriminate | intros [post H]; inversion H; congruence].
Qed.

Lemma includes_unfold (s sub : string) :
  Js.includes s sub
  = String.prefix sub s
    || match s with EmptyString => false | String _ rest => Js.includes rest sub end.
Proof.
  destruct s as [| c rest]; cbn [Js.includes].
  - destruct (String.prefix sub ""); reflexivity.
  - destruct (String.prefix sub (String c rest)); reflexivity.
Qed.

(** [Js.includes] is substring containment. *)
Lemma includes_spec (s sub : string) :
  Js.includes s sub = true <-> exists pre post, s = (pre ++ sub ++ post)%string.
Proof.
  induction s as [| c s IH]; rewrite includes_unfold, orb_true_iff, prefix_append.
  - split.
    + intros [[post H] | H]; [exists "", post; exact H | discriminate].
    + intros (pre & post & H). left. destruct pre; [eauto | discriminate].
  - rewrite IH. split.
    + intros [[post H] | (pre & post & H)].
      * exists "", post. exact H.
      * exists (String c pre), post. cbn. now rewrite H.
    + intros (pre & post & H). destruct pre as [| c' pre]; cbn in H.
      * left. eauto.
      * right. inversion H; subst. eauto.
Qed.

(** ** Error normalisation *)

Lemma normalizeError_typed (e : RequestError) (cfg : option RequestConfig) :
  normalizeError (ThrownRequestError e) cfg = e.
Proof. reflexivity. Qed.

Lemma normalizeError_raw_kind (e : RawError) (cfg : option RequestConfig) :
  type (normalizeError (ThrownError e) cfg) = Taxonomy.first_match Taxonomy.rules e.
Proof.
  unfold normalizeError, Taxonomy.first_match, Taxonomy.rules; cbn [List.find fst snd].
  unfold Taxonomy.abort_signal_exception, Taxonomy.fetch_type_error,
    Taxonomy.timeout_keyword, Taxonomy.abort_keyword, Taxonomy.network_keyword.
  destruct (raw_cls e); cbn [andb];
    repeat match goal with
           | |- context [if ?b then _ else _] => destruct b eqn:?; cbn [type orb andb]
           end; try reflexivity; try discriminate.
Qed.

(** A raw error object is never normalised to the HTTP kind. *)
Lemma normalizeError_raw_not_http (e : RawError) (cfg : option RequestConfig) :
  type (normalizeError (ThrownError e) cfg) <> HTTP.
Proof.
  rewrite normalizeError_raw_kind.
  unfold Taxonomy.first_match, Taxonomy.rules; cbn [List.find fst snd].
  repeat match goal with
         | |- context [if ?b then _ else _] => destruct b; cbn [snd]
         end; discriminate.
Qed.

(** C4 (as amended): [normalizeError] is a function into the taxonomy whose
    kind is decided by the first matching rule of: already typed (kept as
    is), abort-signal exception, type error mentioning fetch or network,
    timeout keyword, abort name or keyword, network keyword, and unknown
    otherwise.  In particular an error object that is neither an
    abort-signal exception nor such a type error, and whose message holds
    both a timeout and a network keyword, gets the timeout kind. *)
Theorem normalizeError_priority (error : Thrown) (cfg : option RequestConfig) :
  type (normalizeError error cfg) = Taxonomy.kind_of Taxonomy.rules error
  /\ (forall e : RawError,
        error = ThrownError e ->
        Taxonomy.abort_signal_exception e = false ->
        Taxonomy.fetch_type_error e = false ->
        Taxonomy.timeout_keyword e = true ->
        Taxonomy.network_keyword e = true ->
        type (normalizeError error cfg) = TIMEOUT).
Proof.
  split.
  - destruct error as [e | e | s | | ]; try reflexivity.
    apply normalizeError_raw_kind.
  - intros e -> Habort Hfetch Htimeout _.
    rewrite normalizeError_raw_kind.
    unfold Taxonomy.first_match, Taxonomy.rules; cbn [List.find fst snd].
    now rewrite Habort, Hfetch, Htimeout.
Qed.

Lemma normalizeError_priority_witness :
  let e := new_Error "Network request timeout" in
  Taxonomy.network_keyword e = true
  /\ type (normalizeError (ThrownError e) None) = TIMEOUT.
Proof.
  split; [reflexivity |].
  apply (proj2 (normalizeError_priority (ThrownError (new_Error "Network request timeout")) None)
               (new_Error "Network request timeout"));
    reflexivity.
Defined.

(** C4 fails as stated: a type error whose message holds both a network and
    a timeout keyword is a network error, although the stated order puts the
    timeout keyword first. *)
Lemma normalizeError_type_error_counterexample :
  let e := new_TypeError "network timeout" in
  Taxonomy.timeout_keyword e = true
  /\ Taxonomy.network_keyword e = true
  /\ Taxonomy.kind_of Taxonomy.stated_rules (ThrownError e) = TIMEOUT
  /\ type (normalizeError (ThrownError e) None) = NETWORK
  /\ type (normalizeError (ThrownError e) None) <> TIMEOUT.
Proof. repeat split; try reflexivity; discriminate. Qed.

(** ** Backoff delays *)

(** C6: under exponential backoff the delay is [baseDelay * 2^attempt] plus a
    jitter between 0 and 25% of that value, clamped by [maxDelay], so it never
    exceeds [maxDelay] and, the ceiling not being negative, never exceeds
    [maxDelay * 1.25]; under linear backoff it is
    [min (baseDelay * (attempt + 1)) maxDelay], without jitter (the random
    source is not consulted), and never exceeds [maxDelay].
    [Math.random()] returns values in [0, 1). *)
Theorem calculateDelay_bounds {S : Type} (Math_random : nat -> Q)
    (attempt : Z) (base max : Q) (w : Eff.World S) :
  (forall n, 0 <= Math_random n /\ Math_random n < 1)%Q ->
  (exists d jitter : Q,
      fst (Retry.calculateDelay Math_random attempt exponential base max w) = Resolved d
      /\ (jitter == base * (2 # 1) ^ attempt * Math_random (Eff.w_draws w) * (25 # 100))%Q
      /\ (exists fraction : Q, 0 <= fraction /\ fraction <= 25 # 100
            /\ jitter == base * (2 # 1) ^ attempt * fraction)%Q
      /\ (d == Qmin (base * (2 # 1) ^ attempt + jitter) max)%Q
      /\ (d <= max)%Q
      /\ (0 <= max -> d <= max * (125 # 100))%Q)
  /\ (exists d : Q,
      fst (Retry.calculateDelay Math_random attempt linear base max w) = Resolved d
      /\ (d == Qmin (base * inject_Z (attempt + 1)) max)%Q
      /\ (d <= max)%Q
      /\ Eff.w_draws (snd (Retry.calculateDelay Math_random attempt linear base max w))
         = Eff.w_draws w).
Proof.
  intros Hrandom. split.
  - exists (Qmin (base * (2 # 1) ^ attempt
                  + base * (2 # 1) ^ attempt * Math_random (Eff.w_draws w) * (25 # 100)) max)%Q.
    exists (base * (2 # 1) ^ attempt * Math_random (Eff.w_draws w) * (25 # 100))%Q.
    destruct (Hrandom (Eff.w_draws w)) as [Hlo Hhi].
    split; [reflexivity |]. split; [reflexivity |]. split; [| split; [reflexivity |]].
    + exists (Math_random (Eff.w_draws w) * (25 # 100))%Q.
      repeat split; lra.
    + split; [apply Q.le_min_r |].
      intros Hmax. apply Qle_trans with max; [apply Q.le_min_r | lra].
  - exists (Qmin (base * inject_Z (attempt + 1)) max).
    repeat split; try reflexivity. apply Q.le_min_r.
Qed.

Lemma calculateDelay_bounds_witness :
  exists d : Q,
    fst (Retry.calculateDelay (fun _ => 1 # 2) 3 exponential 1000 2000
           (Eff.mkWorld tt O [])) = Resolved d
    /\ (d <= 2000 * (125 # 100))%Q.
Proof.
  destruct (calculateDelay_bounds (fun _ => 1 # 2) 3 1000 2000 (Eff.mkWorld tt O []))
    as [[d [jitter [Hd [_ [_ [_ [_ Hle]]]]]]] _].
  - intros _. split; [discriminate | reflexivity].
  - exists d. split; [exact Hd | apply Hle; discriminate].
Defined.

(** ** The retry decorator *)

Lemma calls_snoc {S : Type} (s : S) (d : nat) (tr : list Event) (ev : Event) :
  Retry.calls (Eff.mkWorld s d (tr ++ [ev]))
  = (List.length (List.filter is_call tr) + if is_call ev then 1 else 0)%nat.
Proof.
  unfold Retry.calls; cbn [Eff.w_trace].
  rewrite List.filter_app, List.length_app. cbn [List.filter].
  destruct (is_call ev); reflexivity.
Qed.

(** An HTTP-kind error with a non-zero status is retried exactly when its
    status is in the configured set. *)
Lemma checkShouldRetry_http (err : RequestError) (st attempt : Z) (codes : list Z) :
  type err = HTTP -> status err = Some st -> st <> 0 ->
  Retry.checkShouldRetry (ThrownRequestError err) attempt codes None
  = Js.array_includes codes st.
Proof.
  intros Hty Hst Hnz. unfold Retry.checkShouldRetry, isAbortedError, isHttpError.
  rewrite Hty, Hst. cbn.
  destruct (st =? 0) eqn:E; [apply Z.eqb_eq in E; contradiction | reflexivity].
Qed.

Lemma array_includes_In (codes : list Z) (n : Z) :
  In n codes -> Js.array_includes codes n = true.
Proof.
  intros Hin. unfold Js.array_includes. apply List.existsb_exists.
  exists n. split; [exact Hin | apply Z.eqb_refl].
Qed.

Section RetrySteps.
Context {S : Type}.
Variable Math_random : nat -> Q.
Variable adapter_request : RequestConfig -> S -> Settled ResponseData * S.
Variable options : Retry.Options.

Let attempts := Retry.attempts Math_random adapter_request options.

(** The attempt succeeds: the loop returns its response at once. *)
Lemma attempts_success (n : nat) (attempt : Z) (lastError : Thrown)
    (cfg : RequestConfig) (w : Eff.World S) (r : ResponseData) (s' : S) :
  attempt <= Retry.maxRetries options ->
  adapter_request cfg (Eff.w_env w) = (Resolved r, s') ->
  attempts (Datatypes.S n) attempt lastError cfg w
  = (Resolved r, Eff.mkWorld s' (Eff.w_draws w) (Eff.w_trace w ++ [EvCall cfg])).
Proof.
  intros Htest Hcall. unfold attempts; cbn [Retry.attempts].
  apply Z.leb_le in Htest. rewrite Htest.
  unfold Eff.try_catch, Retry.call_adapter, Eff.bind, Eff.emit, Eff.lift.
  cbn. now rewrite Hcall.
Qed.

(** The attempt fails on the last allowed attempt or with an error that is
    not to be retried: the error is rethrown, nothing else happens. *)
Lemma attempts_rethrow (n : nat) (attempt : Z) (lastError error : Thrown)
    (cfg : RequestConfig) (w : Eff.World S) (s' : S) :
  attempt <= Retry.maxRetries options ->
  adapter_request cfg (Eff.w_env w) = (Rejected error, s') ->
  attempt = Retry.maxRetries options
  \/ Retry.checkShouldRetry error attempt (Retry.retryableStatusCodes options)
       (Retry.shouldRetry options) = false ->
  attempts (Datatypes.S n) attempt lastError cfg w
  = (Rejected error, Eff.mkWorld s' (Eff.w_draws w) (Eff.w_trace w ++ [EvCall cfg])).
Proof.
  intros Htest Hcall Hstop. unfold attempts; cbn [Retry.attempts].
  apply Z.leb_le in Htest. rewrite Htest.
  unfold Eff.try_catch, Retry.call_adapter, Eff.bind, Eff.emit, Eff.lift.
  cbn. rewrite Hcall.
  destruct (attempt =? Retry.maxRetries options) eqn:Elast; [reflexivity |].
  destruct Hstop as [-> | ->]; [rewrite Z.eqb_refl in Elast; discriminate | reflexivity].
Qed.

(** The attempt fails with an error to be retried and attempts are left:
    after the delay the loop goes on with the next attempt, one more call
    having been made. *)
Lemma attempts_retry (n : nat) (attempt : Z) (lastError error : Thrown)
    (cfg : RequestConfig) (w : Eff.World S) (s' : S) :
  attempt < Retry.maxRetries options ->
  adapter_request cfg (Eff.w_env w) = (Rejected error, s') ->
  Retry.checkShouldRetry error attempt (Retry.retryableStatusCodes options)
    (Retry.shouldRetry options) = true ->
  exists w' : Eff.World S,
    attempts (Datatypes.S n) attempt lastError cfg w
    = attempts n (attempt + 1) error cfg w'
    /\ Eff.w_env w' = s'
    /\ Retry.calls w' = (Retry.calls w + 1)%nat.
Proof.
  intros Hmore Hcall Hretry. unfold attempts; cbn [Retry.attempts].
  replace (attempt <=? Retry.maxRetries options) with true
    by (symmetry; apply Z.leb_le; lia).
  unfold Eff.try_catch, Retry.call_adapter, Eff.bind, Eff.emit, Eff.lift.
  cbn. rewrite Hcall.
  replace (attempt =? Retry.maxRetries options) with false
    by (symmetry; apply Z.eqb_neq; lia).
  rewrite Hretry. cbn [negb].
  unfold Retry.calculateDelay, Retry.sleep, Eff.when, Eff.emit, Eff.random, Eff.ret.
  destruct w as [s d tr]; cbn [Eff.w_env Eff.w_draws Eff.w_trace].
  destruct (Retry.backoff options), (Retry.onRetry options); cbn;
    eexists; (split; [reflexivity |]); (split; [reflexivity |]);
    unfold Retry.calls; cbn [Eff.w_trace];
    rewrite !List.filter_app, !List.length_app; cbn; lia.
Qed.

(** The loop makes at most [maxRetries + 1 - attempt] passes: fuel beyond
    that is never used. *)
Lemma attempts_fuel (fuel : nat) (attempt : Z) (lastError : Thrown)
    (cfg : RequestConfig) (w : Eff.World S) :
  (Z.to_nat (Retry.maxRetries options + 1 - attempt) <= fuel)%nat ->
  attempts (Datatypes.S fuel) attempt lastError cfg w
  = attempts fuel attempt lastError cfg w.
Proof.
  revert attempt lastError w.
  induction fuel as [| fuel IH]; intros attempt lastError w Hfuel.
  - unfold attempts; cbn [Retry.attempts].
    replace (attempt <=? Retry.maxRetries options) with false
      by (symmetry; apply Z.leb_gt; lia).
    reflexivity.
  - unfold attempts in *. cbn [Retry.attempts].
    destruct (attempt <=? Retry.maxRetries options) eqn:Etest; [| reflexivity].
    apply Z.leb_le in Etest.
    unfold Eff.try_catch. destruct (Retry.call_adapter adapter_request cfg w) as [[r | e] w1];
      [reflexivity |].
    destruct (attempt =? Retry.maxRetries options); [reflexivity |].
    destruct (negb _); [reflexivity |].
    unfold Eff.bind. destruct (Retry.calculateDelay _ _ _ _ _ w1) as [[delay | e1] w2];
      [| reflexivity].
    destruct (Eff.when _ _ w2) as [[[] | e2] w3]; [| reflexivity].
    destruct (Retry.sleep delay w3) as [[[] | e3] w4]; [| reflexivity].
    apply IH. lia.
Qed.

(** [request] hands the loop all the fuel it can use: with more, the
    outcome is the same. *)
Lemma request_fuel_enough (extra : nat) (cfg : RequestConfig) (w : Eff.World S) :
  attempts (Z.to_nat (Retry.maxRetries options + 1) + extra) 0 ThrownUndefined cfg w
  = Retry.request Math_random adapter_request options cfg w.
Proof.
  unfold Retry.request. fold attempts.
  induction extra as [| extra IH]; [now rewrite Nat.add_0_r |].
  rewrite Nat.add_succ_r, attempts_fuel by lia. exact IH.
Qed.

End RetrySteps.

(** C1 (as amended): if the wrapped transport fails on its first two calls
    with HTTP errors of the 500 class whose status is in the retryable-status
    set, and succeeds on the third, the adapter built with [maxRetries = 3]
    and no custom predicate calls the transport exactly three times and
    resolves with the response of the third call. *)
Theorem retry_adapter_recovers {S : Type} (Math_random : nat -> Q)
    (adapter_request : RequestConfig -> S -> Settled ResponseData * S)
    (options : Retry.Options) (cfg : RequestConfig) (w : Eff.World S)
    (err1 err2 : RequestError) (st1 st2 : Z) (s1 s2 s3 : S) (r : ResponseData) :
  Retry.maxRetries options = 3 ->
  Retry.shouldRetry options = None ->
  type err1 = HTTP -> status err1 = Some st1 -> 500 <= st1 <= 599 ->
  In st1 (Retry.retryableStatusCodes options) ->
  type err2 = HTTP -> status err2 = Some st2 -> 500 <= st2 <= 599 ->
  In st2 (Retry.retryableStatusCodes options) ->
  adapter_request cfg (Eff.w_env w) = (Rejected (ThrownRequestError err1), s1) ->
  adapter_request cfg s1 = (Rejected (ThrownRequestError err2), s2) ->
  adapter_request cfg s2 = (Resolved r, s3) ->
  let out := Retry.request Math_random adapter_request options cfg w in
  fst out = Resolved r
  /\ Retry.calls (snd out) = (Retry.calls w + 3)%nat
  /\ Eff.w_env (snd out) = s3.
Proof.
  intros Hmax Hcustom Hty1 Hst1 Hclass1 Hin1 Hty2 Hst2 Hclass2 Hin2 Hcall1 Hcall2 Hcall3.
  unfold Retry.request. rewrite Hmax. change (Z.to_nat (3 + 1)) with 4%nat.
  destruct (attempts_retry Math_random adapter_request options 3 0 ThrownUndefined
              (ThrownRequestError err1) cfg w s1) as (w1 & -> & Henv1 & Hcalls1).
  { lia. }
  { exact Hcall1. }
  { rewrite Hcustom, (checkShouldRetry_http err1 st1) by (auto; lia).
    now apply array_includes_In. }
  rewrite <- Henv1 in Hcall2.
  destruct (attempts_retry Math_random adapter_request options 2 (0 + 1)
              (ThrownRequestError err1) (ThrownRequestError err2) cfg w1 s2)
    as (w2 & -> & Henv2 & Hcalls2).
  { lia. }
  { exact Hcall2. }
  { rewrite Hcustom, (checkShouldRetry_http err2 st2) by (auto; lia).
    now apply array_includes_In. }
  rewrite <- Henv2 in Hcall3.
  rewrite (attempts_success Math_random adapter_request options 1 (0 + 1 + 1)
             (ThrownRequestError err2) cfg w2 r s3) by (lia || exact Hcall3).
  cbn [fst snd Eff.w_env]. repeat split.
  unfold Retry.calls in *; cbn [Eff.w_trace].
  rewrite List.filter_app, List.length_app. cbn. lia.
Qed.

Lemma retry_adapter_recovers_witness :
  let out := Retry.request (fun _ => 1 # 2) (Fixtures.fails_twice 503 "Service Unavailable")
               (Retry.with_maxRetries 3) Fixtures.get_test Fixtures.start in
  fst out = Resolved Fixtures.success
  /\ Retry.calls (snd out) = 3%nat
  /\ Eff.w_env (snd out) = 3%nat.
Proof.
  apply (retry_adapter_recovers (fun _ => 1 # 2)
           (Fixtures.fails_twice 503 "Service Unavailable")
           (Retry.with_maxRetries 3) Fixtures.get_test Fixtures.start
           (createHttpError 503 "Service Unavailable" (Some Fixtures.get_test) None)
           (createHttpError 503 "Service Unavailable" (Some Fixtures.get_test) None)
           503 503 1%nat 2%nat 3%nat Fixtures.success);
    try reflexivity; try lia; cbn; tauto.
Defined.

(** C1 fails as stated: 501 is a status of the 500 class that is not in the
    default retryable set, so a transport failing twice with it and then
    succeeding is called once and the adapter rejects with the first error. *)
Lemma retry_adapter_501_counterexample :
  let transport := Fixtures.fails_twice 501 "Not Implemented" in
  let out := Retry.request (fun _ => 1 # 2) transport (Retry.with_maxRetries 3)
               Fixtures.get_test Fixtures.start in
  fst (transport Fixtures.get_test 0%nat) = Rejected (Fixtures.http_error 501 "Not Implemented")
  /\ fst (transport Fixtures.get_test 1%nat) = Rejected (Fixtures.http_error 501 "Not Implemented")
  /\ fst (transport Fixtures.get_test 2%nat) = Resolved Fixtures.success
  /\ fst out = Rejected (Fixtures.http_error 501 "Not Implemented")
  /\ Retry.calls (snd out) = 1%nat
  /\ fst out <> Resolved Fixtures.success.
Proof. repeat split; try reflexivity; discriminate. Qed.

(** C3: if the wrapped transport always fails with an HTTP 404 error, the
    adapter built with [maxRetries >= 1], no custom predicate and the default
    retryable-status set calls it exactly once and rejects with that error;
    no delay is taken and no further attempt is made. *)
Theorem retry_adapter_404_once {S : Type} (Math_random : nat -> Q)
    (adapter_request : RequestConfig -> S -> Settled ResponseData * S)
    (options : Retry.Options) (cfg : RequestConfig) (w : Eff.World S) :
  1 <= Retry.maxRetries options ->
  Retry.shouldRetry options = None ->
  Retry.retryableStatusCodes options = Retry.DEFAULT_RETRYABLE_STATUS_CODES ->
  (forall s : S, exists (err : RequestError) (s' : S),
      adapter_request cfg s = (Rejected (ThrownRequestError err), s')
      /\ type err = HTTP /\ status err = Some 404) ->
  exists (err : RequestError) (s' : S),
    adapter_request cfg (Eff.w_env w) = (Rejected (ThrownRequestError err), s')
    /\ Retry.request Math_random adapter_request options cfg w
       = (Rejected (ThrownRequestError err),
          Eff.mkWorld s' (Eff.w_draws w) (Eff.w_trace w ++ [EvCall cfg]))
    /\ Retry.calls (snd (Retry.request Math_random adapter_request options cfg w))
       = (Retry.calls w + 1)%nat.
Proof.
  intros Hmax Hcustom Hcodes Halways.
  destruct (Halways (Eff.w_env w)) as (err & s' & Hcall & Hty & Hst).
  exists err, s'. split; [exact Hcall |].
  assert (Hreq : Retry.request Math_random adapter_request options cfg w
                 = (Rejected (ThrownRequestError err),
                    Eff.mkWorld s' (Eff.w_draws w) (Eff.w_trace w ++ [EvCall cfg]))).
  { unfold Retry.request.
    destruct (Z.to_nat (Retry.maxRetries options + 1)) as [| n] eqn:Efuel; [lia |].
    apply attempts_rethrow; [lia | exact Hcall |].
    right. rewrite Hcustom, Hcodes, (checkShouldRetry_http err 404) by (auto; lia).
    reflexivity. }
  split; [exact Hreq |].
  rewrite Hreq. cbn [snd]. rewrite calls_snoc. reflexivity.
Qed.

Lemma retry_adapter_404_once_witness :
  exists (err : RequestError) (s' : nat),
    Fixtures.always_404 Fixtures.get_test 0%nat = (Rejected (ThrownRequestError err), s')
    /\ fst (Retry.request (fun _ => 1 # 2) Fixtures.always_404 (Retry.with_maxRetries 5)
              Fixtures.get_test Fixtures.start) = Rejected (ThrownRequestError err)
    /\ Retry.calls (snd (Retry.request (fun _ => 1 # 2) Fixtures.always_404
                           (Retry.with_maxRetries 5) Fixtures.get_test Fixtures.start))
       = 1%nat.
Proof.
  destruct (retry_adapter_404_once (fun _ => 1 # 2) Fixtures.always_404
              (Retry.with_maxRetries 5) Fixtures.get_test Fixtures.start)
    as (err & s' & Hcall & Hreq & Hcalls).
  - cbn. lia.
  - reflexivity.
  - reflexivity.
  - intros s.
    exists (createHttpError 404 "Not Found" (Some Fixtures.get_test) None), (Datatypes.S s).
    split; [destruct s; reflexivity | split; reflexivity].
  - exists err, s'. rewrite Hreq. split; [exact Hcall |]. split; [reflexivity | exact Hcalls].
Defined.

(** ** The retry middlewares *)

Lemma next_calls_snoc {S : Type} (s : S) (d : nat) (tr : list Event) (ev : Event) :
  next_calls (Eff.mkWorld s d (tr ++ [ev]))
  = (List.length (List.filter is_next tr) + if is_next ev then 1 else 0)%nat.
Proof.
  unfold next_calls; cbn [Eff.w_trace].
  rewrite List.filter_app, List.length_app. cbn [List.filter].
  destruct (is_next ev); reflexivity.
Qed.

(** C9: the middleware of [retry.ts] stores [retryConfig] in [ctx.state]
    before it calls [next], calls [next] exactly once, and settles the way
    [next] did: when [next] fails it rethrows that very error.  When the
    failure is one it would retry (attempts are left and the error is
    retryable) it first stores [retryAttempt = 1] and [retryDelay], clears
    [ctx.response] and [ctx.error], and sleeps; [next] is not run again. *)
Theorem retry_middleware_single_attempt {D : Type} (Math_random : nat -> Q)
    (options : Retry.Options) (next : NextFunction D)
    (w : Eff.World (HttpContext * D)) :
  let recorded :=
    SvRetryConfig (Retry.maxRetries options) (Retry.backoff options)
      (Retry.baseDelay options) (Retry.maxDelay options)
      (Retry.retryableStatusCodes options) in
  let env0 := on_ctx (set_state "retryConfig" recorded) (Eff.w_env w) in
  let out := RetryTs.createRetryMiddleware Math_random options next w in
  ctx_state (fst env0) !! "retryConfig" = Some recorded
  /\ next_calls (snd out) = (next_calls w + 1)%nat
  /\ fst out = fst (next env0)
  /\ match fst (next env0) with
     | Resolved _ => Eff.w_env (snd out) = snd (next env0)
     | Rejected e =>
         if (0 <? Retry.maxRetries options)
            && Retry.checkShouldRetry e 0 (Retry.retryableStatusCodes options)
                 (Retry.shouldRetry options)
         then
           exists delay : Q,
             fst (Retry.calculateDelay Math_random 0 (Retry.backoff options)
                    (Retry.baseDelay options) (Retry.maxDelay options) w)
             = Resolved delay
             /\ ctx_state (fst (Eff.w_env (snd out))) !! "retryAttempt"
                = Some (SvNumber (inject_Z 1))
             /\ ctx_state (fst (Eff.w_env (snd out))) !! "retryDelay"
                = Some (SvNumber delay)
             /\ ctx_response (fst (Eff.w_env (snd out))) = None
             /\ ctx_error (fst (Eff.w_env (snd out))) = None
             /\ In (EvSleep delay) (Eff.w_trace (snd out))
         else Eff.w_env (snd out) = snd (next env0)
     end.
Proof.
  intros recorded env0 out.
  split; [apply lookup_insert_eq |].
  assert (Hout : out = RetryTs.createRetryMiddleware Math_random options next w)
    by reflexivity.
  clearbody out.
  unfold RetryTs.createRetryMiddleware in Hout.
  unfold Eff.bind at 1 in Hout. unfold Eff.modify at 1 in Hout.
  unfold Eff.try_catch, call_next, Eff.bind, Eff.emit, Eff.lift in Hout.
  cbn [Eff.w_env Eff.w_draws Eff.w_trace] in Hout.
  fold recorded in Hout. fold env0 in Hout.
  destruct (next env0) as [[[] | e] env1] eqn:Hnext; cbn [fst snd].
  - subst out. cbn [fst snd Eff.w_env]. rewrite next_calls_snoc. cbn. auto.
  - replace (0 >=? Retry.maxRetries options) with (negb (0 <? Retry.maxRetries options))
      in Hout by (rewrite Z.geb_leb, Z.ltb_antisym, negb_involutive; reflexivity).
    destruct (0 <? Retry.maxRetries options); cbn [negb andb] in *.
    2:{ unfold Eff.throw in Hout. subst out. cbn [fst snd Eff.w_env].
        rewrite next_calls_snoc. cbn. auto. }
    destruct (Retry.checkShouldRetry e 0 _ _); cbn [negb] in Hout.
    2:{ unfold Eff.throw in Hout. subst out. cbn [fst snd Eff.w_env].
        rewrite next_calls_snoc. cbn. auto. }
    unfold Retry.calculateDelay, Retry.sleep, Eff.when, Eff.emit, Eff.random,
      Eff.ret, Eff.modify, Eff.throw, Eff.bind in *.
    destruct w as [s d tr]; cbn [Eff.w_env Eff.w_draws Eff.w_trace] in *.
    destruct (Retry.backoff options), (Retry.onRetry options);
      cbn [fst snd Eff.w_env Eff.w_draws Eff.w_trace on_ctx set_state reset_outcome
           ctx_state ctx_response ctx_error] in Hout; subst out;
      cbn [fst snd Eff.w_env Eff.w_draws Eff.w_trace on_ctx set_state reset_outcome
           ctx_state ctx_response ctx_error];
      (split; [unfold next_calls; cbn [Eff.w_trace];
               rewrite !List.filter_app, !List.length_app; cbn; lia |]);
      (split; [reflexivity |]);
      eexists; (split; [reflexivity |]);
      (split; [rewrite lookup_insert_ne by discriminate; apply lookup_insert_eq |]);
      (split; [apply lookup_insert_eq |]);
      (split; [reflexivity |]); (split; [reflexivity |]);
      rewrite !List.in_app_iff; cbn; tauto.
Qed.

(** The middleware of [retryMiddleware.ts] is the other variant: it keeps no
    metadata and calls [next] again after a failure, [retries + 1] times in
    all when every call fails. *)
Example legacy_retry_middleware_calls_next_three_times :
  let out := RetryMiddlewareTs.createRetryMiddleware
               (RetryMiddlewareTs.mkRetryOptions 2 0) Fixtures.next_boom
               Fixtures.dispatch_start in
  fst out = Rejected (ThrownError (new_Error "boom"))
  /\ next_calls (snd out) = 3%nat.
Proof. split; reflexivity. Qed.

(** ** The streaming bridge queue *)

Section QueueFacts.
Context {T : Type}.
Implicit Types (q : AsyncQueue.Queue T) (ops : list (AsyncQueue.Op T)).

Lemma run_cons q op ops :
  AsyncQueue.run (op :: ops) q = AsyncQueue.run ops (AsyncQueue.step q op).
Proof. reflexivity. Qed.

Lemma run_app q ops1 ops2 :
  AsyncQueue.run (ops1 ++ ops2) q = AsyncQueue.run ops2 (AsyncQueue.run ops1 q).
Proof. apply List.fold_left_app. Qed.

(** The two resolver slots are set and cleared together. *)
Lemma step_paired q op :
  AsyncQueue.resolveNext q = AsyncQueue.rejectNext q ->
  AsyncQueue.resolveNext (AsyncQueue.step q op)
  = AsyncQueue.rejectNext (AsyncQueue.step q op).
Proof.
  intros Hpair. destruct q as [c f vs rs rj dr d n log]; cbn in Hpair; subst rj.
  destruct op as [v | | err |]; cbn;
    unfold AsyncQueue.push, AsyncQueue.close, AsyncQueue.fail, AsyncQueue.next,
      AsyncQueue.failed, AsyncQueue.settleDone; cbn;
    repeat match goal with
           | |- context [match ?x with _ => _ end] => destruct x; cbn
           end; reflexivity.
Qed.

Lemma run_paired ops q :
  AsyncQueue.resolveNext q = AsyncQueue.rejectNext q ->
  AsyncQueue.resolveNext (AsyncQueue.run ops q)
  = AsyncQueue.rejectNext (AsyncQueue.run ops q).
Proof.
  revert q. induction ops as [| op ops IH]; intros q Hpair; [exact Hpair |].
  rewrite run_cons. apply IH, step_paired, Hpair.
Qed.

(** In the failed state with no pull pending, a step only appends the
    rejection of a new pull. *)
Lemma step_failed q op err :
  AsyncQueue.failure q = Some err -> truthy err = true ->
  AsyncQueue.resolveNext q = None -> AsyncQueue.rejectNext q = None ->
  let q' := AsyncQueue.step q op in
  AsyncQueue.failure q' = Some err
  /\ AsyncQueue.resolveNext q' = None
  /\ AsyncQueue.rejectNext q' = None
  /\ AsyncQueue.values q' = AsyncQueue.values q
  /\ AsyncQueue.issued q' = (AsyncQueue.issued q + if AsyncQueue.is_Next op then 1 else 0)%nat
  /\ AsyncQueue.settlements q'
     = AsyncQueue.settlements q
       ++ (if AsyncQueue.is_Next op then [(AsyncQueue.issued q, Rejected err)] else []).
Proof.
  intros Hf Ht Hrs Hrj. destruct q as [c f vs rs rj dr d n log]; cbn in Hf, Hrs, Hrj; subst.
  destruct op as [v | | err' |]; cbn;
    unfold AsyncQueue.push, AsyncQueue.close, AsyncQueue.fail, AsyncQueue.next,
      AsyncQueue.failed, AsyncQueue.settleDone; cbn; rewrite ?Ht; cbn;
    rewrite ?orb_true_r; cbn;
    repeat match goal with
           | |- context [if ?b then _ else _] => destruct b; cbn
           end;
    rewrite ?List.app_nil_r, ?Nat.add_0_r, ?Nat.add_1_r; auto 10.
Qed.

Lemma run_failed ops q err :
  AsyncQueue.failure q = Some err -> truthy err = true ->
  AsyncQueue.resolveNext q = None -> AsyncQueue.rejectNext q = None ->
  let q' := AsyncQueue.run ops q in
  AsyncQueue.failure q' = Some err
  /\ AsyncQueue.resolveNext q' = None
  /\ AsyncQueue.rejectNext q' = None
  /\ AsyncQueue.values q' = AsyncQueue.values q
  /\ AsyncQueue.issued q' = (AsyncQueue.issued q + AsyncQueue.pulls ops)%nat
  /\ AsyncQueue.settlements q'
     = AsyncQueue.settlements q
       ++ List.map (fun i => (i, Rejected err))
            (List.seq (AsyncQueue.issued q) (AsyncQueue.pulls ops)).
Proof.
  revert q. induction ops as [| op ops IH]; intros q Hf Ht Hrs Hrj.
  - cbn. rewrite List.app_nil_r, Nat.add_0_r. auto 10.
  - cbn zeta. rewrite run_cons.
    destruct (step_failed q op err Hf Ht Hrs Hrj) as (Hf' & Hrs' & Hrj' & Hv' & Hn' & Hlog').
    destruct (IH _ Hf' Ht Hrs' Hrj') as (Hf2 & Hrs2 & Hrj2 & Hv2 & Hn2 & Hlog2).
    repeat split; try assumption; try congruence.
    + rewrite Hn2, Hn'. unfold AsyncQueue.pulls. cbn [List.filter].
      destruct (AsyncQueue.is_Next op); cbn [List.length]; lia.
    + rewrite Hlog2, Hlog', Hn'. unfold AsyncQueue.pulls. cbn [List.filter].
      destruct (AsyncQueue.is_Next op); cbn [List.length List.seq List.map].
      * rewrite <- List.app_assoc, Nat.add_1_r. reflexivity.
      * rewrite List.app_nil_r, Nat.add_0_r. reflexivity.
Qed.

(** What [fail(err)] leaves behind when it is the first terminal
    transition of a queue whose resolver slots are paired. *)
Lemma fail_first q err :
  AsyncQueue.isClosed q = false -> AsyncQueue.failed q = false ->
  AsyncQueue.resolveNext q = AsyncQueue.rejectNext q ->
  let q1 := AsyncQueue.fail err q in
  AsyncQueue.failure q1 = Some err
  /\ AsyncQueue.resolveNext q1 = None
  /\ AsyncQueue.rejectNext q1 = None
  /\ AsyncQueue.isClosed q1 = false.
Proof.
  intros Hc Hf Hpair. destruct q as [c f vs rs rj dr d n log]; cbn in Hc, Hpair; subst.
  unfold AsyncQueue.fail. rewrite Hf. cbn.
  destruct rj; unfold AsyncQueue.settleDone; cbn; destruct dr; cbn; auto.
Qed.

(** [close()] after a failure only sets the [isClosed] flag. *)
Lemma close_after_failure q err :
  AsyncQueue.failure q = Some err ->
  AsyncQueue.resolveNext q = None -> AsyncQueue.rejectNext q = None ->
  let q' := AsyncQueue.close q in
  AsyncQueue.failure q' = Some err
  /\ AsyncQueue.resolveNext q' = None
  /\ AsyncQueue.rejectNext q' = None
  /\ AsyncQueue.issued q' = AsyncQueue.issued q
  /\ AsyncQueue.settlements q' = AsyncQueue.settlements q.
Proof.
  intros Hf Hrs Hrj. destruct q as [c f vs rs rj dr d n log]; cbn in Hf, Hrs, Hrj; subst.
  unfold AsyncQueue.close, AsyncQueue.settleDone; cbn.
  destruct c; cbn; [auto |]. destruct dr; cbn; auto.
Qed.

End QueueFacts.

(** The guard of [push]: on a queue that is closed, or whose stored failure
    is truthy, a push leaves every part of the queue as it was: it is not
    buffered, it settles no pending pull, and whatever is done to the queue
    afterwards goes as if the push had not happened. *)
Lemma push_after_terminal_is_discarded {T : Type} (q : AsyncQueue.Queue T) (value : T) :
  AsyncQueue.isClosed q = true \/ AsyncQueue.failed q = true ->
  AsyncQueue.push value q = q
  /\ AsyncQueue.values (AsyncQueue.push value q) = AsyncQueue.values q
  /\ AsyncQueue.settlements (AsyncQueue.push value q) = AsyncQueue.settlements q
  /\ forall ops : list (AsyncQueue.Op T),
       AsyncQueue.run ops (AsyncQueue.push value q) = AsyncQueue.run ops q.
Proof.
  intros Hterminal.
  assert (Hpush : AsyncQueue.push value q = q).
  { unfold AsyncQueue.push.
    destruct Hterminal as [-> | ->]; [reflexivity | now rewrite orb_true_r]. }
  rewrite Hpush. auto.
Qed.

Lemma push_after_terminal_is_discarded_witness :
  let q := AsyncQueue.close (AsyncQueue.push "a" AsyncQueue.createAsyncQueue) in
  AsyncQueue.isClosed q = true
  /\ AsyncQueue.push "late" q = q.
Proof.
  split; [reflexivity |].
  apply (push_after_terminal_is_discarded
           (AsyncQueue.close (AsyncQueue.push "a" AsyncQueue.createAsyncQueue)) "late").
  left. reflexivity.
Defined.

(** X21: failure is sticky for every truthy [err]: when [fail(err)] is the first
    terminal transition of a queue, every later pull is rejected at once with
    [err], whatever was done to the queue in between; a [close()] at any later
    time changes no pull result; and on a queue that was closed first, [fail]
    changes nothing at all. *)
Lemma truthy_failure_is_sticky {T : Type} (history before after : list (AsyncQueue.Op T))
    (err : Thrown) :
  let q := AsyncQueue.run history AsyncQueue.createAsyncQueue in
  AsyncQueue.isClosed q = false ->
  AsyncQueue.failed q = false ->
  truthy err = true ->
  let q1 := AsyncQueue.fail err q in
  let q2 := AsyncQueue.run before q1 in
  (AsyncQueue.failure q2 = Some err
   /\ AsyncQueue.settlements (AsyncQueue.next q2)
      = AsyncQueue.settlements q2 ++ [(AsyncQueue.issued q2, Rejected err)])
  /\ AsyncQueue.settlements (AsyncQueue.run after (AsyncQueue.close q2))
     = AsyncQueue.settlements (AsyncQueue.run after q2)
  /\ (forall err' : Thrown,
        AsyncQueue.fail err' (AsyncQueue.close q) = AsyncQueue.close q
        /\ AsyncQueue.failed (AsyncQueue.close q) = false).
Proof.
  intros q Hopen Hnotfailed Htruthy q1 q2.
  assert (Hpair : AsyncQueue.resolveNext q = AsyncQueue.rejectNext q)
    by (apply run_paired; reflexivity).
  destruct (fail_first q err Hopen Hnotfailed Hpair) as (Hf1 & Hrs1 & Hrj1 & Hc1).
  fold q1 in Hf1, Hrs1, Hrj1, Hc1.
  destruct (run_failed before q1 err Hf1 Htruthy Hrs1 Hrj1)
    as (Hf2 & Hrs2 & Hrj2 & _ & _ & _).
  fold q2 in Hf2, Hrs2, Hrj2.
  split; [| split].
  - split; [exact Hf2 |].
    unfold AsyncQueue.next, AsyncQueue.failed. cbn. rewrite Hf2, Htruthy. reflexivity.
  - destruct (close_after_failure q2 err Hf2 Hrs2 Hrj2) as (Hf3 & Hrs3 & Hrj3 & Hn3 & Hlog3).
    destruct (run_failed after q2 err Hf2 Htruthy Hrs2 Hrj2)
      as (_ & _ & _ & _ & _ & Hlog).
    destruct (run_failed after (AsyncQueue.close q2) err Hf3 Htruthy Hrs3 Hrj3)
      as (_ & _ & _ & _ & _ & Hlog').
    rewrite Hlog', Hlog, Hn3, Hlog3. reflexivity.
  - intros err'.
    assert (Hclosed : AsyncQueue.isClosed (AsyncQueue.close q) = true
                      /\ AsyncQueue.failed (AsyncQueue.close q) = false).
    { clear - Hopen Hnotfailed. destruct q as [c f vs rs rj dr d n log].
      unfold AsyncQueue.failed in *. cbn in Hopen, Hnotfailed |- *. subst c.
      unfold AsyncQueue.close, AsyncQueue.settleDone; cbn.
      destruct rs, dr; cbn; auto. }
    destruct Hclosed as [Hclosed Hclean]. split; [| exact Hclean].
    unfold AsyncQueue.fail. rewrite Hclosed, orb_true_r. reflexivity.
Qed.

Example truthy_failure_is_sticky_boom :
  let err := ThrownError (new_Error "boom") in
  let q2 := AsyncQueue.run [AsyncQueue.Close; AsyncQueue.Push "late"; AsyncQueue.Next]
              (AsyncQueue.fail err
                 (AsyncQueue.run [AsyncQueue.Push "a"] AsyncQueue.createAsyncQueue)) in
  AsyncQueue.settlements (AsyncQueue.next q2)
  = AsyncQueue.settlements q2 ++ [(AsyncQueue.issued q2, Rejected err)].
Proof.
  apply (truthy_failure_is_sticky [AsyncQueue.Push "a"]
           [AsyncQueue.Close; AsyncQueue.Push "late"; AsyncQueue.Next] []
           (ThrownError (new_Error "boom"))); reflexivity.
Defined.


(** C5, on [fail(undefined)]: the call is the first terminal transition of a
    fresh queue and it takes effect ([failure] is assigned, [done] resolves),
    but the stored value is falsy, so the next pull is left pending instead
    of being rejected, and a later push is buffered and delivered.  In a
    session whose source fails with [undefined] after opening, the consumer
    then sees a clean end of the stream. *)
Theorem falsy_failure_is_not_sticky :
  let q := @AsyncQueue.createAsyncQueue string in
  let q1 := AsyncQueue.fail ThrownUndefined q in
  let st := EventSource.exec Fixtures.fails_with_undefined
              (EventSource.request Fixtures.get_test) in
  (AsyncQueue.isClosed q = false /\ AsyncQueue.failed q = false)
  /\ (AsyncQueue.failure q1 = Some ThrownUndefined /\ AsyncQueue.done q1 = true)
  /\ AsyncQueue.failed q1 = false
  /\ AsyncQueue.settlements (AsyncQueue.next q1) = []
  /\ AsyncQueue.resolveNext (AsyncQueue.next q1) = Some 0%nat
  /\ AsyncQueue.settlements (AsyncQueue.next (AsyncQueue.push "late" q1))
     = [(0%nat, Resolved (Value "late"))]
  /\ AsyncQueue.outcome (EventSource.queue st) 0 = Some (Resolved Done).
Proof. repeat split. Qed.

(** *** Delivery in order *)

Section QueueOrder.
Context {T : Type}.
Implicit Types (q : AsyncQueue.Queue T) (ops : list (AsyncQueue.Op T))
  (items : list T).

Lemma length_delivered items m :
  List.length (AsyncQueue.delivered items m) = m.
Proof. unfold AsyncQueue.delivered. now rewrite List.length_map, List.length_seq. Qed.

Lemma delivered_S items m :
  AsyncQueue.delivered items (Datatypes.S m)
  = AsyncQueue.delivered items m ++ [(m, AsyncQueue.expected items m)].
Proof. unfold AsyncQueue.delivered. now rewrite List.seq_S, List.map_app. Qed.

Lemma delivered_snoc_item items value m :
  (m <= List.length items)%nat ->
  AsyncQueue.delivered (items ++ [value]) m = AsyncQueue.delivered items m.
Proof.
  intros Hm. unfold AsyncQueue.delivered. apply List.map_ext_in.
  intros i Hi. apply List.in_seq in Hi. unfold AsyncQueue.expected.
  rewrite List.nth_error_app1 by lia. reflexivity.
Qed.

Lemma expected_new_item items value :
  AsyncQueue.expected (items ++ [value]) (List.length items) = Resolved (Value value).
Proof.
  unfold AsyncQueue.expected.
  rewrite List.nth_error_app2, Nat.sub_diag by lia. reflexivity.
Qed.

Lemma expected_past_end items m :
  (List.length items <= m)%nat -> AsyncQueue.expected items m = Resolved Done.
Proof.
  intros Hm. unfold AsyncQueue.expected.
  now rewrite (proj2 (List.nth_error_None items m) Hm).
Qed.

Lemma skipn_head items m value rest :
  List.skipn m items = value :: rest ->
  List.nth_error items m = Some value
  /\ List.skipn (Datatypes.S m) items = rest
  /\ (m < List.length items)%nat.
Proof.
  revert items. induction m as [| m IH]; intros [| x items] Hskip; cbn in *;
    try discriminate.
  - inversion Hskip; subst. repeat split; lia.
  - destruct (IH items Hskip) as (Hnth & Hrest & Hlt). repeat split; auto; lia.
Qed.

Lemma skipn_nil_length items m :
  List.skipn m items = [] -> (List.length items <= m)%nat.
Proof.
  revert items. induction m as [| m IH]; intros [| x items] Hskip; cbn in *;
    try discriminate; try lia.
  specialize (IH items Hskip). lia.
Qed.

Ltac open_in_order H :=
  destruct H as (Hfail & Hpair & Hdone & Hresolver & Hlog & Hvals & Hm & Hpend).

Ltac fields :=
  cbn [AsyncQueue.isClosed AsyncQueue.failure AsyncQueue.values
       AsyncQueue.resolveNext AsyncQueue.rejectNext AsyncQueue.doneResolve
       AsyncQueue.done AsyncQueue.issued AsyncQueue.settlements
       AsyncQueue.settle AsyncQueue.clear_pending AsyncQueue.fresh negb orb] in *.

(** [push] on an open queue: the value goes to the pending pull, or to the
    end of the buffer. *)
Lemma push_in_order items q value :
  AsyncQueue.in_order items q ->
  AsyncQueue.isClosed q = false ->
  AsyncQueue.in_order (items ++ [value]) (AsyncQueue.push value q).
Proof.
  intros Hinv Hopen. destruct q as [c f vs rs rj dr d n log].
  fields; subst c.
  unfold AsyncQueue.in_order in *; fields. open_in_order Hinv.
  subst f rj d dr. unfold AsyncQueue.push, AsyncQueue.failed; fields.
  destruct Hm as [Hm | Hm]; [| discriminate].
  destruct Hpend as [[-> ->] | (-> & -> & _ & Hfull)]; fields.
  - rewrite List.length_app. cbn [List.length].
    repeat split; auto.
    + rewrite delivered_snoc_item by exact Hm. exact Hlog.
    + rewrite Hvals, List.skipn_app.
      replace (List.length log - List.length items)%nat with 0%nat by lia.
      reflexivity.
    + left. lia.
  - assert (Hlen : List.length log = List.length items) by lia.
    rewrite !List.length_app. cbn [List.length].
    repeat split; auto.
    + rewrite Nat.add_1_r, delivered_S, Hlen, expected_new_item.
      rewrite delivered_snoc_item by lia. rewrite <- Hlen, <- Hlog. reflexivity.
    + rewrite Hvals, !List.skipn_all2; [reflexivity | | lia].
      rewrite List.length_app. cbn. lia.
    + left. lia.
    + left. split; [reflexivity | lia].
Qed.

(** [close] ends the sequence: a pending pull sees the completion marker. *)
Lemma close_in_order items q :
  AsyncQueue.in_order items q ->
  AsyncQueue.in_order items (AsyncQueue.close q)
  /\ AsyncQueue.isClosed (AsyncQueue.close q) = true.
Proof.
  intros Hinv. destruct q as [c f vs rs rj dr d n log].
  unfold AsyncQueue.close; fields.
  destruct c; [split; [exact Hinv | reflexivity] |].
  unfold AsyncQueue.in_order in *; fields. open_in_order Hinv.
  subst f rj d dr. unfold AsyncQueue.settleDone; fields.
  destruct Hm as [Hm | Hm]; [| discriminate].
  destruct Hpend as [[-> ->] | (-> & -> & _ & Hfull)]; fields.
  - repeat split; auto.
  - rewrite !List.length_app. cbn [List.length].
    repeat split; auto.
    + rewrite Nat.add_1_r, delivered_S, expected_past_end by exact Hfull.
      rewrite <- Hlog. reflexivity.
    + rewrite Hvals, !List.skipn_all2; [reflexivity | lia | lia].
    + left. split; [reflexivity | lia].
Qed.

(** [next] with no pull pending: the oldest buffered item, or the
    completion marker on a closed queue, or a pending pull. *)
Lemma next_in_order items q :
  AsyncQueue.in_order items q ->
  AsyncQueue.resolveNext q = None ->
  AsyncQueue.in_order items (AsyncQueue.next q)
  /\ AsyncQueue.isClosed (AsyncQueue.next q) = AsyncQueue.isClosed q.
Proof.
  intros Hinv Hidle. destruct q as [c f vs rs rj dr d n log].
  fields; subst rs.
  unfold AsyncQueue.in_order in *; fields. open_in_order Hinv.
  subst f rj d dr. unfold AsyncQueue.next, AsyncQueue.failed; fields.
  destruct Hpend as [[_ ->] | (Hpending & _)]; [| discriminate].
  destruct vs as [| value rest]; fields.
  - symmetry in Hvals. apply skipn_nil_length in Hvals.
    destruct c; unfold AsyncQueue.settleDone; fields.
    + rewrite !List.length_app. cbn [List.length].
      repeat split; auto.
      * rewrite Nat.add_1_r, delivered_S, expected_past_end by exact Hvals.
        rewrite <- Hlog. reflexivity.
      * rewrite List.skipn_all2; [reflexivity | lia].
      * left. split; [reflexivity | lia].
    + repeat split; auto 10.
      rewrite List.skipn_all2; [reflexivity | lia].
  - symmetry in Hvals. apply skipn_head in Hvals. destruct Hvals as (Hnth & Hrest & Hlt).
    rewrite !List.length_app. cbn [List.length].
    repeat split; auto.
    + rewrite Nat.add_1_r, delivered_S. unfold AsyncQueue.expected at 1.
      rewrite Hnth, <- Hlog. reflexivity.
    + rewrite Nat.add_1_r. symmetry. exact Hrest.
    + destruct Hm as [Hm | Hm]; [left; lia | right; exact Hm].
    + left. split; [reflexivity | lia].
Qed.

Lemma createAsyncQueue_in_order :
  AsyncQueue.in_order [] (@AsyncQueue.createAsyncQueue T).
Proof.
  unfold AsyncQueue.in_order; cbn. repeat split; auto.
Qed.

(** A schedule without [fail], run by a consumer that pulls one at a time,
    keeps the queue in order; the items are those accepted on the way. *)
Lemma run_in_order ops items q :
  AsyncQueue.in_order items q ->
  List.existsb AsyncQueue.is_Fail ops = false ->
  AsyncQueue.sequential ops q = true ->
  AsyncQueue.in_order (items ++ AsyncQueue.accepted (AsyncQueue.isClosed q) ops)
    (AsyncQueue.run ops q)
  /\ AsyncQueue.isClosed (AsyncQueue.run ops q)
     = AsyncQueue.isClosed q || List.existsb AsyncQueue.is_Close ops.
Proof.
  revert items q. induction ops as [| op ops IH]; intros items q Hinv Hnofail Hseq.
  - cbn. rewrite List.app_nil_r, orb_false_r. auto.
  - rewrite run_cons. cbn [List.existsb AsyncQueue.sequential] in *.
    apply orb_false_iff in Hnofail. destruct Hnofail as [Hop Hnofail].
    apply andb_true_iff in Hseq. destruct Hseq as [Hguard Hseq].
    destruct op as [value | | err |]; try discriminate;
      cbn [AsyncQueue.step AsyncQueue.accepted AsyncQueue.is_Close AsyncQueue.is_Next orb] in *.
    + destruct (AsyncQueue.isClosed q) eqn:Hclosed.
      * assert (Hpush : AsyncQueue.push value q = q)
          by (unfold AsyncQueue.push; now rewrite Hclosed).
        rewrite Hpush in *. destruct (IH items q Hinv Hnofail Hseq) as [Hinv' Hclosed'].
        rewrite Hclosed in Hinv', Hclosed'. auto.
      * pose proof (push_in_order items q value Hinv Hclosed) as Hinv1.
        assert (Hopen1 : AsyncQueue.isClosed (AsyncQueue.push value q) = false).
        { clear - Hclosed. destruct q as [c f vs rs rj dr d n log].
          cbn in Hclosed; subst c. unfold AsyncQueue.push; cbn.
          destruct (AsyncQueue.failed _); [reflexivity |].
          destruct rs; reflexivity. }
        destruct (IH _ _ Hinv1 Hnofail Hseq) as [Hinv' Hclosed'].
        rewrite Hopen1 in Hinv', Hclosed'. rewrite <- List.app_assoc in Hinv'. auto.
    + destruct (close_in_order items q Hinv) as [Hinv1 Hclosed1].
      destruct (IH _ _ Hinv1 Hnofail Hseq) as [Hinv' Hclosed'].
      rewrite Hclosed1 in Hinv', Hclosed'. rewrite orb_true_r. auto.
    + assert (Hidle : AsyncQueue.resolveNext q = None)
        by (destruct (AsyncQueue.resolveNext q); [discriminate | reflexivity]).
      destruct (next_in_order items q Hinv Hidle) as [Hinv1 Hclosed1].
      destruct (IH _ _ Hinv1 Hnofail Hseq) as [Hinv' Hclosed'].
      rewrite Hclosed1 in Hinv', Hclosed'. auto.
Qed.

End QueueOrder.

Section QueueObservation.
Context {T : Type}.
Implicit Types (q : AsyncQueue.Queue T) (ops : list (AsyncQueue.Op T))
  (items : list T).

(** Only [next] hands out promises, one per call. *)
Lemma issued_run ops q :
  AsyncQueue.issued (AsyncQueue.run ops q)
  = (AsyncQueue.issued q + AsyncQueue.pulls ops)%nat.
Proof.
  revert q. induction ops as [| op ops IH]; intros q.
  - cbn. unfold AsyncQueue.pulls. cbn. lia.
  - rewrite run_cons, IH. unfold AsyncQueue.pulls. cbn [List.filter].
    destruct q as [c f vs rs rj dr d n log].
    destruct op as [value | | err |]; cbn;
      unfold AsyncQueue.push, AsyncQueue.close, AsyncQueue.fail, AsyncQueue.next,
        AsyncQueue.failed, AsyncQueue.settleDone; cbn;
      repeat match goal with
             | |- context [match ?x with _ => _ end] => destruct x; cbn
             end; lia.
Qed.

Lemma find_in_seq (f : nat -> Settled (IteratorResult T)) (i a n : nat) :
  (a <= i < a + n)%nat ->
  List.find (fun s => Nat.eqb (fst s) i) (List.map (fun j => (j, f j)) (List.seq a n))
  = Some (i, f i).
Proof.
  revert a. induction n as [| n IH]; intros a Hi; [lia |].
  cbn [List.seq List.map List.find fst].
  destruct (Nat.eqb a i) eqn:E.
  - apply Nat.eqb_eq in E. now subst.
  - apply Nat.eqb_neq in E. apply IH. lia.
Qed.

Lemma outcome_delivered items q i :
  AsyncQueue.settlements q = AsyncQueue.delivered items (List.length (AsyncQueue.settlements q)) ->
  (i < List.length (AsyncQueue.settlements q))%nat ->
  AsyncQueue.outcome q i = Some (AsyncQueue.expected items i).
Proof.
  intros Hlog Hi. unfold AsyncQueue.outcome. rewrite Hlog.
  unfold AsyncQueue.delivered. rewrite find_in_seq by lia. reflexivity.
Qed.

Lemma accepted_produced ops (closed : bool) :
  AsyncQueue.accepted closed (AsyncQueue.produced ops) = AsyncQueue.accepted closed ops.
Proof.
  unfold AsyncQueue.produced.
  revert closed. induction ops as [| op ops IH]; intros closed; [reflexivity |].
  destruct op as [value | | err |]; cbn; rewrite ?IH; reflexivity.
Qed.

Lemma existsb_produced (p : AsyncQueue.Op T -> bool) ops :
  p AsyncQueue.Next = false ->
  List.existsb p (AsyncQueue.produced ops) = List.existsb p ops.
Proof.
  intros Hp. unfold AsyncQueue.produced.
  induction ops as [| op ops IH]; [reflexivity |].
  destruct op as [value | | err |]; cbn; rewrite ?IH, ?Hp; reflexivity.
Qed.

(** A source that pushes and then closes, without failing, is seen in
    order by a consumer that pulls one at a time: once the schedule is
    over, pull [i] has settled with the [i]-th accepted item, or with the
    completion marker, and [done] has resolved. *)
Lemma queue_fifo ops :
  List.existsb AsyncQueue.is_Fail ops = false ->
  List.existsb AsyncQueue.is_Close ops = true ->
  AsyncQueue.sequential ops AsyncQueue.createAsyncQueue = true ->
  let q := AsyncQueue.run ops AsyncQueue.createAsyncQueue in
  AsyncQueue.done q = true
  /\ forall i, (i < AsyncQueue.pulls ops)%nat ->
       AsyncQueue.outcome q i
       = Some (AsyncQueue.expected (AsyncQueue.accepted false ops) i).
Proof.
  intros Hnofail Hclose Hseq q.
  destruct (run_in_order ops [] AsyncQueue.createAsyncQueue
              createAsyncQueue_in_order Hnofail Hseq) as [Hinv Hclosed].
  fold q in Hinv, Hclosed. cbn in Hinv, Hclosed. rewrite Hclose in Hclosed.
  destruct Hinv as (_ & _ & Hdone & _ & Hlog & _ & _ & Hpend).
  split; [congruence |].
  intros i Hi. apply outcome_delivered; [exact Hlog |].
  pose proof (issued_run ops AsyncQueue.createAsyncQueue) as Hissued.
  fold q in Hissued. cbn in Hissued.
  destruct Hpend as [[_ Hn] | (_ & _ & Hopen & _)]; [lia | congruence].
Qed.

End QueueObservation.

(** ** The event-source session *)

Lemma queue_act (st : EventSource.State) (a : EventSource.Action) :
  EventSource.queue (EventSource.act st a)
  = AsyncQueue.run (EventSource.queue_ops a) (EventSource.queue st).
Proof.
  destruct a as [[r | data event id | error | | [err |]] |]; cbn;
    unfold EventSource.settle_outer; cbn;
    repeat match goal with
           | |- context [if ?b then _ else _] => destruct b; cbn
           end; reflexivity.
Qed.

Lemma queue_exec (acts : list EventSource.Action) (st : EventSource.State) :
  EventSource.queue (EventSource.exec acts st)
  = AsyncQueue.run (List.flat_map EventSource.queue_ops acts) (EventSource.queue st).
Proof.
  revert st. induction acts as [| a acts IH]; intros st; [reflexivity |].
  cbn [List.flat_map]. rewrite run_app, <- queue_act. apply IH.
Qed.

Lemma produced_source_ops (ev : SourceEvent) :
  AsyncQueue.produced (EventSource.source_ops ev) = EventSource.source_ops ev.
Proof.
  destruct ev as [r | data event id | error | | [err |]]; cbn; try reflexivity.
  destruct (negb (ok r)); reflexivity.
Qed.

Lemma produced_queue_ops (acts : list EventSource.Action) :
  AsyncQueue.produced (List.flat_map EventSource.queue_ops acts)
  = List.flat_map EventSource.source_ops (EventSource.source_events acts).
Proof.
  induction acts as [| a acts IH]; [reflexivity |].
  cbn [List.flat_map EventSource.source_events]. unfold AsyncQueue.produced in *.
  rewrite List.filter_app, IH.
  destruct a as [ev |]; cbn [EventSource.queue_ops].
  - fold (AsyncQueue.produced (EventSource.source_ops ev)).
    rewrite produced_source_ops. reflexivity.
  - reflexivity.
Qed.

Lemma pulls_queue_ops (acts : list EventSource.Action) :
  AsyncQueue.pulls (List.flat_map EventSource.queue_ops acts) = EventSource.pulls acts.
Proof.
  unfold AsyncQueue.pulls, EventSource.pulls.
  induction acts as [| a acts IH]; [reflexivity |].
  cbn [List.flat_map List.filter]. rewrite List.filter_app, List.length_app, IH.
  destruct a as [ev |]; cbn [EventSource.queue_ops]; [| reflexivity].
  replace (List.filter AsyncQueue.is_Next (EventSource.source_ops ev)) with
    (@nil (AsyncQueue.Op EventSourceMessage)); [reflexivity |].
  destruct ev as [r | data event id | error | | [err |]]; cbn; try reflexivity.
  destruct (negb (ok r)); reflexivity.
Qed.

Lemma run_done_exec (acts : list EventSource.Action) (st : EventSource.State) :
  EventSource.run_done (EventSource.exec acts st)
  = EventSource.run_done st
    || List.existsb is_Settles (EventSource.source_events acts).
Proof.
  revert st. induction acts as [| a acts IH]; intros st.
  - cbn. now rewrite orb_false_r.
  - cbn [EventSource.exec List.fold_left]. fold (EventSource.exec acts (EventSource.act st a)).
    rewrite IH. cbn [EventSource.source_events List.flat_map].
    rewrite List.existsb_app.
    destruct a as [[r | data event id | error | | rejection] |]; cbn;
      unfold EventSource.settle_outer; cbn;
      repeat match goal with
             | |- context [if ?b then _ else _] => destruct b; cbn
             end;
      rewrite ?orb_true_r, ?orb_false_r; reflexivity.
Qed.

(** C2: in a session of the event-source adapter whose source opens, pushes
    [a], pushes [b] and closes, a consumer that pulls one at a time, whenever
    it pulls, gets [a] from its first pull, [b] from its second and the
    completion marker from every later one; and [session.done] has resolved
    when the source has closed, also when nothing was ever pulled. *)
Theorem session_yields_in_order (requestConfig : RequestConfig) (r : OpenResponse)
    (data_a event_a id_a data_b event_b id_b : string)
    (acts : list EventSource.Action) :
  ok r = true ->
  EventSource.source_events acts
  = [OnOpen r; OnMessage data_a event_a id_a; OnMessage data_b event_b id_b;
     OnClose; Settles None] ->
  EventSource.sequential acts (EventSource.request requestConfig) = true ->
  let a := mkMessage data_a (Some event_a) (Some id_a) in
  let b := mkMessage data_b (Some event_b) (Some id_b) in
  let st := EventSource.exec acts (EventSource.request requestConfig) in
  (forall i, (i < EventSource.pulls acts)%nat ->
     AsyncQueue.outcome (EventSource.queue st) i
     = Some (Resolved (match i with
                       | O => Value a
                       | Datatypes.S O => Value b
                       | _ => Done
                       end)))
  /\ EventSource.session_done st = true
  /\ EventSource.session_done
       (EventSource.feed
          [OnOpen r; OnMessage data_a event_a id_a; OnMessage data_b event_b id_b;
           OnClose; Settles None]
          (EventSource.request requestConfig)) = true.
Proof.
  intros Hok Hsource Hseq a b st.
  set (ops := List.flat_map EventSource.queue_ops acts).
  assert (Hproduced : AsyncQueue.produced ops
                      = [AsyncQueue.Push a; AsyncQueue.Push b;
                         AsyncQueue.Close; AsyncQueue.Close]).
  { unfold ops. rewrite produced_queue_ops, Hsource. cbn. rewrite Hok. reflexivity. }
  assert (Hnofail : List.existsb AsyncQueue.is_Fail ops = false)
    by (rewrite <- existsb_produced, Hproduced; reflexivity).
  assert (Hclose : List.existsb AsyncQueue.is_Close ops = true)
    by (rewrite <- existsb_produced, Hproduced; reflexivity).
  assert (Haccepted : AsyncQueue.accepted false ops = [a; b])
    by (rewrite <- accepted_produced, Hproduced; reflexivity).
  destruct (queue_fifo ops Hnofail Hclose Hseq) as [Hdone Hpulls].
  assert (Hqueue : EventSource.queue st = AsyncQueue.run ops AsyncQueue.createAsyncQueue)
    by (subst st; rewrite queue_exec; reflexivity).
  split; [| split].
  - intros i Hi. rewrite Hqueue, Hpulls, Haccepted.
    + unfold AsyncQueue.expected. destruct i as [| [| [| i]]]; reflexivity.
    + unfold ops. rewrite pulls_queue_ops. exact Hi.
  - unfold EventSource.session_done. rewrite Hqueue, Hdone.
    subst st. rewrite run_done_exec, Hsource. reflexivity.
  - cbn. rewrite Hok. reflexivity.
Qed.

Lemma session_yields_in_order_witness :
  let st := EventSource.exec Fixtures.a_b_close (EventSource.request Fixtures.post_events) in
  AsyncQueue.outcome (EventSource.queue st) 0
  = Some (Resolved (Value (mkMessage "a" (Some "message") (Some "1"))))
  /\ AsyncQueue.outcome (EventSource.queue st) 1
     = Some (Resolved (Value (mkMessage "b" (Some "message") (Some "2"))))
  /\ AsyncQueue.outcome (EventSource.queue st) 2 = Some (Resolved Done)
  /\ EventSource.session_done st = true.
Proof.
  destruct (session_yields_in_order Fixtures.post_events Fixtures.opened
              "a" "message" "1" "b" "message" "2" Fixtures.a_b_close)
    as (Hpulls & Hdone & _); try reflexivity.
  split; [apply (Hpulls 0%nat); cbn; lia |].
  split; [apply (Hpulls 1%nat); cbn; lia |].
  split; [apply (Hpulls 2%nat); cbn; lia | exact Hdone].
Defined.

(** ** Opening the stream *)

(** When the source reports a response that is not [ok], the promise
    returned by [request] is rejected with the error built in [onopen], the
    queue enters its failed state with the same error, and the error is
    thrown back into the source. *)
Lemma open_failure_reaches_both (requestConfig : RequestConfig) (r : OpenResponse) :
  ok r = false ->
  let err := ThrownError (EventSource.open_error r) in
  let st := fst (EventSource.handle (OnOpen r) (EventSource.request requestConfig)) in
  EventSource.outer st = Some (Rejected err)
  /\ AsyncQueue.failure (EventSource.queue st) = Some err
  /\ AsyncQueue.failed (EventSource.queue st) = true
  /\ snd (EventSource.handle (OnOpen r) (EventSource.request requestConfig)) = Some err.
Proof.
  intros Hok. cbn. rewrite Hok. cbn. auto.
Qed.

(** The client never reports that rejection as an HTTP-kind error. *)
Lemma open_failure_never_http (requestConfig : RequestConfig) (r : OpenResponse)
    (ctx : HttpContext) :
  exists e : RequestError,
    fst (finalHandler (Rejected (ThrownError (EventSource.open_error r))) ctx)
    = Rejected (ThrownRequestError e)
    /\ type e <> HTTP.
Proof.
  eexists. split; [reflexivity |]. apply normalizeError_raw_not_http.
Qed.

(** C7, on a source that answers 500 on open: both the promise of [request]
    and the session learn of the failure, but what the promise is rejected
    with is a plain error, which the client's terminal handler turns into an
    error of the unknown kind without a status (of the timeout kind for
    [504 Gateway Timeout]), not of the HTTP kind. *)
Theorem open_failure_kind_at_500 :
  let cfg := Fixtures.get_test in
  let st := fst (EventSource.handle (OnOpen Fixtures.server_error)
                   (EventSource.request cfg)) in
  let err := ThrownError (EventSource.open_error Fixtures.server_error) in
  let reported := normalizeError err (Some cfg) in
  EventSource.outer st = Some (Rejected err)
  /\ AsyncQueue.failed (EventSource.queue st) = true
  /\ AsyncQueue.settlements (AsyncQueue.next (EventSource.queue st)) = [(0%nat, Rejected err)]
  /\ fst (finalHandler (Rejected err) (createHttpContext cfg))
     = Rejected (ThrownRequestError reported)
  /\ type reported = UNKNOWN
  /\ status reported = None
  /\ type reported <> HTTP
  /\ type (normalizeError (ThrownError (EventSource.open_error Fixtures.gateway_timeout)) (Some cfg))
     = TIMEOUT.
Proof. repeat split; try reflexivity; discriminate. Qed.

(** ** Methods other than GET *)





(** * Further properties *)

(** ** The schedule of the retry adapter *)

Section RetryTrace.
Context {S : Type}.
Variable Math_random : nat -> Q.
Variable adapter_request : RequestConfig -> S -> Settled ResponseData * S.
Variable options : Retry.Options.
Variable cfg : RequestConfig.

Let attempts := Retry.attempts Math_random adapter_request options.
Let delay_at (attempt : Z) (r : Q) : Q :=
  Trace.delay_value attempt (Retry.backoff options) (Retry.baseDelay options)
    (Retry.maxDelay options) r.

(** One pass of the loop, spelled out. *)
Lemma attempts_unfold (fuel : nat) (attempt : Z) (lastError : Thrown) (w : Eff.World S) :
  attempt <= Retry.maxRetries options ->
  attempts (Datatypes.S fuel) attempt lastError cfg w
  = let w1 := Eff.mkWorld (snd (adapter_request cfg (Eff.w_env w))) (Eff.w_draws w)
                (Eff.w_trace w ++ [EvCall cfg]) in
    match fst (adapter_request cfg (Eff.w_env w)) with
    | Resolved r => (Resolved r, w1)
    | Rejected e =>
        if (attempt =? Retry.maxRetries options)
           || negb (Retry.checkShouldRetry e attempt (Retry.retryableStatusCodes options)
                      (Retry.shouldRetry options))
        then (Rejected e, w1)
        else attempts fuel (attempt + 1) e cfg (Trace.paused Math_random options attempt e w1)
    end.
Proof.
  intros Htest. unfold attempts; cbn [Retry.attempts].
  apply Z.leb_le in Htest. rewrite Htest.
  unfold Eff.try_catch, Retry.call_adapter, Eff.bind, Eff.emit, Eff.lift.
  cbn [Eff.w_env Eff.w_draws Eff.w_trace].
  destruct (adapter_request cfg (Eff.w_env w)) as [[r | e] s']; cbn [fst snd]; [reflexivity |].
  destruct (attempt =? Retry.maxRetries options); cbn [orb]; [reflexivity |].
  destruct (Retry.checkShouldRetry e attempt _ _); cbn [negb]; [| reflexivity].
  unfold Trace.paused, Trace.delay_value, Retry.calculateDelay, Retry.sleep, Eff.when,
    Eff.emit, Eff.random, Eff.ret, Eff.bind.
  cbn [Eff.w_env Eff.w_draws Eff.w_trace].
  destruct (Retry.backoff options), (Retry.onRetry options);
    cbn [Eff.w_env Eff.w_draws Eff.w_trace List.app];
    rewrite <- ?List.app_assoc; reflexivity.
Qed.

Ltac trivial_trace :=
  repeat split; try reflexivity; try lia;
  try (destruct (Retry.onRetry options); reflexivity);
  try (destruct (Retry.backoff options); cbn; lia).

(** What the loop adds to the trace, when it has the fuel it needs: [n]
    calls, each but the last followed by one observer call (if an observer
    is set) and one sleep of the delay computed for that attempt. *)
Lemma attempts_trace (fuel i : nat) (lastError : Thrown) (w : Eff.World S) :
  (Z.to_nat (Retry.maxRetries options + 1 - Z.of_nat i) <= fuel)%nat ->
  let out := attempts fuel (Z.of_nat i) lastError cfg w in
  exists (n : nat) (new : list Event),
    Eff.w_trace (snd out) = Eff.w_trace w ++ new
    /\ List.length (List.filter is_call new) = n
    /\ Z.of_nat n <= Z.max 0 (Retry.maxRetries options + 1 - Z.of_nat i)
    /\ (Z.of_nat i <= Retry.maxRetries options -> (1 <= n)%nat)
    /\ Trace.sleeps new
       = List.map (fun j => delay_at (Z.of_nat (i + j)) (Math_random (Eff.w_draws w + j)))
           (List.seq 0 (n - 1))
    /\ List.map snd (Trace.observed new)
       = (if Retry.onRetry options
          then List.map (fun j => Z.of_nat (i + j) + 1) (List.seq 0 (n - 1))
          else [])
    /\ Eff.w_draws (snd out)
       = (Eff.w_draws w
          + match Retry.backoff options with exponential => n - 1 | linear => 0 end)%nat.
Proof.
  revert i lastError w. induction fuel as [| fuel IH]; intros i lastError w Hfuel out.
  - exists 0%nat, []. subst out. unfold attempts; cbn.
    rewrite ?List.app_nil_r. trivial_trace.
  - destruct (Z.leb_spec (Z.of_nat i) (Retry.maxRetries options)) as [Htest | Htest].
    2:{ exists 0%nat, []. subst out. unfold attempts; cbn [Retry.attempts].
        replace (Z.of_nat i <=? Retry.maxRetries options) with false
          by (symmetry; apply Z.leb_gt; lia).
        cbn. rewrite ?List.app_nil_r. trivial_trace. }
    subst out. rewrite attempts_unfold by exact Htest. cbn zeta.
    destruct (adapter_request cfg (Eff.w_env w)) as [[r | e] s'] eqn:Hcall; cbn [fst snd].
    + exists 1%nat, [EvCall cfg]. cbn. trivial_trace.
    + destruct ((Z.of_nat i =? Retry.maxRetries options) || negb _) eqn:Hstop.
      * exists 1%nat, [EvCall cfg]. cbn. trivial_trace.
      * apply orb_false_iff in Hstop. destruct Hstop as [Hlast _].
        apply Z.eqb_neq in Hlast.
        replace (Z.of_nat i + 1) with (Z.of_nat (Datatypes.S i)) by lia.
        set (w1 := Eff.mkWorld s' (Eff.w_draws w) (Eff.w_trace w ++ [EvCall cfg])).
        set (w2 := Trace.paused Math_random options (Z.of_nat i) e w1).
        destruct (IH (Datatypes.S i) e w2) as (n & new & Htrace & Hcalls & Hbound & Hsome
                                               & Hsleeps & Hobs & Hdraws); [lia |].
        assert (Hn : (1 <= n)%nat) by (apply Hsome; lia).
        exists (Datatypes.S n),
          ([EvCall cfg]
           ++ (if Retry.onRetry options then [EvOnRetry e (Z.of_nat i + 1)] else [])
           ++ [EvSleep (delay_at (Z.of_nat i) (Math_random (Eff.w_draws w)))] ++ new).
        replace (Datatypes.S n - 1)%nat with (Datatypes.S (n - 1)) by lia.
        split; [| split; [| split; [| split; [| split; [| split]]]]].
        -- rewrite Htrace. unfold w2, Trace.paused, w1, delay_at.
           cbn [Eff.w_trace Eff.w_draws Eff.w_env].
           rewrite <- !List.app_assoc. reflexivity.
        -- rewrite !List.filter_app, !List.length_app, Hcalls.
           destruct (Retry.onRetry options); cbn; lia.
        -- lia.
        -- lia.
        -- unfold Trace.sleeps. rewrite !List.flat_map_app.
           fold (Trace.sleeps new). rewrite Hsleeps.
           cbn [List.seq List.map]. rewrite <- List.seq_shift, List.map_map.
           replace (List.flat_map _ (if Retry.onRetry options then _ else _)) with (@nil Q)
             by (destruct (Retry.onRetry options); reflexivity).
           cbn [List.flat_map List.app]. rewrite !Nat.add_0_r.
           f_equal. apply List.map_ext. intros j.
           replace (i + Datatypes.S j)%nat with (Datatypes.S i + j)%nat by lia.
           unfold w2, Trace.paused, w1, delay_at, Trace.delay_value.
           cbn [Eff.w_draws].
           destruct (Retry.backoff options); [reflexivity |].
           replace (Eff.w_draws w + Datatypes.S j)%nat
             with (Datatypes.S (Eff.w_draws w) + j)%nat by lia.
           reflexivity.
        -- unfold Trace.observed. rewrite !List.flat_map_app, !List.map_app.
           fold (Trace.observed new). rewrite Hobs.
           destruct (Retry.onRetry options); cbn [List.flat_map List.app List.map snd];
             [| reflexivity].
           cbn [List.seq List.map]. rewrite <- List.seq_shift, List.map_map.
           rewrite Nat.add_0_r. f_equal. apply List.map_ext. intros j. lia.
        -- rewrite Hdraws. unfold w2, Trace.paused, w1. cbn [Eff.w_draws].
           destruct (Retry.backoff options); lia.
Qed.

(** The same for [request], which starts the loop at attempt 0. *)
Lemma request_trace (w : Eff.World S) :
  let out := Retry.request Math_random adapter_request options cfg w in
  exists (n : nat) (new : list Event),
    Eff.w_trace (snd out) = Eff.w_trace w ++ new
    /\ List.length (List.filter is_call new) = n
    /\ Z.of_nat n <= Z.max 0 (Retry.maxRetries options + 1)
    /\ (0 <= Retry.maxRetries options -> (1 <= n)%nat)
    /\ Trace.sleeps new
       = List.map (fun j => delay_at (Z.of_nat j) (Math_random (Eff.w_draws w + j)))
           (List.seq 0 (n - 1))
    /\ List.map snd (Trace.observed new)
       = (if Retry.onRetry options
          then List.map (fun j => Z.of_nat j + 1) (List.seq 0 (n - 1))
          else [])
    /\ Eff.w_draws (snd out)
       = (Eff.w_draws w
          + match Retry.backoff options with exponential => n - 1 | linear => 0 end)%nat.
Proof.
  intros out.
  destruct (attempts_trace (Z.to_nat (Retry.maxRetries options + 1)) 0 ThrownUndefined w)
    as (n & new & Htrace & Hcalls & Hbound & Hsome & Hsleeps & Hobs & Hdraws);
    [cbn; lia |].
  change (Z.of_nat 0) with 0 in *. rewrite Z.sub_0_r in Hbound.
  exists n, new. cbn [Nat.add] in Hsleeps, Hobs. auto 10.
Qed.

End RetryTrace.

Lemma calls_app {S : Type} (w w' : Eff.World S) (new : list Event) :
  Eff.w_trace w' = Eff.w_trace w ++ new ->
  Retry.calls w' = (Retry.calls w + List.length (List.filter is_call new))%nat.
Proof.
  intros Htrace. unfold Retry.calls. now rewrite Htrace, List.filter_app, List.length_app.
Qed.

Lemma length_sleeps_app (tr new : list Event) :
  Trace.sleeps (tr ++ new) = Trace.sleeps tr ++ Trace.sleeps new.
Proof. apply List.flat_map_app. Qed.

(** X1: with a budget that is not negative, the retry adapter calls the
    wrapped transport at least once and at most [maxRetries + 1] times,
    whatever the transport does, and it sleeps exactly once between two
    consecutive calls: one sleep less than calls. *)
Theorem retry_adapter_call_budget {S : Type} (Math_random : nat -> Q)
    (adapter_request : RequestConfig -> S -> Settled ResponseData * S)
    (options : Retry.Options) (cfg : RequestConfig) (w : Eff.World S) :
  0 <= Retry.maxRetries options ->
  let out := Retry.request Math_random adapter_request options cfg w in
  exists n : nat,
    Retry.calls (snd out) = (Retry.calls w + n)%nat
    /\ (1 <= n)%nat
    /\ Z.of_nat n <= Retry.maxRetries options + 1
    /\ List.length (Trace.sleeps (Eff.w_trace (snd out)))
       = (List.length (Trace.sleeps (Eff.w_trace w)) + (n - 1))%nat.
Proof.
  intros Hmax out.
  destruct (request_trace Math_random adapter_request options cfg w)
    as (n & new & Htrace & Hcalls & Hbound & Hsome & Hsleeps & _ & _).
  fold out in Htrace. exists n.
  split; [rewrite (calls_app w (snd out) new Htrace), Hcalls; reflexivity |].
  split; [apply Hsome; lia |].
  split; [lia |].
  rewrite Htrace, length_sleeps_app, List.length_app, Hsleeps.
  now rewrite List.length_map, List.length_seq.
Qed.

Lemma retry_adapter_call_budget_witness :
  let out := Retry.request (fun _ => 1 # 2) Samples.always_503 (Retry.with_maxRetries 2)
               Fixtures.get_test Fixtures.start in
  exists n : nat,
    Retry.calls (snd out) = n /\ (1 <= n)%nat /\ Z.of_nat n <= 3.
Proof.
  destruct (retry_adapter_call_budget (fun _ => 1 # 2) Samples.always_503
              (Retry.with_maxRetries 2) Fixtures.get_test Fixtures.start)
    as (n & Hcalls & Hsome & Hbound & _).
  - cbn. lia.
  - exists n. split; [exact Hcalls | split; [exact Hsome | exact Hbound]].
Defined.

(** X2: with a negative [maxRetries] the loop body never runs: the adapter
    rejects with [undefined] (the initial [lastError]) and the transport is
    not called. *)
Theorem retry_adapter_negative_budget {S : Type} (Math_random : nat -> Q)
    (adapter_request : RequestConfig -> S -> Settled ResponseData * S)
    (options : Retry.Options) (cfg : RequestConfig) (w : Eff.World S) :
  Retry.maxRetries options < 0 ->
  Retry.request Math_random adapter_request options cfg w = (Rejected ThrownUndefined, w).
Proof.
  intros Hneg. unfold Retry.request.
  destruct (Z.to_nat (Retry.maxRetries options + 1)) as [| fuel] eqn:Efuel; [reflexivity |].
  cbn [Retry.attempts].
  replace (0 <=? Retry.maxRetries options) with false by (symmetry; apply Z.leb_gt; lia).
  reflexivity.
Qed.

Lemma retry_adapter_negative_budget_witness :
  Retry.request (fun _ => 1 # 2) Samples.always_503 (Retry.with_maxRetries (-1))
    Fixtures.get_test Fixtures.start
  = (Rejected ThrownUndefined, Fixtures.start).
Proof.
  apply (retry_adapter_negative_budget (fun _ => 1 # 2) Samples.always_503
           (Retry.with_maxRetries (-1)) Fixtures.get_test Fixtures.start).
  cbn. lia.
Defined.

(** X3: no delay the adapter sleeps exceeds [maxDelay], under either backoff
    policy, for every transport and every random source. *)
Theorem retry_adapter_delays_capped {S : Type} (Math_random : nat -> Q)
    (adapter_request : RequestConfig -> S -> Settled ResponseData * S)
    (options : Retry.Options) (cfg : RequestConfig) (w : Eff.World S) :
  let out := Retry.request Math_random adapter_request options cfg w in
  exists delays : list Q,
    Trace.sleeps (Eff.w_trace (snd out)) = Trace.sleeps (Eff.w_trace w) ++ delays
    /\ List.Forall (fun d => (d <= Retry.maxDelay options)%Q) delays.
Proof.
  intros out.
  destruct (request_trace Math_random adapter_request options cfg w)
    as (n & new & Htrace & _ & _ & _ & Hsleeps & _ & _).
  fold out in Htrace. exists (Trace.sleeps new).
  split; [rewrite Htrace; apply length_sleeps_app |].
  rewrite Hsleeps. apply List.Forall_forall. intros d Hd.
  apply List.in_map_iff in Hd. destruct Hd as (j & <- & _).
  unfold Trace.delay_value. destruct (Retry.backoff options); apply Q.le_min_r.
Qed.

(** X4: under linear backoff the delays slept are
    [min (baseDelay * 1) maxDelay], [min (baseDelay * 2) maxDelay], ... in
    that order, one per retry, and [Math.random()] is never consulted. *)
Theorem retry_adapter_linear_schedule {S : Type} (Math_random : nat -> Q)
    (adapter_request : RequestConfig -> S -> Settled ResponseData * S)
    (options : Retry.Options) (cfg : RequestConfig) (w : Eff.World S) :
  Retry.backoff options = linear ->
  let out := Retry.request Math_random adapter_request options cfg w in
  let retries := (Retry.calls (snd out) - Retry.calls w - 1)%nat in
  Trace.sleeps (Eff.w_trace (snd out))
  = Trace.sleeps (Eff.w_trace w)
    ++ List.map (fun j => Qmin (Retry.baseDelay options * inject_Z (Z.of_nat j + 1))
                               (Retry.maxDelay options))
         (List.seq 0 retries)
  /\ Eff.w_draws (snd out) = Eff.w_draws w.
Proof.
  intros Hlinear out retries.
  destruct (request_trace Math_random adapter_request options cfg w)
    as (n & new & Htrace & Hcalls & _ & _ & Hsleeps & _ & Hdraws).
  fold out in Htrace, Hdraws.
  assert (Hn : retries = (n - 1)%nat).
  { unfold retries. rewrite (calls_app w (snd out) new Htrace), Hcalls. lia. }
  rewrite Hn. split.
  - rewrite Htrace, length_sleeps_app, Hsleeps. f_equal.
    apply List.map_ext. intros j. unfold Trace.delay_value. now rewrite Hlinear.
  - rewrite Hdraws, Hlinear. lia.
Qed.

Lemma retry_adapter_linear_schedule_witness :
  let out := Retry.request (fun _ => 1 # 2) (Fixtures.fails_twice 503 "Service Unavailable")
               Samples.linear_100 Fixtures.get_test Fixtures.start in
  Trace.sleeps (Eff.w_trace (snd out))
  = [Qmin (100 * inject_Z 1) 30000; Qmin (100 * inject_Z 2) 30000].
Proof.
  apply (retry_adapter_linear_schedule (fun _ => 1 # 2)
           (Fixtures.fails_twice 503 "Service Unavailable")
           Samples.linear_100 Fixtures.get_test Fixtures.start).
  reflexivity.
Defined.

Section RetryShape.
Context {S : Type}.
Variable Math_random : nat -> Q.
Variable adapter_request : RequestConfig -> S -> Settled ResponseData * S.
Variable options : Retry.Options.
Variable cfg : RequestConfig.

(** The events of the loop come in rounds: with the fuel it needs, a loop
    entered at attempt [i] adds a call and then rounds numbered from
    [i + 1], or nothing when its test fails at once. *)
Lemma attempts_shape (fuel i : nat) (lastError : Thrown) (w : Eff.World S) :
  (Z.to_nat (Retry.maxRetries options + 1 - Z.of_nat i) <= fuel)%nat ->
  let out := Retry.attempts Math_random adapter_request options fuel (Z.of_nat i)
               lastError cfg w in
  exists new : list Event,
    Eff.w_trace (snd out) = Eff.w_trace w ++ new
    /\ (Z.of_nat i <= Retry.maxRetries options ->
        exists rest, new = EvCall cfg :: rest
                     /\ retry_rounds (Retry.onRetry options) (Z.of_nat i + 1) rest = true)
    /\ (Retry.maxRetries options < Z.of_nat i -> new = []).
Proof.
  revert i lastError w. induction fuel as [| fuel IH]; intros i lastError w Hfuel out.
  - exists []. subst out. cbn. rewrite List.app_nil_r.
    split; [reflexivity |]. split; [lia | reflexivity].
  - destruct (Z.leb_spec (Z.of_nat i) (Retry.maxRetries options)) as [Htest | Htest].
    2:{ exists []. subst out. cbn [Retry.attempts].
        replace (Z.of_nat i <=? Retry.maxRetries options) with false
          by (symmetry; apply Z.leb_gt; lia).
        cbn. rewrite List.app_nil_r. split; [reflexivity |]. split; [lia | reflexivity]. }
    subst out.
    rewrite (attempts_unfold Math_random adapter_request options cfg) by exact Htest.
    cbn zeta.
    destruct (adapter_request cfg (Eff.w_env w)) as [[r | e] s'] eqn:Hcall; cbn [fst snd].
    + exists [EvCall cfg]. split; [reflexivity |]. split; [| lia].
      intros _. exists []. split; reflexivity.
    + destruct ((Z.of_nat i =? Retry.maxRetries options) || negb _) eqn:Hstop.
      * exists [EvCall cfg]. split; [reflexivity |]. split; [| lia].
        intros _. exists []. split; reflexivity.
      * apply orb_false_iff in Hstop. destruct Hstop as [Hlast _].
        apply Z.eqb_neq in Hlast.
        replace (Z.of_nat i + 1) with (Z.of_nat (Datatypes.S i)) by lia.
        match goal with
        | |- context [Retry.attempts _ _ _ _ _ _ _ ?w2] =>
            destruct (IH (Datatypes.S i) e w2) as (new & Htrace & Hsome & _); [lia |]
        end.
        destruct Hsome as (rest & -> & Hrounds); [lia |].
        exists ([EvCall cfg]
                ++ (if Retry.onRetry options
                    then [EvOnRetry e (Z.of_nat i + 1)] else [])
                ++ [EvSleep (Trace.delay_value (Z.of_nat i) (Retry.backoff options)
                               (Retry.baseDelay options) (Retry.maxDelay options)
                               (Math_random (Eff.w_draws w)))]
                ++ EvCall cfg :: rest).
        split; [| split; [| lia]].
        -- rewrite Htrace. unfold Trace.paused. cbn [Eff.w_trace Eff.w_draws Eff.w_env].
           rewrite <- !List.app_assoc. reflexivity.
        -- intros _. eexists. split; [reflexivity |].
           replace (Z.of_nat (Datatypes.S i)) with (Z.of_nat i + 1) in * by lia.
           destruct (Retry.onRetry options); cbn [List.app retry_rounds negb andb];
             rewrite ?Z.eqb_refl; exact Hrounds.
Qed.

End RetryShape.

(** X5: what a request adds to the trace is a call followed by one round
    per retry, and each round is the [onRetry] observer, then the sleep,
    then the next call: the observer is called once per retry, after the
    failed call and right before the sleep, with the attempt numbers
    1, 2, ... in order; without an observer a round is the sleep and the
    call, and nothing is reported. *)
Theorem retry_adapter_observer_numbers {S : Type} (Math_random : nat -> Q)
    (adapter_request : RequestConfig -> S -> Settled ResponseData * S)
    (options : Retry.Options) (cfg : RequestConfig) (w : Eff.World S) :
  let out := Retry.request Math_random adapter_request options cfg w in
  let retries := (Retry.calls (snd out) - Retry.calls w - 1)%nat in
  (exists new : list Event,
     Eff.w_trace (snd out) = Eff.w_trace w ++ new
     /\ request_shape (Retry.onRetry options) new = true)
  /\ List.map snd (Trace.observed (Eff.w_trace (snd out)))
     = List.map snd (Trace.observed (Eff.w_trace w))
       ++ (if Retry.onRetry options
           then List.map (fun j => Z.of_nat j + 1) (List.seq 0 retries)
           else []).
Proof.
  intros out retries. split.
  - destruct (attempts_shape Math_random adapter_request options cfg
                (Z.to_nat (Retry.maxRetries options + 1)) 0 ThrownUndefined w)
      as (new & Htrace & Hsome & Hnone); [cbn; lia |].
    exists new. split; [exact Htrace |].
    destruct (Z.leb_spec 0 (Retry.maxRetries options)) as [Hbudget | Hbudget].
    + destruct (Hsome Hbudget) as (rest & -> & Hrounds). exact Hrounds.
    + rewrite Hnone by exact Hbudget. reflexivity.
  - destruct (request_trace Math_random adapter_request options cfg w)
      as (n & new & Htrace & Hcalls & _ & _ & _ & Hobs & _).
    fold out in Htrace.
    assert (Hn : retries = (n - 1)%nat).
    { unfold retries. rewrite (calls_app w (snd out) new Htrace), Hcalls. lia. }
    rewrite Hn, Htrace. unfold Trace.observed at 1.
    rewrite List.flat_map_app, List.map_app. fold (Trace.observed (Eff.w_trace w)).
    fold (Trace.observed new). rewrite Hobs. reflexivity.
Qed.

Section RetryExhaust.
Context {S : Type}.
Variable Math_random : nat -> Q.
Variable adapter_request : RequestConfig -> S -> Settled ResponseData * S.
Variable options : Retry.Options.
Variable cfg : RequestConfig.

Lemma calls_paused (attempt : Z) (e : Thrown) (w1 : Eff.World S) :
  Retry.calls (Trace.paused Math_random options attempt e w1) = Retry.calls w1.
Proof.
  unfold Retry.calls, Trace.paused; cbn [Eff.w_trace].
  rewrite !List.filter_app, !List.length_app.
  destruct (Retry.onRetry options); cbn; lia.
Qed.

(** When every call fails with an error that is to be retried, the loop
    uses every attempt that is left and rethrows what the last call threw. *)
Lemma attempts_exhaust (fuel i : nat) (lastError : Thrown) (w : Eff.World S) :
  (forall (s : S) (attempt : Z), exists (e : Thrown) (s' : S),
      adapter_request cfg s = (Rejected e, s')
      /\ Retry.checkShouldRetry e attempt (Retry.retryableStatusCodes options)
           (Retry.shouldRetry options) = true) ->
  Z.of_nat (Datatypes.S fuel) = Retry.maxRetries options + 1 - Z.of_nat i ->
  let out := Retry.attempts Math_random adapter_request options
               (Datatypes.S fuel) (Z.of_nat i) lastError cfg w in
  Retry.calls (snd out) = (Retry.calls w + Datatypes.S fuel)%nat
  /\ exists (s : S) (e : Thrown),
       adapter_request cfg s = (Rejected e, Eff.w_env (snd out))
       /\ fst out = Rejected e.
Proof.
  intros Hall. revert i lastError w.
  induction fuel as [| fuel IH]; intros i lastError w Hfuel out; subst out;
    rewrite attempts_unfold by lia; cbn zeta;
    destruct (Hall (Eff.w_env w) (Z.of_nat i)) as (e & s' & Hcall & Hretry);
    rewrite Hcall; cbn [fst snd].
  - replace (Z.of_nat i =? Retry.maxRetries options) with true
      by (symmetry; apply Z.eqb_eq; lia).
    cbn [orb fst snd Eff.w_env]. split.
    + unfold Retry.calls; cbn [Eff.w_trace].
      rewrite List.filter_app, List.length_app. reflexivity.
    + exists (Eff.w_env w), e. split; [exact Hcall | reflexivity].
  - replace (Z.of_nat i =? Retry.maxRetries options) with false
      by (symmetry; apply Z.eqb_neq; lia).
    rewrite Hretry. cbn [orb negb].
    replace (Z.of_nat i + 1) with (Z.of_nat (Datatypes.S i)) by lia.
    match goal with
    | |- context [Retry.attempts _ _ _ _ _ ?le _ ?w2] =>
        destruct (IH (Datatypes.S i) le w2) as [Hcalls Hlast]; [lia |]
    end.
    split; [| exact Hlast].
    rewrite Hcalls, calls_paused. unfold Retry.calls; cbn [Eff.w_trace].
    rewrite List.filter_app, List.length_app. cbn. lia.
Qed.

End RetryExhaust.

(** X6: if every call of the wrapped transport fails with an error that is
    to be retried, the adapter makes exactly [maxRetries + 1] calls and then
    rejects with the error of the last call. *)
Theorem retry_adapter_exhausts {S : Type} (Math_random : nat -> Q)
    (adapter_request : RequestConfig -> S -> Settled ResponseData * S)
    (options : Retry.Options) (cfg : RequestConfig) (w : Eff.World S) :
  0 <= Retry.maxRetries options ->
  (forall (s : S) (attempt : Z), exists (e : Thrown) (s' : S),
      adapter_request cfg s = (Rejected e, s')
      /\ Retry.checkShouldRetry e attempt (Retry.retryableStatusCodes options)
           (Retry.shouldRetry options) = true) ->
  let out := Retry.request Math_random adapter_request options cfg w in
  Z.of_nat (Retry.calls (snd out)) = Z.of_nat (Retry.calls w) + Retry.maxRetries options + 1
  /\ exists (s : S) (e : Thrown),
       adapter_request cfg s = (Rejected e, Eff.w_env (snd out))
       /\ fst out = Rejected e.
Proof.
  intros Hmax Hall out. subst out. unfold Retry.request.
  destruct (Z.to_nat (Retry.maxRetries options + 1)) as [| fuel] eqn:Efuel; [lia |].
  destruct (attempts_exhaust Math_random adapter_request options cfg fuel 0
              ThrownUndefined w Hall) as [Hcalls Hlast]; [cbn; lia |].
  change (Z.of_nat 0) with 0 in *.
  split; [rewrite Hcalls; lia | exact Hlast].
Qed.

Lemma retry_adapter_exhausts_witness :
  let out := Retry.request (fun _ => 1 # 2) Samples.always_503 (Retry.with_maxRetries 2)
               Fixtures.get_test Fixtures.start in
  Z.of_nat (Retry.calls (snd out)) = 3.
Proof.
  destruct (retry_adapter_exhausts (fun _ => 1 # 2) Samples.always_503
              (Retry.with_maxRetries 2) Fixtures.get_test Fixtures.start)
    as [Hcalls _].
  - cbn. lia.
  - intros s attempt.
    exists (Fixtures.http_error 503 "Service Unavailable"), (Datatypes.S s).
    split; [destruct s; reflexivity | reflexivity].
  - exact Hcalls.
Defined.

Lemma checkShouldRetry_table (error : Thrown) (attempt : Z) (codes : list Z) :
  Retry.checkShouldRetry error attempt codes None = true
  <-> exists e : RequestError,
        error = ThrownRequestError e
        /\ (type e = NETWORK
            \/ type e = TIMEOUT
            \/ (type e = HTTP
                /\ exists s : Z, status e = Some s /\ s <> 0 /\ In s codes)).
Proof.
  unfold Retry.checkShouldRetry, isRetryableError, isRetryable, isAbortedError,
    isHttpError, truthy_number.
  destruct error as [e | raw | str | | ]; cbn;
    try (split; [discriminate | intros (e' & He & _); discriminate]).
  split.
  - intros Hretry. exists e. split; [reflexivity |].
    destruct (type e) eqn:Ety; cbn in Hretry; try discriminate; auto.
    destruct (status e) as [s |] eqn:Est; cbn in Hretry; [| discriminate].
    destruct (s =? 0) eqn:Ez; cbn in Hretry.
    + apply Z.eqb_eq in Ez. subst s. discriminate.
    + apply Z.eqb_neq in Ez. right. right. split; [reflexivity |].
      exists s. repeat split; auto.
      apply List.existsb_exists in Hretry. destruct Hretry as (x & Hin & Hx).
      apply Z.eqb_eq in Hx. now subst.
  - intros (e' & He & Hkind). inversion He; subst e'. clear He.
    destruct Hkind as [-> | [-> | (-> & s & -> & Hnz & Hin)]]; cbn; try reflexivity.
    destruct (s =? 0) eqn:Ez; [apply Z.eqb_eq in Ez; contradiction |]. cbn.
    now apply array_includes_In.
Qed.

(** X7: without a custom predicate, an error is retried exactly when it is a
    typed error of the network or timeout kind, or of the HTTP kind with a
    non-zero status that is in the retryable-status set.  Aborted, parse and
    unknown errors, HTTP errors without a status, and values that are not
    typed errors are never retried. *)
Theorem checkShouldRetry_default (error : Thrown) (attempt : Z) (codes : list Z) :
  Retry.checkShouldRetry error attempt codes None = true
  <-> exists e : RequestError,
        error = ThrownRequestError e
        /\ (type e = NETWORK
            \/ type e = TIMEOUT
            \/ (type e = HTTP
                /\ exists s : Z, status e = Some s /\ s <> 0 /\ In s codes)).
Proof. apply checkShouldRetry_table. Qed.

(** X8: with the default predicate, a first failure that is an aborted,
    parse or unknown typed error, or that is not a typed error at all, is
    rethrown at once: one call, no delay, whatever the budget. *)
Theorem retry_adapter_gives_up_at_once {S : Type} (Math_random : nat -> Q)
    (adapter_request : RequestConfig -> S -> Settled ResponseData * S)
    (options : Retry.Options) (cfg : RequestConfig) (w : Eff.World S)
    (error : Thrown) (s' : S) :
  0 <= Retry.maxRetries options ->
  Retry.shouldRetry options = None ->
  adapter_request cfg (Eff.w_env w) = (Rejected error, s') ->
  (forall e : RequestError, error = ThrownRequestError e ->
     type e = ABORTED \/ type e = PARSE \/ type e = UNKNOWN) ->
  Retry.request Math_random adapter_request options cfg w
  = (Rejected error, Eff.mkWorld s' (Eff.w_draws w) (Eff.w_trace w ++ [EvCall cfg])).
Proof.
  intros Hmax Hcustom Hcall Hkind. unfold Retry.request.
  destruct (Z.to_nat (Retry.maxRetries options + 1)) as [| fuel] eqn:Efuel; [lia |].
  apply attempts_rethrow; [lia | exact Hcall |].
  right. rewrite Hcustom.
  destruct (Retry.checkShouldRetry error 0 (Retry.retryableStatusCodes options) None)
    eqn:Hretry; [| reflexivity].
  apply checkShouldRetry_table in Hretry.
  destruct Hretry as (e & -> & Hretryable).
  destruct (Hkind e eq_refl) as [Hty | [Hty | Hty]];
    destruct Hretryable as [H | [H | [H _]]]; congruence.
Qed.

Lemma retry_adapter_gives_up_at_once_witness :
  Retry.calls (snd (Retry.request (fun _ => 1 # 2) Samples.always_aborted
                      (Retry.with_maxRetries 3) Fixtures.get_test Fixtures.start))
  = 1%nat.
Proof.
  rewrite (retry_adapter_gives_up_at_once (fun _ => 1 # 2) Samples.always_aborted
             (Retry.with_maxRetries 3) Fixtures.get_test Fixtures.start
             (ThrownRequestError (AbortError "Request aborted by user"
                                    (Some Fixtures.get_test))) 1%nat).
  - reflexivity.
  - cbn. lia.
  - reflexivity.
  - reflexivity.
  - intros e He. inversion He. left. reflexivity.
Defined.

(** ** The looping retry middleware ([retryMiddleware.ts]) *)

Section LegacyLoop.
Context {D : Type}.
Variable options : RetryMiddlewareTs.RetryOptions.
Variable next : NextFunction D.

Let loop := RetryMiddlewareTs.loop options next.
Let pause (i : Z) : list Event :=
  if (i <? RetryMiddlewareTs.retries options)
     && negb (Qle_bool (RetryMiddlewareTs.delay options) 0)
  then [EvSleep (RetryMiddlewareTs.delay options)] else [].

(** One pass of the loop, spelled out. *)
Lemma loop_unfold (fuel : nat) (i : Z) (lastError : option Thrown)
    (w : Eff.World (HttpContext * D)) :
  i <= RetryMiddlewareTs.retries options ->
  loop (Datatypes.S fuel) i lastError w
  = let env' := snd (next (Eff.w_env w)) in
    let w1 := Eff.mkWorld env' (Eff.w_draws w) (Eff.w_trace w ++ [EvNext]) in
    match fst (next (Eff.w_env w)) with
    | Resolved _ =>
        if negb (RetryMiddlewareTs.truthy_error (ctx_error (fst env')))
        then (Resolved tt, w1)
        else loop fuel (i + 1) lastError w1
    | Rejected err =>
        loop fuel (i + 1) (Some err)
          (Eff.mkWorld env' (Eff.w_draws w) (Eff.w_trace w ++ [EvNext] ++ pause i))
    end.
Proof.
  intros Htest. unfold loop; cbn [RetryMiddlewareTs.loop].
  apply Z.leb_le in Htest. rewrite Htest.
  unfold Eff.bind at 1. unfold Eff.try_catch, call_next, Eff.bind, Eff.emit, Eff.lift, Eff.get.
  cbn [Eff.w_env Eff.w_draws Eff.w_trace].
  destruct (next (Eff.w_env w)) as [[[] | err] env']; cbn [fst snd Eff.w_env].
  - destruct (RetryMiddlewareTs.truthy_error _); reflexivity.
  - unfold pause, Eff.when, Retry.sleep, Eff.emit, Eff.ret.
    destruct ((i <? RetryMiddlewareTs.retries options) && _);
      cbn [Eff.w_env Eff.w_draws Eff.w_trace];
      rewrite <- ?List.app_assoc, ?List.app_nil_r; reflexivity.
Qed.

(** The continuation is entered at most once per unit of fuel. *)
Lemma loop_calls_bounded (fuel : nat) (i : Z) (lastError : option Thrown)
    (w : Eff.World (HttpContext * D)) :
  (next_calls (snd (loop fuel i lastError w)) <= next_calls w + fuel)%nat.
Proof.
  revert i lastError w. induction fuel as [| fuel IH]; intros i lastError w.
  - unfold loop; cbn. unfold RetryMiddlewareTs.after_loop.
    destruct lastError as [e |]; [destruct (truthy e) |]; cbn; lia.
  - destruct (Z.leb_spec i (RetryMiddlewareTs.retries options)) as [Htest | Htest].
    2:{ unfold loop; cbn [RetryMiddlewareTs.loop].
        replace (i <=? RetryMiddlewareTs.retries options) with false
          by (symmetry; apply Z.leb_gt; lia).
        unfold RetryMiddlewareTs.after_loop.
        destruct lastError as [e |]; [destruct (truthy e) |]; cbn; lia. }
    rewrite loop_unfold by exact Htest. cbn zeta.
    destruct (next (Eff.w_env w)) as [[[] | err] env']; cbn [fst snd].
    + destruct (RetryMiddlewareTs.truthy_error _); cbn [negb].
      * etransitivity; [apply IH |]. rewrite next_calls_snoc. cbn. unfold next_calls. lia.
      * cbn [snd]. rewrite next_calls_snoc. cbn. unfold next_calls. lia.
    + etransitivity; [apply IH |].
      unfold next_calls; cbn [Eff.w_trace].
      rewrite !List.filter_app, !List.length_app. unfold pause.
      destruct (_ && _); cbn; lia.
Qed.

(** Every call throws: all passes are used, each but the last followed by
    the delay if it is positive, and the last error is rethrown if it is
    truthy. *)
Lemma loop_all_fail (fuel i : nat) (lastError : option Thrown)
    (w : Eff.World (HttpContext * D)) :
  (forall env, exists e env', next env = (Rejected e, env')) ->
  Z.of_nat (Datatypes.S fuel) = RetryMiddlewareTs.retries options + 1 - Z.of_nat i ->
  let out := loop (Datatypes.S fuel) (Z.of_nat i) lastError w in
  next_calls (snd out) = (next_calls w + Datatypes.S fuel)%nat
  /\ Trace.sleeps (Eff.w_trace (snd out))
     = Trace.sleeps (Eff.w_trace w)
       ++ List.repeat (RetryMiddlewareTs.delay options)
            (if negb (Qle_bool (RetryMiddlewareTs.delay options) 0) then fuel else 0)
  /\ exists env e,
       next env = (Rejected e, Eff.w_env (snd out))
       /\ fst out = if truthy e then Rejected e else Resolved tt.
Proof.
  intros Hall. revert i lastError w.
  induction fuel as [| fuel IH]; intros i lastError w Hfuel out; subst out;
    rewrite loop_unfold by lia; cbn zeta;
    destruct (Hall (Eff.w_env w)) as (e & env' & Hcall); rewrite Hcall; cbn [fst snd].
  - unfold loop; cbn [RetryMiddlewareTs.loop RetryMiddlewareTs.after_loop].
    unfold pause.
    replace (Z.of_nat i <? RetryMiddlewareTs.retries options) with false
      by (symmetry; apply Z.ltb_ge; lia).
    cbn [andb]. rewrite List.app_nil_r.
    assert (Hrepeat : List.repeat (RetryMiddlewareTs.delay options)
                        (if negb (Qle_bool (RetryMiddlewareTs.delay options) 0)
                         then 0%nat else 0%nat) = [])
      by (destruct (negb _); reflexivity).
    rewrite Hrepeat, List.app_nil_r.
    destruct (truthy e) eqn:Etruthy; cbn [fst snd Eff.w_env Eff.w_trace Eff.throw Eff.ret];
      unfold Eff.throw, Eff.ret; cbn [fst snd Eff.w_env Eff.w_trace];
      (split; [rewrite next_calls_snoc; reflexivity |]);
      (split; [rewrite length_sleeps_app; cbn; now rewrite List.app_nil_r |]);
      exists (Eff.w_env w), e; rewrite Etruthy; split; [exact Hcall | reflexivity
                                                        | exact Hcall | reflexivity].
  - replace (Z.of_nat i + 1) with (Z.of_nat (Datatypes.S i)) by lia.
    match goal with
    | |- context [loop _ _ ?le ?w2] =>
        destruct (IH (Datatypes.S i) le w2) as (Hcalls & Hsleeps & Hlast); [lia |]
    end.
    split; [| split; [| exact Hlast]].
    + rewrite Hcalls. unfold next_calls; cbn [Eff.w_trace].
      rewrite !List.filter_app, !List.length_app. unfold pause.
      destruct (_ && _); cbn; lia.
    + rewrite Hsleeps. cbn [Eff.w_trace]. rewrite !length_sleeps_app.
      unfold pause.
      replace (Z.of_nat i <? RetryMiddlewareTs.retries options) with true
        by (symmetry; apply Z.ltb_lt; lia).
      cbn [andb]. destruct (negb _); cbn; rewrite ?List.app_nil_r;
        rewrite <- ?List.app_assoc; reflexivity.
Qed.

(** Every call resolves but leaves an error in [ctx.error]: all passes are
    used without any delay, and the middleware resolves with the
    [lastError] it started with still in place. *)
Lemma loop_all_stored (fuel : nat) (i : Z) (w : Eff.World (HttpContext * D)) :
  (forall env, exists env',
      next env = (Resolved tt, env')
      /\ RetryMiddlewareTs.truthy_error (ctx_error (fst env')) = true) ->
  Z.of_nat fuel = RetryMiddlewareTs.retries options + 1 - i ->
  let out := loop fuel i None w in
  fst out = Resolved tt
  /\ next_calls (snd out) = (next_calls w + fuel)%nat
  /\ Trace.sleeps (Eff.w_trace (snd out)) = Trace.sleeps (Eff.w_trace w).
Proof.
  intros Hall. revert i w.
  induction fuel as [| fuel IH]; intros i w Hfuel out; subst out.
  - unfold loop; cbn. rewrite Nat.add_0_r. auto.
  - rewrite loop_unfold by lia. cbn zeta.
    destruct (Hall (Eff.w_env w)) as (env' & Hcall & Hstored).
    rewrite Hcall; cbn [fst snd]. rewrite Hstored. cbn [negb].
    match goal with
    | |- context [loop _ _ _ ?w1] =>
        destruct (IH (i + 1) w1) as (Hres & Hcalls & Hsleeps); [lia |]
    end.
    split; [exact Hres |]. split.
    + rewrite Hcalls, next_calls_snoc. cbn. unfold next_calls. lia.
    + rewrite Hsleeps. cbn [Eff.w_trace]. rewrite length_sleeps_app. cbn.
      now rewrite List.app_nil_r.
Qed.

(** The loop test bounds the calls, however many passes are allowed. *)
Lemma loop_calls_by_test (fuel : nat) (i : Z) (lastError : option Thrown)
    (w : Eff.World (HttpContext * D)) :
  (next_calls (snd (loop fuel i lastError w))
   <= next_calls w + Z.to_nat (RetryMiddlewareTs.retries options + 1 - i))%nat.
Proof.
  revert i lastError w. induction fuel as [| fuel IH]; intros i lastError w.
  - unfold loop; cbn. unfold RetryMiddlewareTs.after_loop.
    destruct lastError as [e |]; [destruct (truthy e) |]; cbn; lia.
  - destruct (Z.leb_spec i (RetryMiddlewareTs.retries options)) as [Htest | Htest].
    2:{ unfold loop; cbn [RetryMiddlewareTs.loop].
        replace (i <=? RetryMiddlewareTs.retries options) with false
          by (symmetry; apply Z.leb_gt; lia).
        unfold RetryMiddlewareTs.after_loop.
        destruct lastError as [e |]; [destruct (truthy e) |]; cbn; lia. }
    rewrite loop_unfold by exact Htest. cbn zeta.
    destruct (next (Eff.w_env w)) as [[[] | err] env']; cbn [fst snd].
    + destruct (RetryMiddlewareTs.truthy_error _); cbn [negb].
      * etransitivity; [apply IH |]. rewrite next_calls_snoc. cbn. unfold next_calls. lia.
      * cbn [snd]. rewrite next_calls_snoc. cbn. unfold next_calls. lia.
    + etransitivity; [apply IH |].
      unfold next_calls; cbn [Eff.w_trace].
      rewrite !List.filter_app, !List.length_app. unfold pause.
      destruct (_ && _); cbn; lia.
Qed.

(** Once the loop test can no longer hold within the passes allowed, one
    more allowed pass changes nothing. *)
Lemma loop_fuel (fuel : nat) (i : Z) (lastError : option Thrown)
    (w : Eff.World (HttpContext * D)) :
  (Z.to_nat (RetryMiddlewareTs.retries options + 1 - i) <= fuel)%nat ->
  loop (Datatypes.S fuel) i lastError w = loop fuel i lastError w.
Proof.
  revert i lastError w. induction fuel as [| fuel IH]; intros i lastError w Hfuel.
  - unfold loop; cbn [RetryMiddlewareTs.loop].
    replace (i <=? RetryMiddlewareTs.retries options) with false
      by (symmetry; apply Z.leb_gt; lia).
    reflexivity.
  - destruct (Z.leb_spec i (RetryMiddlewareTs.retries options)) as [Htest | Htest].
    2:{ unfold loop; cbn [RetryMiddlewareTs.loop].
        replace (i <=? RetryMiddlewareTs.retries options) with false
          by (symmetry; apply Z.leb_gt; lia).
        reflexivity. }
    rewrite (loop_unfold (Datatypes.S fuel)), (loop_unfold fuel) by exact Htest.
    cbn zeta.
    destruct (next (Eff.w_env w)) as [[[] | err] env']; cbn [fst snd].
    + destruct (RetryMiddlewareTs.truthy_error _); cbn [negb]; [| reflexivity].
      apply IH. lia.
    + apply IH. lia.
Qed.

(** [createRetryMiddleware] allows the loop all the passes it can use. *)
Lemma legacy_fuel_enough (extra : nat) (w : Eff.World (HttpContext * D)) :
  loop (Z.to_nat (RetryMiddlewareTs.retries options + 1) + extra) 0 None w
  = RetryMiddlewareTs.createRetryMiddleware options next w.
Proof.
  unfold RetryMiddlewareTs.createRetryMiddleware. fold loop.
  induction extra as [| extra IH]; [now rewrite Nat.add_0_r |].
  rewrite Nat.add_succ_r, loop_fuel by lia. exact IH.
Qed.

End LegacyLoop.

(** X9: the looping middleware of [retryMiddleware.ts] enters its
    continuation at most [retries + 1] times, whatever the continuation
    does, and it is the loop's own test [i <= retries] that stops it: the
    bound holds however many passes the loop is allowed, and allowing it more
    than [retries + 1] passes changes nothing of the run. *)
Theorem legacy_retry_calls_bounded {D : Type} (options : RetryMiddlewareTs.RetryOptions)
    (next : NextFunction D) (w : Eff.World (HttpContext * D)) :
  (forall fuel : nat,
     (next_calls (snd (RetryMiddlewareTs.loop options next fuel 0 None w))
      <= next_calls w + Z.to_nat (RetryMiddlewareTs.retries options + 1))%nat)
  /\ (forall extra : nat,
        RetryMiddlewareTs.loop options next
          (Z.to_nat (RetryMiddlewareTs.retries options + 1) + extra) 0 None w
        = RetryMiddlewareTs.createRetryMiddleware options next w)
  /\ (next_calls (snd (RetryMiddlewareTs.createRetryMiddleware options next w))
      <= next_calls w + Z.to_nat (RetryMiddlewareTs.retries options + 1))%nat.
Proof.
  split; [| split].
  - intros fuel.
    pose proof (loop_calls_by_test options next fuel 0 None w) as Hbound.
    now rewrite Z.sub_0_r in Hbound.
  - intros extra. apply legacy_fuel_enough.
  - pose proof (loop_calls_by_test options next
                  (Z.to_nat (RetryMiddlewareTs.retries options + 1)) 0 None w) as Hbound.
    now rewrite Z.sub_0_r in Hbound.
Qed.

(** X10: when every call of the continuation throws, the looping middleware
    calls it exactly [retries + 1] times, sleeps [delay] after each failure
    but the last (not at all when [delay] is not positive), and then rethrows
    the last error; a falsy last error is dropped and the middleware
    resolves. *)
Theorem legacy_retry_exhausts {D : Type} (options : RetryMiddlewareTs.RetryOptions)
    (next : NextFunction D) (w : Eff.World (HttpContext * D)) :
  0 <= RetryMiddlewareTs.retries options ->
  (forall env, exists e env', next env = (Rejected e, env')) ->
  let out := RetryMiddlewareTs.createRetryMiddleware options next w in
  Z.of_nat (next_calls (snd out))
  = Z.of_nat (next_calls w) + RetryMiddlewareTs.retries options + 1
  /\ Trace.sleeps (Eff.w_trace (snd out))
     = Trace.sleeps (Eff.w_trace w)
       ++ List.repeat (RetryMiddlewareTs.delay options)
            (if negb (Qle_bool (RetryMiddlewareTs.delay options) 0)
             then Z.to_nat (RetryMiddlewareTs.retries options) else 0)
  /\ exists env e,
       next env = (Rejected e, Eff.w_env (snd out))
       /\ fst out = if truthy e then Rejected e else Resolved tt.
Proof.
  intros Hretries Hall out. subst out. unfold RetryMiddlewareTs.createRetryMiddleware.
  destruct (Z.to_nat (RetryMiddlewareTs.retries options + 1)) as [| fuel] eqn:Efuel; [lia |].
  destruct (loop_all_fail options next fuel 0 None w Hall) as (Hcalls & Hsleeps & Hlast);
    [cbn; lia |].
  change (Z.of_nat 0) with 0 in *.
  replace (Z.to_nat (RetryMiddlewareTs.retries options)) with fuel by lia.
  split; [rewrite Hcalls; lia | split; [exact Hsleeps | exact Hlast]].
Qed.

Lemma legacy_retry_exhausts_witness :
  let out := RetryMiddlewareTs.createRetryMiddleware
               (RetryMiddlewareTs.mkRetryOptions 2 200) Fixtures.next_boom
               Fixtures.dispatch_start in
  Z.of_nat (next_calls (snd out)) = 3
  /\ Trace.sleeps (Eff.w_trace (snd out)) = [200%Q; 200%Q].
Proof.
  destruct (legacy_retry_exhausts (RetryMiddlewareTs.mkRetryOptions 2 200)
              Fixtures.next_boom Fixtures.dispatch_start) as (Hcalls & Hsleeps & _).
  - cbn. lia.
  - intros env. exists (ThrownError (new_Error "boom")), env. reflexivity.
  - split; [exact Hcalls | exact Hsleeps].
Defined.

(** X11: when every call of the continuation resolves but leaves an error
    in [ctx.error], the looping middleware calls it [retries + 1] times
    without any delay and then resolves: the stored error is not thrown. *)
Theorem legacy_retry_swallows_stored_error {D : Type}
    (options : RetryMiddlewareTs.RetryOptions)
    (next : NextFunction D) (w : Eff.World (HttpContext * D)) :
  0 <= RetryMiddlewareTs.retries options ->
  (forall env, exists env',
      next env = (Resolved tt, env')
      /\ RetryMiddlewareTs.truthy_error (ctx_error (fst env')) = true) ->
  let out := RetryMiddlewareTs.createRetryMiddleware options next w in
  fst out = Resolved tt
  /\ Z.of_nat (next_calls (snd out))
     = Z.of_nat (next_calls w) + RetryMiddlewareTs.retries options + 1
  /\ Trace.sleeps (Eff.w_trace (snd out)) = Trace.sleeps (Eff.w_trace w).
Proof.
  intros Hretries Hall out. subst out. unfold RetryMiddlewareTs.createRetryMiddleware.
  destruct (loop_all_stored options next
              (Z.to_nat (RetryMiddlewareTs.retries options + 1)) 0 w Hall)
    as (Hres & Hcalls & Hsleeps); [lia |].
  split; [exact Hres | split; [rewrite Hcalls; lia | exact Hsleeps]].
Qed.

Lemma legacy_retry_swallows_stored_error_witness :
  let out := RetryMiddlewareTs.createRetryMiddleware
               RetryMiddlewareTs.default_options Samples.next_leaves_error
               Fixtures.dispatch_start in
  fst out = Resolved tt /\ Z.of_nat (next_calls (snd out)) = 3.
Proof.
  destruct (legacy_retry_swallows_stored_error RetryMiddlewareTs.default_options
              Samples.next_leaves_error Fixtures.dispatch_start)
    as (Hres & Hcalls & _).
  - cbn. lia.
  - intros env. eexists. split; reflexivity.
  - split; [exact Hres | exact Hcalls].
Defined.

(** ** More about the taxonomy *)

(** X12: an error built by [createHttpError] is of the HTTP kind and carries
    its status; it is a client error exactly for 400..499, a server error
    exactly from 500 on, never both, and it is retryable exactly when it is a
    server error. *)
Theorem http_error_classes (st : Z) (stText : string) (cfg : option RequestConfig)
    (resp : option ResponseData) :
  let e := createHttpError st stText cfg resp in
  type e = HTTP
  /\ status e = Some st
  /\ (isClientError e = true <-> 400 <= st < 500)
  /\ (isServerError e = true <-> 500 <= st)
  /\ isClientError e && isServerError e = false
  /\ isRetryable e = isServerError e.
Proof.
  cbn zeta. unfold isClientError, isServerError, isRetryable, truthy_number.
  cbn [createHttpError HttpError type status RequestErrorType_eqb andb].
  split; [reflexivity |]. split; [reflexivity |].
  split; [rewrite andb_true_iff, Z.leb_le, Z.ltb_lt; reflexivity |].
  split; [apply Z.leb_le |].
  split.
  - destruct (Z.leb_spec 400 st), (Z.ltb_spec st 500), (Z.leb_spec 500 st);
      cbn; try reflexivity; lia.
  - destruct (Z.eqb_spec st 0), (Z.leb_spec 500 st); cbn; try reflexivity; lia.
Qed.

(** X13: [normalizeError] keeps the message of a raw error object, except
    for an abort-signal exception, whose message becomes [Request aborted];
    it attaches the request description it is given, and the result never
    carries a status. *)
Theorem normalizeError_keeps_message (e : RawError) (cfg : option RequestConfig) :
  let normalized := normalizeError (ThrownError e) cfg in
  message normalized
  = (if Taxonomy.abort_signal_exception e then "Request aborted" else raw_message e)
  /\ config normalized = cfg
  /\ status normalized = None.
Proof.
  unfold normalizeError, Taxonomy.abort_signal_exception.
  destruct (raw_cls e); cbn [andb];
    repeat match goal with
           | |- context [if ?b then _ else _] => destruct b eqn:?; cbn
           end; auto; try discriminate.
Qed.

(** X14: whether a normalised raw error is retried by default does not
    depend on the retryable-status set: it is retried exactly when its kind
    is network or timeout. *)
Theorem normalized_raw_error_retry (e : RawError) (cfg : option RequestConfig)
    (attempt : Z) (codes : list Z) :
  let normalized := normalizeError (ThrownError e) cfg in
  Retry.checkShouldRetry (ThrownRequestError normalized) attempt codes None
  = isRetryable normalized
  /\ (isRetryable normalized = true
      <-> Taxonomy.first_match Taxonomy.rules e = NETWORK
          \/ Taxonomy.first_match Taxonomy.rules e = TIMEOUT).
Proof.
  cbn zeta.
  pose proof (normalizeError_raw_kind e cfg) as Hkind.
  assert (Hstatus : status (normalizeError (ThrownError e) cfg) = None).
  { unfold normalizeError.
    repeat match goal with
           | |- context [if ?b then _ else _] => destruct b; cbn
           end; reflexivity. }
  unfold Retry.checkShouldRetry, isRetryable, isAbortedError, isHttpError.
  rewrite Hstatus, Hkind. cbn [truthy_number].
  destruct (Taxonomy.first_match Taxonomy.rules e) eqn:Ematch; cbn;
    (split; [reflexivity |]); split; intros H;
    try discriminate; try reflexivity; auto;
    destruct H as [H | H]; discriminate.
Qed.

(** ** Building the URL *)

Lemma strip_trailing_slash_added (s : string) :
  Url.strip_trailing_slash (s ++ "/") = s.
Proof.
  induction s as [| c s IH]; [reflexivity |].
  destruct s as [| c' s']; [reflexivity |].
  change (Url.strip_trailing_slash (String c (String c' s') ++ "/"))
    with (String c (Url.strip_trailing_slash (String c' s' ++ "/"))).
  now rewrite IH.
Qed.

Lemma strip_trailing_slash_none (s : string) :
  Url.last s <> Some "/"%char -> Url.strip_trailing_slash s = s.
Proof.
  induction s as [| c s IH]; intros Hlast; [reflexivity |].
  destruct s as [| c' s].
  - cbn in *. destruct (Ascii.eqb_spec c "/") as [-> | Hne]; [contradiction | reflexivity].
  - change (Url.strip_trailing_slash (String c (String c' s)))
      with (String c (Url.strip_trailing_slash (String c' s))).
    rewrite IH; [reflexivity | exact Hlast].
Qed.

Lemma strip_leading_slash_none (url : string) :
  String.get 0 url <> Some "/"%char -> Url.strip_leading_slash url = url.
Proof.
  destruct url as [| c url]; [reflexivity |]. cbn.
  destruct (Ascii.eqb_spec c "/") as [-> | Hne]; [contradiction | reflexivity].
Qed.

Lemma truthy_string_slash (base : string) :
  Url.truthy_string (Some (base ++ "/")%string) = true.
Proof.
  cbn. destruct (String.eqb_spec (base ++ "/")%string ""); [| reflexivity].
  destruct base; discriminate.
Qed.

(** X15: the join of a base and a URL that is not absolute removes exactly
    one trailing slash of the base and exactly one leading slash of the URL,
    if they are there, and puts one slash in between; the query is appended
    to the joined URL.  So a base without a trailing slash or with one, and a
    URL without a leading slash or with one, give the same URL in all four
    combinations, with exactly one slash at the joint; any further slash is
    kept (the base [a//] and the URL [x] give [a//x]). *)
Theorem buildUrl_join_slashes (serialize : list (string * string) -> string)
    (base url : string) (params : option Url.Params) :
  let joined := Url.buildUrl serialize (base ++ "/" ++ url)%string params None in
  Url.buildUrl serialize ("/" ++ url) params (Some (base ++ "/")%string) = joined
  /\ (String.get 0 url <> Some "/"%char -> Url.absolute url = false ->
      Url.buildUrl serialize url params (Some (base ++ "/")%string) = joined)
  /\ (base <> "" -> Url.last base <> Some "/"%char ->
      Url.buildUrl serialize ("/" ++ url) params (Some base) = joined)
  /\ (base <> "" -> Url.last base <> Some "/"%char ->
      String.get 0 url <> Some "/"%char -> Url.absolute url = false ->
      Url.buildUrl serialize url params (Some base) = joined).
Proof.
  intros joined. subst joined.
  assert (Htruthy : base <> "" -> Url.truthy_string (Some base) = true).
  { intros Hbase. cbn. destruct (String.eqb_spec base ""); [contradiction | reflexivity]. }
  assert (Habsolute : Url.absolute url = false ->
            String.prefix "http://" url = false /\ String.prefix "https://" url = false).
  { unfold Url.absolute. intros Habs. now apply orb_false_iff in Habs. }
  split; [| split; [| split]].
  - unfold Url.buildUrl. rewrite truthy_string_slash, strip_trailing_slash_added.
    reflexivity.
  - intros Hlead Habs. destruct (Habsolute Habs) as [Hhttp Hhttps].
    unfold Url.buildUrl.
    rewrite truthy_string_slash, Hhttp, Hhttps, strip_trailing_slash_added,
      strip_leading_slash_none by exact Hlead.
    reflexivity.
  - intros Hbase Htrail. unfold Url.buildUrl.
    rewrite (Htruthy Hbase), strip_trailing_slash_none by exact Htrail.
    reflexivity.
  - intros Hbase Htrail Hlead Habs. destruct (Habsolute Habs) as [Hhttp Hhttps].
    unfold Url.buildUrl.
    rewrite (Htruthy Hbase), Hhttp, Hhttps, strip_trailing_slash_none,
      strip_leading_slash_none by assumption.
    reflexivity.
Qed.

Lemma buildUrl_join_slashes_witness :
  Url.buildUrl (fun _ => "") "users" None (Some "https://api.example.com")
  = "https://api.example.com/users"
  /\ Url.buildUrl (fun _ => "") "users" None (Some "https://api.example.com//")
     = "https://api.example.com//users".
Proof.
  destruct (buildUrl_join_slashes (fun _ => "") "https://api.example.com" "users" None)
    as (_ & _ & _ & Hplain).
  destruct (buildUrl_join_slashes (fun _ => "") "https://api.example.com/" "users" None)
    as (_ & Hdouble & _).
  split.
  - apply Hplain; [discriminate | discriminate | discriminate | reflexivity].
  - apply Hdouble; [discriminate | reflexivity].
Defined.

(** ** Every reachable queue is well formed *)

Section QueueWf.
Context {T : Type}.
Implicit Types (q : AsyncQueue.Queue T) (ops : list (AsyncQueue.Op T)).

Lemma createAsyncQueue_wf : queue_wf (@AsyncQueue.createAsyncQueue T).
Proof.
  unfold queue_wf; cbn. repeat split; try constructor; try contradiction; discriminate.
Qed.

Lemma NoDup_snoc (ids : list nat) (id : nat) :
  List.NoDup ids -> ~ In id ids -> List.NoDup (ids ++ [id]).
Proof.
  intros Hnd Hnew. apply List.NoDup_app; [exact Hnd | repeat constructor; intros [] | ].
  intros x Hx [<- | []]. contradiction.
Qed.

Lemma step_wf q op : queue_wf q -> queue_wf (AsyncQueue.step q op).
Proof.
  destruct q as [c f vs rs rj dr d n log].
  unfold queue_wf; cbn [AsyncQueue.isClosed AsyncQueue.failure AsyncQueue.values
    AsyncQueue.resolveNext AsyncQueue.rejectNext AsyncQueue.doneResolve AsyncQueue.done
    AsyncQueue.issued AsyncQueue.settlements].
  intros (Hpair & Hnd & Hlt & Hpend & Hdone & Hres). subst rj dr.
  assert (Hfresh : ~ In n (List.map fst log))
    by (intros Hin; apply Hlt in Hin; lia).
  unfold AsyncQueue.failed in Hpend; cbn in Hpend.
  destruct rs as [p |];
    [destruct (Hpend p eq_refl) as (Hp & Hnew & Hc & Hf & Hv); subst c vs |];
    clear Hpend.
  - (* a pull is suspended *)
    assert (Hfailed : AsyncQueue.failed
              (AsyncQueue.mkQueue false f [] (Some p) (Some p) (negb d) d n log) = false)
      by exact Hf.
    destruct f as [e |]; cbn in Hdone; subst d;
      destruct op as [value | | err |]; cbn [AsyncQueue.step];
      unfold AsyncQueue.push, AsyncQueue.close, AsyncQueue.fail, AsyncQueue.next,
        AsyncQueue.fresh;
      cbn [AsyncQueue.isClosed AsyncQueue.failure AsyncQueue.values
        AsyncQueue.resolveNext AsyncQueue.rejectNext AsyncQueue.doneResolve
        AsyncQueue.done AsyncQueue.issued AsyncQueue.settlements];
      unfold AsyncQueue.failed in *; cbn in Hf |- *; rewrite ?Hf; cbn;
      rewrite ?List.map_app; cbn;
      repeat split; intros;
      try match goal with H : Some _ = Some _ |- _ => injection H as <- end;
      auto using NoDup_snoc; try discriminate; try lia;
      try match goal with
          | H : In _ (_ ++ _) |- _ =>
              apply List.in_app_iff in H; destruct H as [H | [<- | []]]
          end;
      try match goal with H : In _ (List.map fst log) |- _ => apply Hlt in H end;
      lia.
  - (* no pull is suspended *)
    destruct f as [e |]; [destruct (truthy e) eqn:Etruthy |];
      destruct c; cbn in Hdone; subst d;
      destruct op as [value | | err |]; cbn [AsyncQueue.step];
      unfold AsyncQueue.push, AsyncQueue.close, AsyncQueue.fail, AsyncQueue.next,
        AsyncQueue.fresh, AsyncQueue.failed;
      cbn [AsyncQueue.isClosed AsyncQueue.failure AsyncQueue.values
        AsyncQueue.resolveNext AsyncQueue.rejectNext AsyncQueue.doneResolve
        AsyncQueue.done AsyncQueue.issued AsyncQueue.settlements];
      rewrite ?Etruthy; cbn; try (destruct vs as [| v rest]; cbn);
      rewrite ?List.map_app; cbn;
      repeat split; intros;
      try match goal with H : Some _ = Some _ |- _ => injection H as <- end;
      auto using NoDup_snoc; try discriminate; try lia;
      try match goal with
          | H : In _ (_ ++ _) |- _ =>
              apply List.in_app_iff in H; destruct H as [H | [<- | []]]
          end;
      try match goal with H : In _ (List.map fst log) |- _ => apply Hlt in H end;
      lia.
Qed.

Lemma run_wf ops q : queue_wf q -> queue_wf (AsyncQueue.run ops q).
Proof.
  revert q. induction ops as [| op ops IH]; intros q Hwf; [exact Hwf |].
  rewrite run_cons. apply IH, step_wf, Hwf.
Qed.

Lemma reachable_wf ops : queue_wf (AsyncQueue.run ops (@AsyncQueue.createAsyncQueue T)).
Proof. apply run_wf, createAsyncQueue_wf. Qed.

End QueueWf.

(** ** What the consumer of a queue can rely on *)

Section QueueGuarantees.
Context {T : Type}.
Implicit Types (q : AsyncQueue.Queue T) (ops : list (AsyncQueue.Op T)).

Lemma find_unsettled (log : list (nat * Settled (IteratorResult T))) (p : nat) :
  ~ In p (List.map fst log) ->
  List.find (fun s => Nat.eqb (fst s) p) log = None.
Proof.
  induction log as [| [id r] log IH]; intros Hnew; [reflexivity |].
  cbn in *. destruct (Nat.eqb_spec id p) as [-> | _]; [tauto |].
  apply IH. tauto.
Qed.

Lemma find_settled_last (log : list (nat * Settled (IteratorResult T))) (p : nat)
    (r : Settled (IteratorResult T)) :
  ~ In p (List.map fst log) ->
  List.find (fun s => Nat.eqb (fst s) p) (log ++ [(p, r)]) = Some (p, r).
Proof.
  induction log as [| [id r'] log IH]; intros Hnew; cbn in *.
  - now rewrite Nat.eqb_refl.
  - destruct (Nat.eqb_spec id p) as [-> | _]; [tauto |]. apply IH. tauto.
Qed.

Lemma outcome_settled q id :
  AsyncQueue.outcome q id <> None -> In id (List.map fst (AsyncQueue.settlements q)).
Proof.
  unfold AsyncQueue.outcome. intros Hsome.
  destruct (List.find _ _) as [[id' r] |] eqn:Efind; [| contradiction].
  apply List.find_some in Efind. destruct Efind as [Hin Heq]. cbn in Heq.
  apply Nat.eqb_eq in Heq. subst id'.
  apply List.in_map_iff. exists (id, r). auto.
Qed.

Lemma step_orphan p q op : orphan p q -> orphan p (AsyncQueue.step q op).
Proof.
  destruct q as [c f vs rs rj dr d n log]. unfold orphan; cbn.
  intros (Hnew & Hrs & Hrj & Hp).
  destruct op as [value | | err |]; cbn [AsyncQueue.step];
    unfold AsyncQueue.push, AsyncQueue.close, AsyncQueue.fail, AsyncQueue.next,
      AsyncQueue.fresh, AsyncQueue.failed, AsyncQueue.settleDone; cbn;
    repeat match goal with
           | |- context [if ?b then _ else _] => destruct b; cbn
           | |- context [match ?x with _ => _ end] => destruct x; cbn
           end;
    rewrite ?List.map_app; cbn; repeat split; auto; try discriminate; try lia;
    try (intros Hin; apply List.in_app_iff in Hin;
         destruct Hin as [Hin | [<- | []]]; try contradiction; try lia; congruence);
    try (intros Heq; injection Heq as <-; lia).
Qed.

Lemma run_orphan p ops q : orphan p q -> orphan p (AsyncQueue.run ops q).
Proof.
  revert q. induction ops as [| op ops IH]; intros q Horphan; [exact Horphan |].
  rewrite run_cons. apply IH, step_orphan, Horphan.
Qed.

Lemma next_over_suspended q p :
  queue_wf q -> AsyncQueue.resolveNext q = Some p -> orphan p (AsyncQueue.next q).
Proof.
  destruct q as [c f vs rs rj dr d n log]. unfold queue_wf, orphan; cbn.
  intros (Hpair & _ & _ & Hpend & _) Hrs. subst rs rj.
  destruct (Hpend p eq_refl) as (Hp & Hnew & Hc & Hf & Hv). subst c vs.
  unfold AsyncQueue.next, AsyncQueue.fresh, AsyncQueue.failed in *.
  cbn in Hf |- *. rewrite Hf. cbn.
  repeat split; auto; intros Heq; injection Heq as <-; lia.
Qed.

Lemma step_done q op :
  AsyncQueue.done q
  = AsyncQueue.isClosed q
    || match AsyncQueue.failure q with Some _ => true | None => false end ->
  AsyncQueue.doneResolve q = negb (AsyncQueue.done q) ->
  AsyncQueue.done (AsyncQueue.step q op) = AsyncQueue.done q || is_terminal op.
Proof.
  destruct q as [c f vs rs rj dr d n log]; cbn. intros -> ->.
  destruct op as [value | | err |]; cbn [AsyncQueue.step];
    unfold AsyncQueue.push, AsyncQueue.close, AsyncQueue.fail, AsyncQueue.next,
      AsyncQueue.fresh, AsyncQueue.failed, AsyncQueue.settleDone, is_terminal; cbn;
    destruct c, f as [e |]; cbn; try destruct (truthy e); cbn;
    try destruct vs; cbn; try destruct rs; cbn; try destruct rj; cbn; reflexivity.
Qed.

End QueueGuarantees.

(** X16: whatever the producer and the consumer do to a queue, in whatever
    order, a promise returned by [next()] is settled at most once, and only
    promises that [next()] has handed out are settled. *)
Theorem queue_settles_each_pull_once {T : Type} (ops : list (AsyncQueue.Op T)) :
  let q := AsyncQueue.run ops AsyncQueue.createAsyncQueue in
  List.NoDup (List.map fst (AsyncQueue.settlements q))
  /\ (forall id, AsyncQueue.outcome q id <> None -> (id < AsyncQueue.pulls ops)%nat).
Proof.
  intros q. destruct (reachable_wf ops) as (_ & Hnd & Hlt & _). fold q in Hnd, Hlt.
  split; [exact Hnd |].
  intros id Hsome. apply outcome_settled, Hlt in Hsome.
  unfold q in Hsome. rewrite issued_run in Hsome. exact Hsome.
Qed.

(** X17: a pull that overlaps a suspended one makes the earlier promise
    unreachable: when [next()] is called while the promise [p] of an earlier
    [next()] is still pending, the resolver slots are overwritten and [p] is
    never settled, whatever happens to the queue afterwards. *)
Theorem overlapping_pull_is_lost {T : Type} (ops later : list (AsyncQueue.Op T))
    (p : nat) :
  AsyncQueue.resolveNext (AsyncQueue.run ops AsyncQueue.createAsyncQueue) = Some p ->
  AsyncQueue.outcome
    (AsyncQueue.run (ops ++ AsyncQueue.Next :: later) AsyncQueue.createAsyncQueue) p
  = None.
Proof.
  intros Hpending. rewrite run_app, run_cons. cbn [AsyncQueue.step].
  pose proof (next_over_suspended _ p (reachable_wf ops) Hpending) as Horphan.
  apply (run_orphan p later) in Horphan. destruct Horphan as [Hnew _].
  unfold AsyncQueue.outcome. now rewrite find_unsettled.
Qed.

Lemma overlapping_pull_is_lost_witness :
  AsyncQueue.outcome
    (AsyncQueue.run ([AsyncQueue.Next]
                     ++ AsyncQueue.Next :: [AsyncQueue.Push "a"; AsyncQueue.Close])
       AsyncQueue.createAsyncQueue) 0%nat
  = None.
Proof.
  apply (overlapping_pull_is_lost [AsyncQueue.Next]
           [AsyncQueue.Push "a"; AsyncQueue.Close] 0%nat).
  reflexivity.
Defined.

Lemma closed_run {T : Type} (ops : list (AsyncQueue.Op T)) (q : AsyncQueue.Queue T) :
  AsyncQueue.isClosed q = true -> AsyncQueue.isClosed (AsyncQueue.run ops q) = true.
Proof.
  revert q. induction ops as [| op ops IH]; intros q Hclosed; [exact Hclosed |].
  rewrite run_cons. apply IH.
  destruct q as [c f vs rs rj dr d n log]. cbn in Hclosed. subst c.
  destruct op as [value | | err |]; cbn [AsyncQueue.step];
    unfold AsyncQueue.push, AsyncQueue.close, AsyncQueue.fail, AsyncQueue.next,
      AsyncQueue.fresh, AsyncQueue.failed, AsyncQueue.settleDone; cbn;
    repeat match goal with
           | |- context [if ?b then _ else _] => destruct b; cbn
           | |- context [match ?x with _ => _ end] => destruct x; cbn
           end; reflexivity.
Qed.

Lemma closed_close {T : Type} (q : AsyncQueue.Queue T) :
  AsyncQueue.isClosed (AsyncQueue.close q) = true.
Proof.
  destruct q as [c f vs rs rj dr d n log].
  unfold AsyncQueue.close, AsyncQueue.settleDone; cbn.
  destruct c, rs, dr; reflexivity.
Qed.

Section QueueAnswered.
Context {T : Type}.
Implicit Types (q : AsyncQueue.Queue T) (ops : list (AsyncQueue.Op T)).

(** A step keeps every pull answered, unless it is a pull made while
    another one is suspended. *)
Lemma step_answered (n0 : nat) q op :
  queue_wf q -> answered_from n0 q ->
  (AsyncQueue.is_Next op = true -> AsyncQueue.resolveNext q = None) ->
  answered_from n0 (AsyncQueue.step q op).
Proof.
  destruct q as [c f vs rs rj dr d n log]. unfold queue_wf, answered_from; cbn.
  intros (Hpair & _) Hans Hseq. subst rj.
  assert (Hold : forall id, (n0 <= id < n)%nat ->
            In id (List.map fst log) \/ rs = Some id) by exact Hans.
  clear Hans.
  destruct op as [value | | err |]; cbn [AsyncQueue.step AsyncQueue.is_Next] in *;
    try (specialize (Hseq eq_refl); subst rs);
    unfold AsyncQueue.push, AsyncQueue.close, AsyncQueue.fail, AsyncQueue.next,
      AsyncQueue.fresh, AsyncQueue.failed, AsyncQueue.settleDone; cbn;
    destruct c, f as [e |], vs as [| v rest]; cbn; try destruct (truthy e); cbn;
    try destruct rs as [p |]; cbn; try destruct dr; cbn;
    intros id Hid; rewrite ?List.map_app, ?List.in_app_iff; cbn;
    (destruct (Nat.eq_dec id n) as [-> | Hne];
     [try (exfalso; lia); auto 6
     | destruct (Hold id ltac:(lia)) as [Hin | Hslot];
       [auto | try discriminate; injection Hslot as ->; auto 6]]).
Qed.

Lemma run_answered (n0 : nat) ops q :
  queue_wf q -> answered_from n0 q ->
  AsyncQueue.sequential ops q = true ->
  answered_from n0 (AsyncQueue.run ops q).
Proof.
  revert q. induction ops as [| op ops IH]; intros q Hwf Hans Hseq; [exact Hans |].
  rewrite run_cons. cbn [AsyncQueue.sequential] in Hseq.
  apply andb_true_iff in Hseq. destruct Hseq as [Hop Hrest].
  apply IH; [apply step_wf, Hwf | | exact Hrest].
  apply step_answered; [exact Hwf | exact Hans |].
  intros Hnext. rewrite Hnext in Hop.
  destruct (AsyncQueue.resolveNext q); [discriminate | reflexivity].
Qed.

Lemma sequential_app ops1 ops2 q :
  AsyncQueue.sequential (ops1 ++ ops2) q
  = AsyncQueue.sequential ops1 q
    && AsyncQueue.sequential ops2 (AsyncQueue.run ops1 q).
Proof.
  revert q. induction ops1 as [| op ops1 IH]; intros q; [reflexivity |].
  cbn [List.app AsyncQueue.sequential]. rewrite IH, run_cons, andb_assoc. reflexivity.
Qed.

Lemma closed_step q op :
  AsyncQueue.isClosed q = true -> AsyncQueue.isClosed (AsyncQueue.step q op) = true.
Proof. intros Hclosed. apply (closed_run [op] q Hclosed). Qed.

(** On a closed queue no pull is ever suspended, so every schedule counts
    as one pull at a time. *)
Lemma closed_sequential ops q :
  queue_wf q -> AsyncQueue.isClosed q = true -> AsyncQueue.sequential ops q = true.
Proof.
  revert q. induction ops as [| op ops IH]; intros q Hwf Hclosed; [reflexivity |].
  cbn [AsyncQueue.sequential].
  rewrite IH by (try apply step_wf; try apply closed_step; assumption).
  rewrite andb_true_r.
  destruct (AsyncQueue.resolveNext q) as [p |] eqn:Eslot;
    [| now destruct (AsyncQueue.is_Next op)].
  destruct Hwf as (_ & _ & _ & Hpend & _).
  destruct (Hpend p Eslot) as (_ & _ & Hopen & _). congruence.
Qed.

Lemma settled_outcome q id :
  In id (List.map fst (AsyncQueue.settlements q)) -> AsyncQueue.outcome q id <> None.
Proof.
  unfold AsyncQueue.outcome. intros Hin.
  destruct (List.find _ _) as [s |] eqn:Efind; [discriminate |].
  apply List.in_map_iff in Hin. destruct Hin as ([id' r] & Hid & Hin). cbn in Hid. subst id'.
  apply (List.find_none _ _ Efind) in Hin. cbn in Hin.
  now rewrite Nat.eqb_refl in Hin.
Qed.

(** After an event of the producer on a queue whose consumer pulled one at
    a time, every pull is settled if the resolver slot is empty. *)
Lemma producer_answers_all ops q op :
  queue_wf q -> answered_from 0 q ->
  AsyncQueue.is_Next op = false ->
  AsyncQueue.resolveNext (AsyncQueue.step q op) = None ->
  forall id, (id < AsyncQueue.issued q)%nat ->
    AsyncQueue.outcome (AsyncQueue.step q op) id <> None.
Proof.
  intros Hwf Hans Hproducer Hslot id Hid.
  assert (Hans' : answered_from 0 (AsyncQueue.step q op)).
  { apply step_answered; [exact Hwf | exact Hans |]. rewrite Hproducer. discriminate. }
  pose proof (issued_run [op] q) as Hissued.
  change (AsyncQueue.run [op] q) with (AsyncQueue.step q op) in Hissued.
  assert (Hnone : AsyncQueue.pulls [op] = 0%nat).
  { unfold AsyncQueue.pulls. cbn. now rewrite Hproducer. }
  rewrite Hnone, Nat.add_0_r in Hissued.
  destruct (Hans' id) as [Hin | Hpending]; [lia | | congruence].
  now apply settled_outcome.
Qed.

End QueueAnswered.

(** X18: for a consumer that pulls one at a time, the suspended pull is the
    only pull that is not settled, and the very next event of the producer
    settles it: a pushed value resolves it with that value and is not
    buffered, [close()] resolves it with the completion marker, [fail(err)]
    rejects it with [err]; afterwards every pull made so far is settled.
    (Without the one-at-a-time condition this fails: a pull overlapped by a
    later one stays pending for ever.) *)
Theorem suspended_pull_is_woken {T : Type} (ops : list (AsyncQueue.Op T)) (p : nat)
    (value : T) (err : Thrown) :
  let q := AsyncQueue.run ops AsyncQueue.createAsyncQueue in
  AsyncQueue.sequential ops AsyncQueue.createAsyncQueue = true ->
  AsyncQueue.resolveNext q = Some p ->
  (AsyncQueue.outcome q p = None
   /\ forall id, (id < AsyncQueue.pulls ops)%nat -> id <> p ->
        AsyncQueue.outcome q id <> None)
  /\ (AsyncQueue.outcome (AsyncQueue.push value q) p = Some (Resolved (Value value))
      /\ AsyncQueue.values (AsyncQueue.push value q) = []
      /\ forall id, (id < AsyncQueue.pulls ops)%nat ->
           AsyncQueue.outcome (AsyncQueue.push value q) id <> None)
  /\ (AsyncQueue.outcome (AsyncQueue.close q) p = Some (Resolved Done)
      /\ forall id, (id < AsyncQueue.pulls ops)%nat ->
           AsyncQueue.outcome (AsyncQueue.close q) id <> None)
  /\ (AsyncQueue.outcome (AsyncQueue.fail err q) p = Some (Rejected err)
      /\ forall id, (id < AsyncQueue.pulls ops)%nat ->
           AsyncQueue.outcome (AsyncQueue.fail err q) id <> None).
Proof.
  intros q Hseq Hpending.
  pose proof (reachable_wf ops) as Hwf. fold q in Hwf.
  assert (Hans : answered_from 0 q).
  { apply run_answered; [apply createAsyncQueue_wf | | exact Hseq].
    intros id Hid. cbn in Hid. lia. }
  pose proof (issued_run ops AsyncQueue.createAsyncQueue) as Hissued.
  fold q in Hissued. cbn in Hissued.
  assert (Hslot :
    (AsyncQueue.outcome q p = None)
    /\ (AsyncQueue.outcome (AsyncQueue.push value q) p = Some (Resolved (Value value))
        /\ AsyncQueue.values (AsyncQueue.push value q) = []
        /\ AsyncQueue.resolveNext (AsyncQueue.push value q) = None)
    /\ (AsyncQueue.outcome (AsyncQueue.close q) p = Some (Resolved Done)
        /\ AsyncQueue.resolveNext (AsyncQueue.close q) = None)
    /\ (AsyncQueue.outcome (AsyncQueue.fail err q) p = Some (Rejected err)
        /\ AsyncQueue.resolveNext (AsyncQueue.fail err q) = None)).
  { destruct Hwf as (Hpair & _ & _ & Hpend & _).
    destruct (Hpend p Hpending) as (_ & Hnew & Hc & Hf & Hv).
    clear Hans Hissued Hseq.
    destruct q as [c f vs rs rj dr d n log]. cbn in *. subst rs rj c vs.
    unfold AsyncQueue.outcome, AsyncQueue.push, AsyncQueue.close, AsyncQueue.fail,
      AsyncQueue.settleDone. rewrite Hf. cbn.
    rewrite (find_unsettled log p Hnew).
    destruct dr; cbn; rewrite !(find_settled_last log p _ Hnew); cbn; auto 10. }
  destruct Hslot as (Hnone & (Hpush & Hvalues & Hpush') & (Hclose & Hclose')
                     & (Hfail & Hfail')).
  rewrite <- Hissued.
  split; [split; [exact Hnone |] | split; [| split]].
  - intros id Hid Hother. destruct (Hans id) as [Hin | Hheld]; [lia | | congruence].
    now apply settled_outcome.
  - split; [exact Hpush | split; [exact Hvalues |]].
    apply (producer_answers_all ops q (AsyncQueue.Push value) Hwf Hans eq_refl Hpush').
  - split; [exact Hclose |].
    apply (producer_answers_all ops q AsyncQueue.Close Hwf Hans eq_refl Hclose').
  - split; [exact Hfail |].
    apply (producer_answers_all ops q (AsyncQueue.Fail err) Hwf Hans eq_refl Hfail').
Qed.

Lemma suspended_pull_is_woken_witness :
  let ops := [AsyncQueue.Push "a"; AsyncQueue.Next; AsyncQueue.Next] in
  AsyncQueue.outcome
    (AsyncQueue.push "b" (AsyncQueue.run ops AsyncQueue.createAsyncQueue)) 1%nat
  = Some (Resolved (Value "b")).
Proof.
  intros ops.
  destruct (suspended_pull_is_woken ops 1%nat "b" ThrownUndefined)
    as (_ & (Hpush & _) & _); [reflexivity | reflexivity |].
  exact Hpush.
Defined.

Lemma done_run {T : Type} (ops : list (AsyncQueue.Op T)) (q : AsyncQueue.Queue T) :
  queue_wf q ->
  AsyncQueue.done (AsyncQueue.run ops q)
  = AsyncQueue.done q || List.existsb is_terminal ops.
Proof.
  revert q. induction ops as [| op ops IH]; intros q Hwf.
  - cbn. now rewrite orb_false_r.
  - rewrite run_cons, IH by (apply step_wf, Hwf).
    destruct Hwf as (_ & _ & _ & _ & Hdone & Hres).
    rewrite (step_done q op Hdone Hres). cbn [List.existsb]. now rewrite orb_assoc.
Qed.

(** X19: [done] has resolved exactly when the producer has called [close()]
    or [fail(err)] at least once: pushes and pulls never resolve it, and the
    first terminal call always does, also a [fail] with a falsy error. *)
Theorem done_resolves_on_first_terminal_call {T : Type} (ops : list (AsyncQueue.Op T)) :
  AsyncQueue.done (AsyncQueue.run ops AsyncQueue.createAsyncQueue)
  = List.existsb is_terminal ops.
Proof. apply (done_run ops _ createAsyncQueue_wf). Qed.

(** X20: while the producer has not failed and the consumer pulls one at a
    time, the queue conserves the pushed values at every moment, not only
    after the close: the pulls settled so far saw the accepted values in
    order, one each, and the buffer holds exactly the values not seen yet. *)
Theorem queue_conserves_values {T : Type} (ops : list (AsyncQueue.Op T)) :
  List.existsb AsyncQueue.is_Fail ops = false ->
  AsyncQueue.sequential ops AsyncQueue.createAsyncQueue = true ->
  let q := AsyncQueue.run ops AsyncQueue.createAsyncQueue in
  let items := AsyncQueue.accepted false ops in
  let m := List.length (AsyncQueue.settlements q) in
  AsyncQueue.settlements q = AsyncQueue.delivered items m
  /\ AsyncQueue.values q = List.skipn m items
  /\ (AsyncQueue.isClosed q = false -> (m <= List.length items)%nat)
  /\ (AsyncQueue.pulls ops - 1 <= m <= AsyncQueue.pulls ops)%nat.
Proof.
  intros Hnofail Hseq q items m.
  destruct (run_in_order ops [] AsyncQueue.createAsyncQueue
              createAsyncQueue_in_order Hnofail Hseq) as [Hinv _].
  fold q in Hinv. cbn in Hinv. fold items in Hinv.
  destruct Hinv as (_ & _ & _ & _ & Hlog & Hvalues & Hcount & Hpend).
  fold m in Hlog, Hvalues, Hcount, Hpend.
  pose proof (issued_run ops AsyncQueue.createAsyncQueue) as Hissued.
  fold q in Hissued. cbn in Hissued.
  repeat split; auto.
  - intros Hopen. destruct Hcount as [Hle | Hclosed]; [exact Hle | congruence].
  - destruct Hpend as [[_ Hn] | (_ & Hn & _)]; lia.
  - destruct Hpend as [[_ Hn] | (_ & Hn & _)]; lia.
Qed.

Lemma queue_conserves_values_witness :
  let ops := [AsyncQueue.Push "a"; AsyncQueue.Push "b"; AsyncQueue.Next;
              AsyncQueue.Push "c"] in
  let q := AsyncQueue.run ops AsyncQueue.createAsyncQueue in
  AsyncQueue.settlements q = AsyncQueue.delivered ["a"; "b"; "c"] 1
  /\ AsyncQueue.values q = ["b"; "c"].
Proof.
  destruct (queue_conserves_values
              [AsyncQueue.Push "a"; AsyncQueue.Push "b"; AsyncQueue.Next;
               AsyncQueue.Push "c"]) as (Hlog & Hvalues & _); [reflexivity .. |].
  split; [exact Hlog | exact Hvalues].
Defined.

(** ** The promise and the end of an event-source session *)

Lemma outer_act (st : EventSource.State) (a : EventSource.Action) :
  EventSource.settled st
  = match EventSource.outer st with Some _ => true | None => false end ->
  let st' := EventSource.act st a in
  EventSource.request_config st' = EventSource.request_config st
  /\ EventSource.settled st'
     = match EventSource.outer st' with Some _ => true | None => false end
  /\ EventSource.outer st'
     = match EventSource.outer st with
       | Some r => Some r
       | None =>
           match a with
           | EventSource.Source ev => settlement_of (EventSource.request_config st) ev
           | EventSource.Pull => None
           end
       end.
Proof.
  destruct st as [q s o rd cs cfg]; cbn. intros ->.
  destruct a as [[r | data event id | error | | [err |]] |]; cbn;
    unfold EventSource.settle_outer; cbn;
    try destruct (ok r); destruct o; cbn; auto.
Qed.

Lemma outer_exec (acts : list EventSource.Action) (st : EventSource.State) :
  EventSource.settled st
  = match EventSource.outer st with Some _ => true | None => false end ->
  EventSource.outer (EventSource.exec acts st)
  = match EventSource.outer st with
    | Some r => Some r
    | None => first_settlement (EventSource.request_config st)
                (EventSource.source_events acts)
    end.
Proof.
  revert st. induction acts as [| a acts IH]; intros st Hinv.
  - cbn. now destruct (EventSource.outer st).
  - destruct (outer_act st a Hinv) as (Hcfg & Hinv' & Houter).
    cbn [EventSource.exec List.fold_left].
    fold (EventSource.exec acts (EventSource.act st a)).
    rewrite (IH _ Hinv'), Houter, Hcfg.
    destruct (EventSource.outer st) as [r |]; [reflexivity |].
    destruct a as [ev |]; cbn [EventSource.source_events List.flat_map List.app];
      [| reflexivity].
    cbn [first_settlement].
    fold (EventSource.source_events acts).
    now destruct (settlement_of (EventSource.request_config st) ev).
Qed.

(** X22: the promise returned by [request] is settled by the first event
    of the source that is an [onopen] call or a rejection of the source's
    promise, and by nothing else: later events never change it, and
    messages, [onerror], [onclose], pulls and a source promise that
    resolves leave it pending. *)
Theorem request_promise_is_first_settlement (requestConfig : RequestConfig)
    (acts : list EventSource.Action) :
  EventSource.outer (EventSource.exec acts (EventSource.request requestConfig))
  = first_settlement requestConfig (EventSource.source_events acts).
Proof. apply (outer_exec acts (EventSource.request requestConfig)). reflexivity. Qed.

(** X23: once the source's promise has settled, either way, the session is
    over for good, whatever the source and the consumer did before or do
    afterwards: the queue is closed, [session.done] has resolved, and every
    pull made from then on is answered at once.  If the consumer pulled one
    at a time until then, no pull at all is left pending.  (A pull that was
    overlapped by a later one before the end stays pending for ever.) *)
Theorem session_over_once_source_settles (requestConfig : RequestConfig)
    (acts later : list EventSource.Action) (rejection : option Thrown) :
  let all := acts ++ EventSource.Source (Settles rejection) :: later in
  let st := EventSource.exec all (EventSource.request requestConfig) in
  AsyncQueue.isClosed (EventSource.queue st) = true
  /\ EventSource.session_done st = true
  /\ AsyncQueue.resolveNext (EventSource.queue st) = None
  /\ (forall id, (EventSource.pulls acts <= id < EventSource.pulls all)%nat ->
        AsyncQueue.outcome (EventSource.queue st) id <> None)
  /\ (EventSource.sequential acts (EventSource.request requestConfig) = true ->
      forall id, (id < EventSource.pulls all)%nat ->
        AsyncQueue.outcome (EventSource.queue st) id <> None).
Proof.
  intros all st.
  set (before := List.flat_map EventSource.queue_ops acts).
  set (ending := EventSource.source_ops (Settles rejection)
                 ++ List.flat_map EventSource.queue_ops later).
  set (q0 := AsyncQueue.run before (@AsyncQueue.createAsyncQueue EventSourceMessage)).
  assert (Hops : List.flat_map EventSource.queue_ops all = before ++ ending).
  { unfold all, before, ending. rewrite List.flat_map_app. reflexivity. }
  assert (Hq : EventSource.queue st = AsyncQueue.run ending q0).
  { unfold st. rewrite queue_exec, Hops, run_app. reflexivity. }
  assert (Hwf0 : queue_wf q0) by apply reachable_wf.
  assert (Hwf : queue_wf (EventSource.queue st)) by (rewrite Hq; apply run_wf, Hwf0).
  assert (Hclosed : AsyncQueue.isClosed (EventSource.queue st) = true).
  { rewrite Hq. unfold ending. rewrite run_app. apply closed_run.
    destruct rejection as [err |]; cbn [EventSource.source_ops];
      rewrite !run_cons; cbn [AsyncQueue.step AsyncQueue.run List.fold_left];
      apply closed_close. }
  assert (Hslot : AsyncQueue.resolveNext (EventSource.queue st) = None).
  { destruct (AsyncQueue.resolveNext (EventSource.queue st)) as [p |] eqn:Eslot;
      [| reflexivity].
    destruct Hwf as (_ & _ & _ & Hpend & _).
    destruct (Hpend p Eslot) as (_ & _ & Hopen & _). congruence. }
  assert (Hending : AsyncQueue.sequential ending q0 = true).
  { unfold ending. rewrite sequential_app.
    assert (Hsettle : AsyncQueue.sequential (EventSource.source_ops (Settles rejection)) q0
                      = true) by (destruct rejection; reflexivity).
    rewrite Hsettle. cbn [andb].
    apply closed_sequential; [apply run_wf, Hwf0 |].
    destruct rejection as [err |]; cbn [EventSource.source_ops];
      rewrite !run_cons; cbn [AsyncQueue.step AsyncQueue.run List.fold_left];
      apply closed_close. }
  assert (Hissued0 : AsyncQueue.issued q0 = EventSource.pulls acts).
  { unfold q0. rewrite issued_run. cbn. unfold before. apply pulls_queue_ops. }
  assert (Hissued : AsyncQueue.issued (EventSource.queue st) = EventSource.pulls all).
  { unfold st. rewrite queue_exec, issued_run. cbn. apply pulls_queue_ops. }
  assert (Hfrom : forall n0, answered_from n0 q0 ->
            forall id, (n0 <= id < EventSource.pulls all)%nat ->
              AsyncQueue.outcome (EventSource.queue st) id <> None).
  { intros n0 Hans id Hid.
    pose proof (run_answered n0 ending q0 Hwf0 Hans Hending) as Hans'.
    rewrite <- Hq in Hans'.
    destruct (Hans' id) as [Hin | Hheld]; [lia | | congruence].
    now apply settled_outcome. }
  split; [exact Hclosed | split; [| split; [exact Hslot | split]]].
  - unfold EventSource.session_done.
    destruct Hwf as (_ & _ & _ & _ & Hdone & _). rewrite Hdone, Hclosed. cbn.
    unfold st. rewrite run_done_exec. cbn.
    unfold EventSource.source_events, all. rewrite List.flat_map_app. cbn.
    rewrite List.existsb_app. cbn. now rewrite orb_true_r.
  - apply Hfrom. intros id Hid. lia.
  - intros Hseq id Hid. apply (Hfrom 0%nat); [| lia].
    apply run_answered; [apply createAsyncQueue_wf | | exact Hseq].
    intros id' Hid'. cbn in Hid'. lia.
Qed.

Lemma session_over_once_source_settles_witness :
  let st := EventSource.exec Fixtures.a_b_close (EventSource.request Fixtures.get_test) in
  AsyncQueue.outcome (EventSource.queue st) 0 <> None
  /\ AsyncQueue.outcome (EventSource.queue st) 2 <> None.
Proof.
  intros st.
  destruct (session_over_once_source_settles Fixtures.get_test
              [ EventSource.Source (OnOpen Fixtures.opened);
                EventSource.Pull;
                EventSource.Source (OnMessage "a" "message" "1");
                EventSource.Source (OnMessage "b" "message" "2");
                EventSource.Pull;
                EventSource.Source OnClose ]
              [EventSource.Pull] None) as (_ & _ & _ & _ & Hall).
  split; apply Hall; try reflexivity; cbn; lia.
Defined.

(** ** Query parameters *)

Lemma appended_filter (params : Url.Params) :
  Url.appended (List.filter has_value params) = Url.appended params.
Proof.
  induction params as [| [key [v |]] params IH]; cbn; [reflexivity | |].
  - unfold Url.appended in *. cbn. now rewrite IH.
  - exact IH.
Qed.

(** X24: parameters whose value is [undefined] or [null] leave no trace in
    the URL: as long as an empty [URLSearchParams] serialises to the empty
    string, [buildUrl] gives the same URL as with these entries removed, and
    when no entry has a value, the same URL as without [params] (no stray
    [?] is appended). *)
Theorem buildUrl_ignores_missing_values (serialize : list (string * string) -> string)
    (url : string) (params : Url.Params) (baseURL : option string) :
  serialize [] = "" ->
  Url.buildUrl serialize url (Some params) baseURL
  = Url.buildUrl serialize url (Some (List.filter has_value params)) baseURL
  /\ (List.forallb (fun kv => negb (has_value kv)) params = true ->
      Url.buildUrl serialize url (Some params) baseURL
      = Url.buildUrl serialize url None baseURL).
Proof.
  intros Hempty.
  assert (Hnone : List.forallb (fun kv => negb (has_value kv)) params = true ->
                  Url.appended params = []).
  { induction params as [| [key [v |]] params IH]; cbn; intros Hall;
      [reflexivity | discriminate |]. apply IH, Hall. }
  split.
  - unfold Url.buildUrl.
    destruct params as [| entry more]; [reflexivity |].
    rewrite <- (appended_filter (entry :: more)).
    destruct (List.filter has_value (entry :: more)) as [| entry' more'] eqn:Efilter;
      [| reflexivity].
    cbn [Url.appended List.flat_map]. rewrite Hempty. reflexivity.
  - intros Hall. unfold Url.buildUrl.
    destruct params as [| entry more]; [reflexivity |].
    rewrite (Hnone Hall), Hempty. reflexivity.
Qed.

Lemma buildUrl_ignores_missing_values_witness :
  let serialize := fun entries : list (string * string) =>
                     match entries with
                     | [] => ""
                     | (k, v) :: _ => (k ++ "=" ++ v)%string
                     end in
  Url.buildUrl serialize "/users" (Some [("page", None); ("q", Some "x")])
    (Some "https://api.example.com")
  = Url.buildUrl serialize "/users" (Some [("q", Some "x")])
      (Some "https://api.example.com").
Proof.
  intros serialize.
  destruct (buildUrl_ignores_missing_values serialize "/users"
              [("page", None); ("q", Some "x")] (Some "https://api.example.com"))
    as [Hsame _]; [reflexivity |].
  exact Hsame.
Defined.

(** ** The response cache *)

Section Cache.
Context {D : Type}.
Variable stringify_params : RequestConfig -> string.
Implicit Types (w : Eff.World (@CacheMiddleware.Env D)) (next : NextFunction D).

Lemma cache_hit next w (cached : ResponseData) :
  let env := Eff.w_env w in
  method (ctx_request (CacheMiddleware.ctx env)) = GET ->
  CacheMiddleware.cacheStore env
    !! CacheMiddleware.key_of stringify_params (ctx_request (CacheMiddleware.ctx env))
  = Some cached ->
  CacheMiddleware.cacheMiddleware stringify_params next w
  = (Resolved tt,
     Eff.mkWorld (fst env, on_ctx (CacheMiddleware.set_response cached) (snd env))
       (Eff.w_draws w) (Eff.w_trace w)).
Proof.
  intros env Hget Hhit.
  unfold CacheMiddleware.cacheMiddleware, Eff.bind, Eff.get. cbn.
  fold env. rewrite Hget. cbn. rewrite Hhit. reflexivity.
Qed.

Lemma cache_pass next w :
  let env := Eff.w_env w in
  let key := CacheMiddleware.key_of stringify_params
               (ctx_request (CacheMiddleware.ctx env)) in
  method (ctx_request (CacheMiddleware.ctx env)) <> GET
  \/ CacheMiddleware.cacheStore env !! key = None ->
  let after := next (snd env) in
  let w' := snd (CacheMiddleware.cacheMiddleware stringify_params next w) in
  fst (CacheMiddleware.cacheMiddleware stringify_params next w) = fst after
  /\ snd (Eff.w_env w') = snd after
  /\ Eff.w_trace w' = Eff.w_trace w ++ [EvNext]
  /\ CacheMiddleware.cacheStore (Eff.w_env w')
     = match fst after, ctx_response (fst (snd after)) with
       | Resolved _, Some response =>
           if HttpMethod_eqb (method (ctx_request (CacheMiddleware.ctx env))) GET
           then <[key := response]> (CacheMiddleware.cacheStore env)
           else CacheMiddleware.cacheStore env
       | _, _ => CacheMiddleware.cacheStore env
       end.
Proof.
  destruct w as [[store [c0 d0]] draws tr].
  intros env key Hpass after w'. subst env key after w'.
  unfold CacheMiddleware.cacheMiddleware, CacheMiddleware.call_next, Eff.bind, Eff.get,
    Eff.emit, Eff.lift, Eff.modify, Eff.ret, CacheMiddleware.ctx,
    CacheMiddleware.cacheStore, CacheMiddleware.cache_set in *.
  cbn in Hpass |- *.
  destruct (HttpMethod_eqb (method (ctx_request c0)) GET) eqn:Eget.
  - destruct Hpass as [Hother | Hmiss].
    + exfalso. apply Hother.
      destruct (method (ctx_request c0)); try discriminate; reflexivity.
    + rewrite Hmiss.
      destruct (next _) as [[[] | e] [c d]] eqn:Enext; cbn;
        [destruct (ctx_response c) as [response |]; cbn |]; auto.
  - destruct (next _) as [[[] | e] [c d]] eqn:Enext; cbn;
      [destruct (ctx_response c) as [response |]; cbn |]; auto.
Qed.

End Cache.

(** X25: a response is served from the cache without touching the rest of
    the chain: on a [GET] whose key is in the store, the middleware resolves,
    puts the stored response into [ctx.response], does not call [next], and
    changes neither the store nor anything else of the context. *)
Theorem cache_hit_skips_the_chain {D : Type} (stringify_params : RequestConfig -> string)
    (next : NextFunction D) (w : Eff.World (@CacheMiddleware.Env D))
    (cached : ResponseData) :
  let env := Eff.w_env w in
  let c := CacheMiddleware.ctx env in
  method (ctx_request c) = GET ->
  CacheMiddleware.cacheStore env
    !! CacheMiddleware.key_of stringify_params (ctx_request c) = Some cached ->
  let w' := snd (CacheMiddleware.cacheMiddleware stringify_params next w) in
  fst (CacheMiddleware.cacheMiddleware stringify_params next w) = Resolved tt
  /\ CacheMiddleware.ctx (Eff.w_env w')
     = mkHttpContext (ctx_request c) (Some cached) (ctx_error c) (ctx_state c)
  /\ next_calls w' = next_calls w
  /\ CacheMiddleware.cacheStore (Eff.w_env w') = CacheMiddleware.cacheStore env
  /\ snd (snd (Eff.w_env w')) = snd (snd env).
Proof.
  intros env c Hget Hhit w'. subst w'.
  rewrite (cache_hit stringify_params next w cached Hget Hhit). cbn. auto.
Qed.

Lemma cache_hit_skips_the_chain_witness :
  let response := mkResponseData (Body "[]") 200 "OK" Fixtures.get_test in
  let failing : NextFunction unit :=
    fun env => (Rejected (ThrownString "offline"), env) in
  let w := Eff.mkWorld
             ({["/test{}" := response]} : gmap string ResponseData,
              (createHttpContext Fixtures.get_test, tt)) 0%nat [] in
  fst (CacheMiddleware.cacheMiddleware (fun _ => "{}") failing w) = Resolved tt.
Proof.
  intros response failing w.
  destruct (cache_hit_skips_the_chain (fun _ => "{}") failing w response)
    as [Hresolved _]; [reflexivity | reflexivity |].
  exact Hresolved.
Defined.

(** X26: what is not served from the cache goes through unchanged: on a
    request that is not a [GET], or whose key is not in the store, the
    middleware calls [next] exactly once and settles the way [next] did, and
    the rest of the chain sees and leaves the same state as without the
    middleware. *)
Theorem cache_miss_is_transparent {D : Type} (stringify_params : RequestConfig -> string)
    (next : NextFunction D) (w : Eff.World (@CacheMiddleware.Env D)) :
  let env := Eff.w_env w in
  method (ctx_request (CacheMiddleware.ctx env)) <> GET
  \/ CacheMiddleware.cacheStore env
       !! CacheMiddleware.key_of stringify_params (ctx_request (CacheMiddleware.ctx env))
     = None ->
  let w' := snd (CacheMiddleware.cacheMiddleware stringify_params next w) in
  fst (CacheMiddleware.cacheMiddleware stringify_params next w) = fst (next (snd env))
  /\ snd (Eff.w_env w') = snd (next (snd env))
  /\ next_calls w' = (next_calls w + 1)%nat.
Proof.
  intros env Hpass w'.
  destruct (cache_pass stringify_params next w Hpass) as (Hres & Henv & Htrace & _).
  fold env in Hres, Henv. fold w' in Henv, Htrace.
  repeat split; auto.
  unfold next_calls. rewrite Htrace, List.filter_app, List.length_app. reflexivity.
Qed.

Lemma cache_miss_is_transparent_witness :
  let failing : NextFunction unit :=
    fun env => (Rejected (ThrownString "offline"), env) in
  let w := Eff.mkWorld
             (∅ : gmap string ResponseData,
              (createHttpContext Fixtures.get_test, tt)) 0%nat [] in
  fst (CacheMiddleware.cacheMiddleware (fun _ => "{}") failing w)
  = Rejected (ThrownString "offline").
Proof.
  intros failing w.
  destruct (cache_miss_is_transparent (fun _ => "{}") failing w) as [Hres _];
    [right; reflexivity |].
  exact Hres.
Defined.

(** The middleware of [CacheMiddleware] is the shared one, run with a
    continuation that leaves the store alone. *)
Lemma cacheMiddleware_isolated {D : Type} (stringify_params : RequestConfig -> string)
    (next : NextFunction D) :
  CacheMiddleware.cacheMiddleware stringify_params next
  = SharedCache.cacheMiddleware stringify_params (SharedCache.isolated next).
Proof. reflexivity. Qed.

(** X27: what a run of the middleware does to the store, when other
    requests may change the store while [next] is awaited.  The run writes
    in exactly one case: the request is a [GET] whose key was missing on
    entry, [next] resolved, and a response is present afterwards; then the
    key is set to that response, replacing what another request may have
    stored under it meanwhile.  On a hit the store stays as it was; in every
    other case (another method, [next] rejected, no response) it is the
    store as [next] left it, so failures and other methods are never cached.
    Entries under other keys are never touched, and none is removed. *)
Theorem cache_store_effect {D : Type} (stringify_params : RequestConfig -> string)
    (next : @CacheMiddleware.Env D -> Settled unit * @CacheMiddleware.Env D)
    (w : Eff.World (@CacheMiddleware.Env D)) :
  let env := Eff.w_env w in
  let request := ctx_request (CacheMiddleware.ctx env) in
  let key := CacheMiddleware.key_of stringify_params request in
  let store := CacheMiddleware.cacheStore env in
  let left := CacheMiddleware.cacheStore (snd (next env)) in
  let store' := CacheMiddleware.cacheStore
                  (Eff.w_env (snd (SharedCache.cacheMiddleware stringify_params next w))) in
  let hit := HttpMethod_eqb (method request) GET
             && match store !! key with Some _ => true | None => false end in
  let written :=
    if HttpMethod_eqb (method request) GET
    then match store !! key, fst (next env) with
         | None, Resolved _ => ctx_response (CacheMiddleware.ctx (snd (next env)))
         | _, _ => None
         end
    else None in
  store' = match written with
           | Some response => <[key := response]> left
           | None => if hit then store else left
           end
  /\ (forall k, k <> key -> store' !! k = (if hit then store else left) !! k)
  /\ store' !! key = match written with
                     | Some response => Some response
                     | None => (if hit then store else left) !! key
                     end.
Proof.
  intros env request key store left store' hit written.
  assert (Hstore : store' = match written with
                            | Some response => <[key := response]> left
                            | None => if hit then store else left
                            end).
  { subst env request key store left store' hit written.
    destruct w as [[store [c0 d0]] draws tr].
    unfold SharedCache.cacheMiddleware, SharedCache.call_next, Eff.bind, Eff.get,
      Eff.emit, Eff.lift, Eff.modify, Eff.ret, CacheMiddleware.ctx,
      CacheMiddleware.cacheStore, CacheMiddleware.cache_set.
    cbn.
    destruct (HttpMethod_eqb (method (ctx_request c0)) GET); cbn.
    - destruct (store !! CacheMiddleware.key_of stringify_params (ctx_request c0));
        cbn; [reflexivity |].
      destruct (next _) as [[[] | e] [store1 [c d]]]; cbn; [| reflexivity].
      destruct (ctx_response c) as [response |]; reflexivity.
    - destruct (next _) as [[[] | e] [store1 [c d]]]; reflexivity. }
  split; [exact Hstore | split].
  - intros k Hother. rewrite Hstore. unfold written, hit.
    destruct (HttpMethod_eqb (method request) GET); cbn [andb]; [| reflexivity].
    destruct (store !! key); [reflexivity |].
    destruct (fst (next env)); [| reflexivity].
    destruct (ctx_response _); [| reflexivity].
    apply lookup_insert_ne. congruence.
  - rewrite Hstore. destruct written as [response |]; [| reflexivity].
    apply lookup_insert_eq.
Qed.

(** X28: what a successful [GET] stored is what the next [GET] with the same
    key gets: after a miss on which [next] resolved and left the response
    [r] in the context, a later run on a request with the same URL and
    parameters resolves with [r] in [ctx.response] without calling its
    continuation, whatever that continuation would have done. *)
Theorem cache_round_trip {D : Type} (stringify_params : RequestConfig -> string)
    (next1 next2 : NextFunction D) (w1 w2 : Eff.World (@CacheMiddleware.Env D))
    (r : ResponseData) :
  let request1 := ctx_request (CacheMiddleware.ctx (Eff.w_env w1)) in
  let request2 := ctx_request (CacheMiddleware.ctx (Eff.w_env w2)) in
  method request1 = GET ->
  CacheMiddleware.cacheStore (Eff.w_env w1)
    !! CacheMiddleware.key_of stringify_params request1 = None ->
  fst (next1 (snd (Eff.w_env w1))) = Resolved tt ->
  ctx_response (fst (snd (next1 (snd (Eff.w_env w1))))) = Some r ->
  CacheMiddleware.cacheStore (Eff.w_env w2)
  = CacheMiddleware.cacheStore
      (Eff.w_env (snd (CacheMiddleware.cacheMiddleware stringify_params next1 w1))) ->
  method request2 = GET ->
  CacheMiddleware.key_of stringify_params request2
  = CacheMiddleware.key_of stringify_params request1 ->
  let w2' := snd (CacheMiddleware.cacheMiddleware stringify_params next2 w2) in
  fst (CacheMiddleware.cacheMiddleware stringify_params next2 w2) = Resolved tt
  /\ ctx_response (CacheMiddleware.ctx (Eff.w_env w2')) = Some r
  /\ next_calls w2' = next_calls w2.
Proof.
  intros request1 request2 Hget1 Hmiss Hresolved Hresponse Hstore Hget2 Hkey w2'.
  destruct (cache_pass stringify_params next1 w1 (or_intror Hmiss))
    as (_ & _ & _ & Hstored).
  fold request1 in Hstored.
  rewrite Hresolved, Hresponse, Hget1 in Hstored.
  change (HttpMethod_eqb GET GET) with true in Hstored. cbv beta iota in Hstored.
  assert (Hhit : CacheMiddleware.cacheStore (Eff.w_env w2)
                 !! CacheMiddleware.key_of stringify_params request2 = Some r).
  { rewrite Hstore, Hstored, Hkey. apply lookup_insert_eq. }
  subst w2'. rewrite (cache_hit stringify_params next2 w2 r Hget2 Hhit). cbn. auto.
Qed.

Lemma cache_round_trip_witness :
  let answering : NextFunction unit :=
    fun env => (Resolved tt,
                (CacheMiddleware.set_response Fixtures.success (fst env), snd env)) in
  let failing : NextFunction unit :=
    fun env => (Rejected (ThrownString "offline"), env) in
  let w1 := Eff.mkWorld
              (∅ : gmap string ResponseData,
               (createHttpContext Fixtures.get_test, tt)) 0%nat [] in
  let w2 := Eff.mkWorld
              (CacheMiddleware.cacheStore
                 (Eff.w_env (snd (CacheMiddleware.cacheMiddleware (fun _ => "{}")
                                    answering w1))),
               (createHttpContext Fixtures.get_test, tt)) 0%nat [] in
  fst (CacheMiddleware.cacheMiddleware (fun _ => "{}") failing w2) = Resolved tt.
Proof.
  intros answering failing w1 w2.
  destruct (cache_round_trip (fun _ => "{}") answering failing w1 w2 Fixtures.success)
    as [Hresolved _]; [reflexivity .. |].
  exact Hresolved.
Defined.

(** ** Failures of the fetch transport *)

Lemma classify_typed (userSignal : option Fetch.Signal)
    (instanceof : RequestError -> bool) (cfg : RequestConfig) (e : RequestError) :
  Fetch.classify userSignal instanceof cfg (ThrownRequestError e) = e.
Proof. unfold Fetch.classify. now destruct (instanceof e). Qed.

(** [Fetch.request] is the request whose call is built without an
    exception. *)
Lemma request_prepared (interceptors : Fetch.Interceptors)
    (fetchFn : RequestConfig -> Settled Fetch.Response)
    (userSignal : option Fetch.Signal) (instanceof : RequestError -> bool)
    (requestConfig : RequestConfig) :
  FetchAdapter.request interceptors (fun _ => None) fetchFn userSignal instanceof
    requestConfig
  = Fetch.request interceptors fetchFn userSignal instanceof requestConfig.
Proof. reflexivity. Qed.

(** X29: a rejection reason that is not a [RequestError] leaves the fetch
    transport from two places only, the request interceptor and the code
    that builds the call (the URL, the headers and [JSON.stringify] of the
    body), both of which run before the [try] block; their exceptions are
    passed on as they are.  From the call on every rejection is typed: a
    typed error thrown by [fetchFn] or by the response interceptor is passed
    on unchanged, while whatever the body parser throws, typed or not, is
    replaced by a [ParseError]. *)
Theorem fetch_rejections_are_typed (interceptors : Fetch.Interceptors)
    (prepare : RequestConfig -> option Thrown)
    (fetchFn : RequestConfig -> Settled Fetch.Response)
    (userSignal : option Fetch.Signal) (instanceof : RequestError -> bool)
    (requestConfig : RequestConfig) :
  let processed := match Fetch.on_request interceptors with
                   | Some f => f requestConfig
                   | None => Resolved requestConfig
                   end in
  let result := FetchAdapter.request interceptors prepare fetchFn userSignal instanceof
                  requestConfig in
  (forall reason, result = Rejected reason ->
     isRequestError reason = true
     \/ processed = Rejected reason
     \/ exists processedConfig,
          processed = Resolved processedConfig /\ prepare processedConfig = Some reason)
  /\ (forall reason, processed = Rejected reason -> result = Rejected reason)
  /\ (forall processedConfig,
        processed = Resolved processedConfig ->
        (forall thrown, prepare processedConfig = Some thrown -> result = Rejected thrown)
        /\ (prepare processedConfig = None ->
            (match userSignal with Some s => Fetch.aborted_on_entry s | None => false end)
            = false ->
            (forall e, fetchFn processedConfig = Rejected (ThrownRequestError e) ->
               result = Rejected (ThrownRequestError e))
            /\ (forall response parseErr,
                  fetchFn processedConfig = Resolved response ->
                  Fetch.fr_ok response = true ->
                  Fetch.fr_body response = Rejected parseErr ->
                  result = Rejected (ThrownRequestError
                             (ParseError "Failed to parse response body"
                                (Some processedConfig) (Fetch.as_Error parseErr))))
            /\ (forall response data f e,
                  fetchFn processedConfig = Resolved response ->
                  Fetch.fr_ok response = true ->
                  Fetch.fr_body response = Resolved data ->
                  Fetch.on_response interceptors = Some f ->
                  f (mkResponseData data (Fetch.fr_status response)
                       (Fetch.fr_statusText response) processedConfig)
                  = Rejected (ThrownRequestError e) ->
                  result = Rejected (ThrownRequestError e)))).
Proof.
  intros processed result. subst result. unfold FetchAdapter.request. fold processed.
  split; [| split].
  - intros reason Hrejected.
    destruct processed as [processedConfig | thrown] eqn:Eprocessed.
    + destruct (prepare processedConfig) as [thrown |] eqn:Eprepare.
      * injection Hrejected as <-. right. right. exists processedConfig. auto.
      * left.
        destruct (match userSignal with
                  | Some s => Fetch.aborted_on_entry s
                  | None => false
                  end); [injection Hrejected as <-; reflexivity |].
        destruct (Fetch.attempt interceptors fetchFn processedConfig);
          [discriminate | injection Hrejected as <-; reflexivity].
    + injection Hrejected as <-. right. left. reflexivity.
  - intros reason ->. reflexivity.
  - intros processedConfig ->. split.
    + intros thrown ->. reflexivity.
    + intros -> ->. unfold Fetch.attempt. split; [| split].
      * intros e ->. now rewrite classify_typed.
      * intros response parseErr -> Hok ->. rewrite Hok. cbn [negb].
        now rewrite classify_typed.
      * intros response data f e -> Hok -> -> ->. rewrite Hok. cbn [negb].
        now rewrite classify_typed.
Qed.

Lemma fetch_rejections_are_typed_witness :
  let cyclic := ThrownError (new_TypeError "Converting circular structure to JSON") in
  let typed := TimeoutError "Request timeout" 1000 (Some Fixtures.post_events) in
  FetchAdapter.request (Fetch.mkInterceptors None None) (fun _ => Some cyclic)
    (fun _ => Rejected (ThrownRequestError typed)) None (fun _ => false)
    Fixtures.post_events
  = Rejected cyclic
  /\ FetchAdapter.request (Fetch.mkInterceptors None None) (fun _ => None)
       (fun _ => Rejected (ThrownRequestError typed)) None (fun _ => false)
       Fixtures.post_events
     = Rejected (ThrownRequestError typed).
Proof.
  intros cyclic typed. split.
  - destruct (fetch_rejections_are_typed (Fetch.mkInterceptors None None)
                (fun _ => Some cyclic) (fun _ => Rejected (ThrownRequestError typed))
                None (fun _ => false) Fixtures.post_events) as (_ & _ & Hpast).
    destruct (Hpast Fixtures.post_events eq_refl) as [Hbuild _].
    apply Hbuild. reflexivity.
  - destruct (fetch_rejections_are_typed (Fetch.mkInterceptors None None)
                (fun _ => None) (fun _ => Rejected (ThrownRequestError typed))
                None (fun _ => false) Fixtures.post_events) as (_ & _ & Hpast).
    destruct (Hpast Fixtures.post_events eq_refl) as [_ Hcall].
    destruct (Hcall eq_refl eq_refl) as [Htyped _].
    apply Htyped. reflexivity.
Defined.

(** X30: which failures of the fetch transport the default retry rule
    retries.  A response that is not [ok] is rejected as an HTTP error with
    the status of the response, without consulting the response interceptor,
    and is retried exactly when that status is not zero and in the retryable
    set.  A [TypeError] of [fetchFn] is a network error whatever its message
    and is retried.  An abort is not retried when the user's signal is
    aborted, even with a timeout configured; without that it is a timeout,
    and retried, when a positive timeout is configured, and a plain abort,
    not retried, otherwise. *)
Theorem fetch_failures_under_default_retry (interceptors : Fetch.Interceptors)
    (fetchFn : RequestConfig -> Settled Fetch.Response)
    (userSignal : option Fetch.Signal) (instanceof : RequestError -> bool)
    (requestConfig : RequestConfig) (n : Z) (codes : list Z) :
  Fetch.on_request interceptors = None ->
  (match userSignal with Some s => Fetch.aborted_on_entry s | None => false end) = false ->
  let result := Fetch.request interceptors fetchFn userSignal instanceof requestConfig in
  let retried := match result with
                 | Rejected reason => Retry.checkShouldRetry reason n codes None
                 | Resolved _ => false
                 end in
  let user_aborted := match userSignal with
                      | Some s => Fetch.aborted_on_failure s
                      | None => false
                      end in
  (forall response, fetchFn requestConfig = Resolved response ->
     Fetch.fr_ok response = false ->
     result = Rejected (ThrownRequestError
                (createHttpError (Fetch.fr_status response)
                   (Fetch.fr_statusText response) (Some requestConfig) None))
     /\ retried = negb (Fetch.fr_status response =? 0)
                  && Js.array_includes codes (Fetch.fr_status response))
  /\ (forall e, fetchFn requestConfig = Rejected (ThrownError e) ->
       raw_cls e = ClsTypeError ->
       (exists err, result = Rejected (ThrownRequestError err) /\ type err = NETWORK)
       /\ retried = true)
  /\ (forall e, fetchFn requestConfig = Rejected (ThrownError e) ->
       raw_cls e = ClsDOMException -> raw_name e = "AbortError" ->
       (exists err, result = Rejected (ThrownRequestError err)
          /\ type err = (if user_aborted then ABORTED
                         else if Fetch.has_timeout requestConfig then TIMEOUT
                         else ABORTED))
       /\ retried = negb user_aborted && Fetch.has_timeout requestConfig).
Proof.
  intros Hnone Hentry result retried user_aborted.
  subst result retried user_aborted.
  unfold Fetch.request, Fetch.attempt. rewrite Hnone, Hentry.
  split; [| split].
  - intros response -> Hok. rewrite Hok. cbn [negb].
    rewrite classify_typed. split; [reflexivity |].
    unfold Retry.checkShouldRetry, createHttpError, HttpError, isAbortedError,
      isHttpError, isRetryable, truthy_number; cbn.
    destruct (Fetch.fr_status response =? 0) eqn:Ezero; cbn; [| reflexivity].
    destruct (500 <=? Fetch.fr_status response) eqn:Ehigh; [| reflexivity].
    apply Z.eqb_eq in Ezero. rewrite Ezero in Ehigh. discriminate.
  - intros e -> Hcls. unfold Fetch.classify. rewrite Hcls.
    split; [eexists; split; [reflexivity | reflexivity] | reflexivity].
  - intros e -> Hcls Hname. unfold Fetch.classify. rewrite Hcls, Hname.
    cbn [String.eqb]. change ("AbortError" =? "AbortError")%string with true.
    cbv beta iota.
    destruct (match userSignal with
              | Some s => Fetch.aborted_on_failure s
              | None => false
              end); cbn [negb andb].
    + split; [eexists; split; reflexivity | reflexivity].
    + unfold Fetch.has_timeout.
      destruct (timeout requestConfig) as [t |]; cbn.
      * destruct (negb (t =? 0) && (0 <? t)); cbn;
          (split; [eexists; split; reflexivity | reflexivity]).
      * split; [eexists; split; reflexivity | reflexivity].
Qed.

Lemma fetch_failures_under_default_retry_witness :
  match Fetch.request (Fetch.mkInterceptors None None)
          (fun _ => Resolved (Fetch.mkResponse false 503 "Service Unavailable"
                                (Resolved (Body ""))))
          None (fun _ => false) Fixtures.get_test with
  | Rejected reason =>
      Retry.checkShouldRetry reason 0 Retry.DEFAULT_RETRYABLE_STATUS_CODES None
  | Resolved _ => false
  end
  = negb (503 =? 0) && Js.array_includes Retry.DEFAULT_RETRYABLE_STATUS_CODES 503.
Proof.
  destruct (fetch_failures_under_default_retry (Fetch.mkInterceptors None None)
              (fun _ => Resolved (Fetch.mkResponse false 503 "Service Unavailable"
                                    (Resolved (Body ""))))
              None (fun _ => false) Fixtures.get_test 0
              Retry.DEFAULT_RETRYABLE_STATUS_CODES eq_refl eq_refl)
    as (Hhttp & _ & _).
  destruct (Hhttp _ eq_refl eq_refl) as [_ Hretried].
  exact Hretried.
Defined.
